(** * NeonFlow: the canvas rendering engine of [VisualizerCanvas]

    A shallow embedding of the per-frame [render] callback, of the particle
    initialisers and of the mode-change effect of the visualizer component,
    followed by the properties of the rendering engine.

    Conventions of the embedding.
    - A JavaScript [number] is a real number.  The only places where the
      source can produce a non-finite number are kept explicit: the average
      of the high band (a division by [bufferLength - 100]) and an array read
      past the end ([undefined]); both are [option R], [None] standing for
      [NaN] or an infinity.
    - A [Uint8Array] is a [list byte].
    - [Math.random()] is the next element of a sequence [random : nat -> R];
      the state carries the number of values drawn so far.
    - The 2D context is write-only for the component, so a frame is the list
      of the context calls it makes, in order.  A gradient object is recorded
      when it is assigned to [fillStyle], with its colour stops.
    - The browser is taken at its documented behaviour: [createRadialGradient]
      throws on a non-finite argument (the frame stops there and requests no
      successor), [lineTo] ignores one.
    - [Date.now()] is read once per frame.  The canvas element and its 2D
      context exist; the captured video stream is outside the model. *)

From Stdlib Require Import String.
From Stdlib Require Import Reals Lra Lia ZArith List Bool.
From Stdlib Require Import Strings.Byte.
Import ListNotations.

Open Scope R_scope.

(** ** JavaScript number primitives *)

Module JS.

(** [Math.floor], as an integer. *)
Definition floor (x : R) : Z := Int_part x.

(** Rounding towards zero, the quotient behind the [%] operator. *)
Definition trunc (x : R) : Z :=
  if Rle_dec 0 x then Int_part x else (- Int_part (- x))%Z.

(** [a % b]: the remainder takes the sign of the dividend. *)
Definition rem (a b : R) : R := a - b * IZR (trunc (a / b)).

(** [a / b] when the divisor may be zero: [None] is [NaN] or an infinity. *)
Definition div (a b : R) : option R :=
  if Req_dec_T b 0 then None else Some (a / b).

(** An element of a [Uint8Array] as a number. *)
Definition byteVal (b : byte) : R := IZR (Z.of_N (Byte.to_N b)).

(** [arr[i]] as a number; [None] is [undefined]. *)
Definition get (arr : list byte) (i : nat) : option R :=
  option_map byteVal (nth_error arr i).

End JS.

(** ** Data model *)

Inductive VisualizerMode :=
| CIRCULAR | BARS | WAVE | NEURAL | WATERCOLOR | NEBULA | WATER_CIRCLE.

Definition VisualizerMode_eqb (a b : VisualizerMode) : bool :=
  match a, b with
  | CIRCULAR, CIRCULAR | BARS, BARS | WAVE, WAVE | NEURAL, NEURAL
  | WATERCOLOR, WATERCOLOR | NEBULA, NEBULA | WATER_CIRCLE, WATER_CIRCLE => true
  | _, _ => false
  end.

Record NeuralNode := {
  node_x : R; node_y : R; node_vx : R; node_vy : R; node_radius : R;
  originalX : R; originalY : R
}.

Record WatercolorBlob := {
  blob_x : R; blob_y : R; blob_radius : R; colorH : R;
  blob_vx : R; blob_vy : R; phase : R
}.

Record NebulaStar := {
  star_x : R; star_y : R; star_size : R; baseAlpha : R; twinklePhase : R
}.

Record PaperShard := {
  shard_x : R; shard_y : R; shard_vx : R; shard_vy : R;
  p1 : R * R; p2 : R * R;
  shard_size : R; isLight : bool; opacity : R; isHighlight : bool
}.

(** The noise canvas of [initPaperShards].  Its pixels are determined by its
    size and by the position in the random sequence at which they were drawn:
    pixel [k] has grey value [random (noise_seed + 2k) * 15] and alpha
    [random (noise_seed + 2k + 1) * 15]. *)
Record NoiseCanvas := {
  noise_width : Z; noise_height : Z; noise_seed : nat
}.

(** ** Audio metrics (the head of [render]) *)

Record Totals := { bassTotal : R; lowMidTotal : R; highTotal : R }.

(** One iteration of the band loop at index [i]. *)
Definition bandStep (i : nat) (val : R) (t : Totals) : Totals :=
  if (i <? 5)%nat then
    {| bassTotal := bassTotal t + val;
       lowMidTotal := lowMidTotal t; highTotal := highTotal t |}
  else if (i <? 20)%nat then
    {| bassTotal := bassTotal t + val * 0.8;
       lowMidTotal := lowMidTotal t; highTotal := highTotal t |}
  else if (i <? 100)%nat then
    {| bassTotal := bassTotal t;
       lowMidTotal := lowMidTotal t + val; highTotal := highTotal t |}
  else
    {| bassTotal := bassTotal t;
       lowMidTotal := lowMidTotal t; highTotal := highTotal t + val |}.

(** The loop [for (i = 0; i < bufferLength; i++)], entered at index [i] with
    the remaining elements of [dataArray]. *)
Fixpoint bandLoop (i : nat) (data : list byte) (t : Totals) : Totals :=
  match data with
  | [] => t
  | b :: rest => bandLoop (S i) rest (bandStep i (JS.byteVal b) t)
  end.

Definition bandTotals (dataArray : list byte) : Totals :=
  bandLoop 0 dataArray {| bassTotal := 0; lowMidTotal := 0; highTotal := 0 |}.

Definition bassAvg (dataArray : list byte) : R :=
  bassTotal (bandTotals dataArray) / 20.

Definition lowMidAvg (dataArray : list byte) : R :=
  lowMidTotal (bandTotals dataArray) / 80.

Definition highAvg (dataArray : list byte) : option R :=
  JS.div (highTotal (bandTotals dataArray)) (INR (length dataArray) - 100).

Definition bassLevel (dataArray : list byte) : R :=
  (bassAvg dataArray / 255) ^ 2 * 2.

Definition midLevel (dataArray : list byte) : R :=
  lowMidAvg dataArray / 255.

Definition highLevel (dataArray : list byte) : option R :=
  option_map (fun avg => avg / 255) (highAvg dataArray).

(** ** The drawing context *)

Inductive Color :=
| hsl (h s l : R)                (* hsl(h, s%, l%) *)
| hsla (h s l a : R)             (* hsla(h, s%, l%, a) *)
| rgba (r g b a : R)
| css (name : string).           (* a literal such as '#ffffff' *)

Inductive Style :=
| Solid (c : Color)
| LinearGradient (x0 y0 x1 y1 : R) (stops : list (R * Color))
| RadialGradient (x0 y0 r0 x1 y1 r1 : R) (stops : list (R * Color)).

(** The calls and property assignments made on [ctx]. *)
Inductive Call :=
| fillStyle (s : Style)
| strokeStyle (s : Style)
| lineWidth (w : R)
| lineCap (v : string)
| globalCompositeOperation (v : string)
| globalAlpha (a : R)
| font (v : string)
| textAlign (v : string)
| textBaseline (v : string)
| fillRect (x y w h : R)
| beginPath
| moveTo (x y : R)
| lineTo (x y : R)
| arc (x y r a0 a1 : R)
| rect (x y w h : R)
| fill
| stroke
| save
| restore
| translate (x y : R)
| rotate (a : R)
| drawImage (img : NoiseCanvas) (x y : R)
| fillText (text : string) (x y : R).

(** The hues a frame hands to the context. *)
Definition colorHue (c : Color) : list R :=
  match c with
  | hsl h _ _ => [h]
  | hsla h _ _ _ => [h]
  | rgba _ _ _ _ => []
  | css _ => []
  end.

Definition styleHues (s : Style) : list R :=
  match s with
  | Solid c => colorHue c
  | LinearGradient _ _ _ _ stops => flat_map (fun st => colorHue (snd st)) stops
  | RadialGradient _ _ _ _ _ _ stops => flat_map (fun st => colorHue (snd st)) stops
  end.

Definition callHues (c : Call) : list R :=
  match c with
  | fillStyle s => styleHues s
  | strokeStyle s => styleHues s
  | _ => []
  end.

Definition frameHues (calls : list Call) : list R := flat_map callHues calls.

(** ** Component state: the refs of [VisualizerCanvas] and the canvas size *)

Record State := {
  neuralNodesRef : list NeuralNode;
  watercolorBlobsRef : list WatercolorBlob;
  nebulaStarsRef : list NebulaStar;
  paperShardsRef : list PaperShard;
  noiseCanvasRef : option NoiseCanvas;
  modeRef : VisualizerMode;
  colorShiftRef : R;
  rotationRef : R;
  canvasWidth : Z;
  canvasHeight : Z;
  startTime : R;                 (* [startTime] of the running effect, ms *)
  drawn : nat                    (* how many [Math.random()] values were used *)
}.

(** The browser window as the initialisers see it. *)
Record Window := {
  innerWidth : Z;
  innerHeight : Z;
  context2d : bool               (* does [getContext('2d')] succeed? *)
}.

Definition set_neuralNodes (v : list NeuralNode) (n : nat) (s : State) : State :=
  {| neuralNodesRef := v; watercolorBlobsRef := watercolorBlobsRef s;
     nebulaStarsRef := nebulaStarsRef s; paperShardsRef := paperShardsRef s;
     noiseCanvasRef := noiseCanvasRef s; modeRef := modeRef s;
     colorShiftRef := colorShiftRef s; rotationRef := rotationRef s;
     canvasWidth := canvasWidth s; canvasHeight := canvasHeight s;
     startTime := startTime s; drawn := n |}.

Definition set_watercolorBlobs (v : list WatercolorBlob) (n : nat) (s : State) : State :=
  {| neuralNodesRef := neuralNodesRef s; watercolorBlobsRef := v;
     nebulaStarsRef := nebulaStarsRef s; paperShardsRef := paperShardsRef s;
     noiseCanvasRef := noiseCanvasRef s; modeRef := modeRef s;
     colorShiftRef := colorShiftRef s; rotationRef := rotationRef s;
     canvasWidth := canvasWidth s; canvasHeight := canvasHeight s;
     startTime := startTime s; drawn := n |}.

Definition set_nebulaStars (v : list NebulaStar) (n : nat) (s : State) : State :=
  {| neuralNodesRef := neuralNodesRef s; watercolorBlobsRef := watercolorBlobsRef s;
     nebulaStarsRef := v; paperShardsRef := paperShardsRef s;
     noiseCanvasRef := noiseCanvasRef s; modeRef := modeRef s;
     colorShiftRef := colorShiftRef s; rotationRef := rotationRef s;
     canvasWidth := canvasWidth s; canvasHeight := canvasHeight s;
     startTime := startTime s; drawn := n |}.

Definition set_paperShards (v : list PaperShard) (noise : option NoiseCanvas)
    (n : nat) (s : State) : State :=
  {| neuralNodesRef := neuralNodesRef s; watercolorBlobsRef := watercolorBlobsRef s;
     nebulaStarsRef := nebulaStarsRef s; paperShardsRef := v;
     noiseCanvasRef := noise; modeRef := modeRef s;
     colorShiftRef := colorShiftRef s; rotationRef := rotationRef s;
     canvasWidth := canvasWidth s; canvasHeight := canvasHeight s;
     startTime := startTime s; drawn := n |}.

Definition set_modeRef (m : VisualizerMode) (s : State) : State :=
  {| neuralNodesRef := neuralNodesRef s; watercolorBlobsRef := watercolorBlobsRef s;
     nebulaStarsRef := nebulaStarsRef s; paperShardsRef := paperShardsRef s;
     noiseCanvasRef := noiseCanvasRef s; modeRef := m;
     colorShiftRef := colorShiftRef s; rotationRef := rotationRef s;
     canvasWidth := canvasWidth s; canvasHeight := canvasHeight s;
     startTime := startTime s; drawn := drawn s |}.

Definition set_colorShiftRef (c : R) (s : State) : State :=
  {| neuralNodesRef := neuralNodesRef s; watercolorBlobsRef := watercolorBlobsRef s;
     nebulaStarsRef := nebulaStarsRef s; paperShardsRef := paperShardsRef s;
     noiseCanvasRef := noiseCanvasRef s; modeRef := modeRef s;
     colorShiftRef := c; rotationRef := rotationRef s;
     canvasWidth := canvasWidth s; canvasHeight := canvasHeight s;
     startTime := startTime s; drawn := drawn s |}.

Definition set_rotationRef (r : R) (s : State) : State :=
  {| neuralNodesRef := neuralNodesRef s; watercolorBlobsRef := watercolorBlobsRef s;
     nebulaStarsRef := nebulaStarsRef s; paperShardsRef := paperShardsRef s;
     noiseCanvasRef := noiseCanvasRef s; modeRef := modeRef s;
     colorShiftRef := colorShiftRef s; rotationRef := r;
     canvasWidth := canvasWidth s; canvasHeight := canvasHeight s;
     startTime := startTime s; drawn := drawn s |}.

Definition set_canvasSize (w h : Z) (s : State) : State :=
  {| neuralNodesRef := neuralNodesRef s; watercolorBlobsRef := watercolorBlobsRef s;
     nebulaStarsRef := nebulaStarsRef s; paperShardsRef := paperShardsRef s;
     noiseCanvasRef := noiseCanvasRef s; modeRef := modeRef s;
     colorShiftRef := colorShiftRef s; rotationRef := rotationRef s;
     canvasWidth := w; canvasHeight := h;
     startTime := startTime s; drawn := drawn s |}.

Definition set_startTime (t : R) (s : State) : State :=
  {| neuralNodesRef := neuralNodesRef s; watercolorBlobsRef := watercolorBlobsRef s;
     nebulaStarsRef := nebulaStarsRef s; paperShardsRef := paperShardsRef s;
     noiseCanvasRef := noiseCanvasRef s; modeRef := modeRef s;
     colorShiftRef := colorShiftRef s; rotationRef := rotationRef s;
     canvasWidth := canvasWidth s; canvasHeight := canvasHeight s;
     startTime := t; drawn := drawn s |}.

Definition set_drawn (n : nat) (s : State) : State :=
  {| neuralNodesRef := neuralNodesRef s; watercolorBlobsRef := watercolorBlobsRef s;
     nebulaStarsRef := nebulaStarsRef s; paperShardsRef := paperShardsRef s;
     noiseCanvasRef := noiseCanvasRef s; modeRef := modeRef s;
     colorShiftRef := colorShiftRef s; rotationRef := rotationRef s;
     canvasWidth := canvasWidth s; canvasHeight := canvasHeight s;
     startTime := startTime s; drawn := n |}.

(** The component as mounted: empty fields, a canvas of the default size of
    an HTML canvas element. *)
Definition mounted (mode : VisualizerMode) (colorShift : R) : State :=
  {| neuralNodesRef := []; watercolorBlobsRef := []; nebulaStarsRef := [];
     paperShardsRef := []; noiseCanvasRef := None; modeRef := mode;
     colorShiftRef := colorShift; rotationRef := 0;
     canvasWidth := 300; canvasHeight := 150; startTime := 0; drawn := 0 |}.

(** [a > b] as a JavaScript boolean. *)
Definition gtb (a b : R) : bool := if Rlt_dec b a then true else false.
Definition ltb (a b : R) : bool := if Rlt_dec a b then true else false.

(** [arr.length === 0] *)
Definition isEmpty {A : Type} (l : list A) : bool :=
  match l with [] => true | _ :: _ => false end.

Section Engine.

(** The successive results of [Math.random()]. *)
Variable random : nat -> R.

(** ** Initialisation helpers *)

(** The node pushed by one iteration of [initNeuralNodes], with the random
    values read in the order of the object literal. *)
Definition newNeuralNode (w h : R) (k : nat) : NeuralNode :=
  let x := random k * w in
  let y := random (k + 1) * h in
  {| node_x := x; node_y := y; originalX := x; originalY := y;
     node_vx := (random (k + 2) - 0.5) * 0.5;
     node_vy := (random (k + 3) - 0.5) * 0.5;
     node_radius := random (k + 4) * 2.0 + 1.0 |}.

Definition initNeuralNodes (win : Window) (s : State) : State :=
  let count := 50%nat in
  let w := IZR (innerWidth win) in
  let h := IZR (innerHeight win) in
  set_neuralNodes
    (map (fun i => newNeuralNode w h (drawn s + 5 * i)) (seq 0 count))
    (drawn s + 5 * count) s.

Definition newWatercolorBlob (win : Window) (k : nat) : WatercolorBlob :=
  {| blob_x := random k * IZR (innerWidth win);
     blob_y := random (k + 1) * IZR (innerHeight win);
     blob_radius := 180 + random (k + 2) * 200;
     colorH := 200 + random (k + 3) * 60;
     blob_vx := (random (k + 4) - 0.5) * 0.5;
     blob_vy := (random (k + 5) - 0.5) * 0.5;
     phase := random (k + 6) * PI * 2 |}.

Definition initWatercolorBlobs (win : Window) (s : State) : State :=
  let count := 7%nat in
  set_watercolorBlobs
    (map (fun i => newWatercolorBlob win (drawn s + 7 * i)) (seq 0 count))
    (drawn s + 7 * count) s.

Definition newNebulaStar (win : Window) (k : nat) : NebulaStar :=
  {| star_x := random k * IZR (innerWidth win);
     star_y := random (k + 1) * IZR (innerHeight win);
     star_size := random (k + 2) * 3.0 + 1.0;
     baseAlpha := random (k + 3) * 0.8 + 0.1;
     twinklePhase := random (k + 4) * PI * 2 |}.

Definition initNebulaStars (win : Window) (s : State) : State :=
  let count := 150%nat in
  set_nebulaStars
    (map (fun i => newNebulaStar win (drawn s + 5 * i)) (seq 0 count))
    (drawn s + 5 * count) s.

Definition newPaperShard (w h : R) (k : nat) : PaperShard :=
  let size := random k * 300 + 100 in
  let p1dx := (random (k + 1) - 0.5) * size in
  let p1dy := (random (k + 2) - 0.5) * size in
  let p2dx := (random (k + 3) - 0.5) * size in
  let p2dy := (random (k + 4) - 0.5) * size in
  let light := gtb (random (k + 5)) 0.5 in
  {| shard_x := random (k + 6) * w;
     shard_y := random (k + 7) * h;
     shard_vx := (random (k + 8) - 0.5) * 0.2;
     shard_vy := (random (k + 9) - 0.5) * 0.2;
     shard_size := size;
     p1 := (p1dx, p1dy);
     p2 := (p2dx, p2dy);
     isLight := light;
     opacity := if light then random (k + 10) * 0.1 else random (k + 10) * 0.05;
     isHighlight := gtb (random (k + 11)) 0.95 |}.

(** [initPaperShards]: the noise layer first (two random values per pixel,
    only when the 2D context of the noise canvas is available), then the
    shards. *)
Definition initPaperShards (win : Window) (s : State) : State :=
  let w := innerWidth win in
  let h := innerHeight win in
  let noise :=
    if context2d win
    then Some {| noise_width := w; noise_height := h; noise_seed := drawn s |}
    else noiseCanvasRef s in
  let k := if context2d win then (drawn s + 2 * Z.to_nat (w * h))%nat else drawn s in
  let count := 150%nat in
  set_paperShards
    (map (fun i => newPaperShard (IZR w) (IZR h) (k + 12 * i)) (seq 0 count))
    noise (k + 12 * count) s.

(** ** The effects of the component *)

(** The effect on [mode] (first [useEffect]): sync the ref, then create the
    fields the mode needs when they are still empty. *)
Definition onModeChange (win : Window) (mode : VisualizerMode) (s0 : State) : State :=
  let s1 := set_modeRef mode s0 in
  let s2 :=
    if VisualizerMode_eqb mode NEURAL && isEmpty (neuralNodesRef s1)
    then initNeuralNodes win s1
    else if VisualizerMode_eqb mode WATERCOLOR && isEmpty (watercolorBlobsRef s1)
    then initWatercolorBlobs win s1
    else if VisualizerMode_eqb mode NEBULA && isEmpty (nebulaStarsRef s1)
    then initNebulaStars win s1
    else if VisualizerMode_eqb mode WATER_CIRCLE && isEmpty (paperShardsRef s1)
    then initPaperShards win s1
    else s1 in
  if VisualizerMode_eqb mode NEURAL && isEmpty (paperShardsRef s2)
  then initPaperShards win s2
  else s2.

(** The effect on [colorShift]. *)
Definition onColorShiftChange (colorShift : R) (s : State) : State :=
  set_colorShiftRef colorShift s.

(** The head of the effect on [analyser] and [streamInitialized], up to the
    first call of [render]; [mode] is the prop the effect closed over and
    [now] the value of [Date.now()]. *)
Definition startEffect (win : Window) (mode : VisualizerMode) (now : R)
    (s0 : State) : State :=
  let s1 := if VisualizerMode_eqb mode NEURAL then initNeuralNodes win s0 else s0 in
  let s2 := if VisualizerMode_eqb mode WATERCOLOR then initWatercolorBlobs win s1 else s1 in
  let s3 := if VisualizerMode_eqb mode NEBULA then initNebulaStars win s2 else s2 in
  let s4 :=
    if (VisualizerMode_eqb mode WATER_CIRCLE || VisualizerMode_eqb mode NEURAL)
       && isEmpty (paperShardsRef s3)
    then initPaperShards win s3 else s3 in
  set_startTime now s4.

(** ** One frame *)

(** What the browser supplies to one call of [render]. *)
Record Tick := {
  frequencyData : list byte;     (* written by [getByteFrequencyData] *)
  timeDomainData : list byte;    (* the samples [getByteTimeDomainData] copies *)
  now : R;                       (* [Date.now()], ms *)
  clientWidth : Z;
  clientHeight : Z;
  window : Window
}.

(** The result of a call of [render].  [completed] is [false] when a
    non-finite number reaches [createRadialGradient], which throws: the frame
    stops there and no further frame is requested. *)
Record Outcome := { after : State; frame : list Call; completed : bool }.

(** The result of the loop over the blobs: the blobs, the calls made, and
    whether the loop ran to its end. *)
Record BlobsOutcome := {
  blobs_after : list WatercolorBlob; blobs_calls : list Call; blobs_done : bool
}.

(** Copy [src] over [arr], as a typed-array getter of the analyser does. *)
Definition overwrite (src arr : list byte) : list byte :=
  firstn (length arr) src ++ skipn (length src) arr.

(** *** Colour oscillation *)

Definition elapsed (s : State) (t : Tick) : R := (now t - startTime s) * 0.001.

Definition hueWobble (time : R) : R := sin (time * 0.5) * 54.

(** [dynamicHue] of the classic modes, the base hue of the frame. *)
Definition dynamicHue (globalHueShift wobble : R) : R :=
  JS.rem (globalHueShift + wobble) 360.

(** *** Moving particles *)

(** Two successive tests: below [lo] go to [hi], then above [hi] go to [lo]. *)
Definition wrap (lo hi v : R) : R :=
  let v1 := if Rlt_dec v lo then hi else v in
  if Rlt_dec hi v1 then lo else v1.

Definition moveShard (WIDTH HEIGHT : R) (shard : PaperShard) : PaperShard :=
  {| shard_x := wrap (-150) (WIDTH + 150) (shard_x shard + shard_vx shard);
     shard_y := wrap (-150) (HEIGHT + 150) (shard_y shard + shard_vy shard);
     shard_vx := shard_vx shard; shard_vy := shard_vy shard;
     p1 := p1 shard; p2 := p2 shard; shard_size := shard_size shard;
     isLight := isLight shard; opacity := opacity shard;
     isHighlight := isHighlight shard |}.

Definition moveNode (WIDTH HEIGHT bass : R) (node : NeuralNode) : NeuralNode :=
  {| node_x := wrap 0 WIDTH (node_x node + node_vx node * (1 + bass * 0.5));
     node_y := wrap 0 HEIGHT (node_y node + node_vy node * (1 + bass * 0.5));
     node_vx := node_vx node; node_vy := node_vy node;
     node_radius := node_radius node;
     originalX := originalX node; originalY := originalY node |}.

Definition moveBlob (WIDTH HEIGHT bass : R) (blob : WatercolorBlob) : WatercolorBlob :=
  let speedMult := 1 + bass * 5 in
  let x := blob_x blob + blob_vx blob * speedMult in
  let y := blob_y blob + blob_vy blob * speedMult in
  {| blob_x := x; blob_y := y;
     blob_radius := blob_radius blob; colorH := colorH blob;
     blob_vx := if ltb x (-100) || gtb x (WIDTH + 100)
                then blob_vx blob * -1 else blob_vx blob;
     blob_vy := if ltb y (-100) || gtb y (HEIGHT + 100)
                then blob_vy blob * -1 else blob_vy blob;
     phase := phase blob |}.

(** The triangle of a shard, filled with the given two-stop gradient. *)
Definition shardPath (shard : PaperShard) (from to : Color) : list Call :=
  let x := shard_x shard in
  let y := shard_y shard in
  [ beginPath;
    moveTo x y;
    lineTo (x + fst (p1 shard)) (y + snd (p1 shard));
    lineTo (x + fst (p2 shard)) (y + snd (p2 shard));
    fillStyle (LinearGradient x y (x + 50) (y + 50) [(0, from); (1, to)]);
    fill ].

(** *** NEURAL *)

Definition neuralShard (baseHue : R) (shard : PaperShard) : list Call :=
  if isLight shard
  then shardPath shard (hsla baseHue 40 15 0.15) (hsla baseHue 40 15 0)
  else shardPath shard (hsla baseHue 40 0 0.4) (hsla baseHue 40 0 0).

(** The connection from the node being drawn to a later node. *)
Definition connection (baseHue bass connectionDistance : R)
    (node other : NeuralNode) : list Call :=
  let dx := node_x node - node_x other in
  let dy := node_y node - node_y other in
  let dist := sqrt (dx * dx + dy * dy) in
  if ltb dist connectionDistance then
    let alpha := (1 - dist / connectionDistance) * (0.3 + bass * 0.8) in
    [ strokeStyle (Solid (hsla baseHue 80 75 alpha));
      lineWidth ((0.5 + bass * 1.5) * 0.5);
      beginPath;
      moveTo (node_x node) (node_y node);
      lineTo (node_x other) (node_y other);
      stroke ]
  else [].

(** [nodes.forEach]: each node is moved and drawn, then connected to the
    nodes after it, which have not moved yet in this frame. *)
Fixpoint nodesLoop (WIDTH HEIGHT baseHue bass mid : R) (nodes : list NeuralNode)
    : list NeuralNode * list Call :=
  match nodes with
  | [] => ([], [])
  | node0 :: rest =>
      let node := moveNode WIDTH HEIGHT bass node0 in
      let r := node_radius node + bass * 6 + mid * 3 in
      let connectionDistance := 120 + bass * 350 in
      let later := nodesLoop WIDTH HEIGHT baseHue bass mid rest in
      (node :: fst later,
       [ fillStyle (Solid (hsl baseHue 90 75));
         beginPath;
         arc (node_x node) (node_y node) r 0 (PI * 2);
         fill ]
       ++ flat_map (connection baseHue bass connectionDistance node) rest
       ++ snd later)
  end.

Definition renderNeural (WIDTH HEIGHT globalHueShift wobble bass mid : R)
    (s : State) : Outcome :=
  let baseHue := JS.rem (220 + globalHueShift + wobble) 360 in
  let shards := map (moveShard WIDTH HEIGHT) (paperShardsRef s) in
  let shake := bass * 2 in
  let nodes := nodesLoop WIDTH HEIGHT baseHue bass mid (neuralNodesRef s) in
  {| after :=
       set_neuralNodes (fst nodes) (drawn s + 2)
         (set_paperShards shards (noiseCanvasRef s) (drawn s) s);
     frame :=
       [ fillStyle (Solid (hsl baseHue 30 4)); fillRect 0 0 WIDTH HEIGHT ]
       ++ flat_map (neuralShard baseHue) shards
       ++ [ save;
            translate ((random (drawn s) - 0.5) * shake)
                      ((random (drawn s + 1) - 0.5) * shake) ]
       ++ snd nodes
       ++ [ restore ];
     completed := true |}.

(** *** WATERCOLOR *)

(** The band a blob reacts to, by index modulo 3. *)
Definition react (i : nat) (bass mid : R) (high : option R) : option R :=
  if (i mod 3 =? 0)%nat then Some bass
  else if (i mod 3 =? 1)%nat then Some mid
  else high.

Definition blobCalls (globalHueShift wobble re : R) (blob : WatercolorBlob)
    : list Call :=
  let currentRadius := blob_radius blob * (0.5 + re * 2.5) in
  let h := JS.rem (colorH blob + globalHueShift + wobble) 360 in
  let sat := 60 + re * 40 in
  let alpha := 0.3 + re * 0.5 in
  [ fillStyle
      (RadialGradient (blob_x blob) (blob_y blob) 0
                      (blob_x blob) (blob_y blob) currentRadius
         [ (0, hsla h sat 60 alpha);
           (0.6, hsla h sat 70 (alpha * 0.5));
           (1, hsla h sat 90 0) ]);
    beginPath;
    arc (blob_x blob) (blob_y blob) currentRadius 0 (PI * 2);
    fill ].

(** [blobs.forEach], entered at index [i].  A blob whose band level is not
    finite is moved, then [createRadialGradient] throws. *)
Fixpoint blobsLoop (WIDTH HEIGHT globalHueShift wobble bass mid : R)
    (high : option R) (i : nat) (blobs : list WatercolorBlob) : BlobsOutcome :=
  match blobs with
  | [] => {| blobs_after := []; blobs_calls := []; blobs_done := true |}
  | blob0 :: rest =>
      let blob := moveBlob WIDTH HEIGHT bass blob0 in
      match react i bass mid high with
      | None =>
          {| blobs_after := blob :: rest; blobs_calls := []; blobs_done := false |}
      | Some re =>
          let later :=
            blobsLoop WIDTH HEIGHT globalHueShift wobble bass mid high (S i) rest in
          {| blobs_after := blob :: blobs_after later;
             blobs_calls := blobCalls globalHueShift wobble re blob ++ blobs_calls later;
             blobs_done := blobs_done later |}
      end
  end.

Definition renderWatercolor (WIDTH HEIGHT globalHueShift wobble bass mid : R)
    (high : option R) (s : State) : Outcome :=
  let blobs :=
    blobsLoop WIDTH HEIGHT globalHueShift wobble bass mid high 0
              (watercolorBlobsRef s) in
  {| after := set_watercolorBlobs (blobs_after blobs) (drawn s) s;
     frame :=
       [ fillStyle (Solid (css "#ffffff"));
         fillStyle (Solid (rgba 255 255 255 (0.1 + (1 - bass) * 0.2)));
         fillRect 0 0 WIDTH HEIGHT;
         globalCompositeOperation "multiply" ]
       ++ blobs_calls blobs
       ++ (if blobs_done blobs then [ globalCompositeOperation "source-over" ] else []);
     completed := blobs_done blobs |}.

(** *** WATER_CIRCLE *)

Definition paperShard (shard : PaperShard) : list Call :=
  if isLight shard
  then shardPath shard (rgba 255 255 255 (opacity shard)) (rgba 255 255 255 0)
  else shardPath shard (rgba 0 0 0 (opacity shard)) (rgba 0 0 0 0).

(** The glow of the highlight shards, [shards.forEach((shard, i) => ...)]
    entered at index [i]. *)
Fixpoint glowLoop (bass mid : R) (i : nat) (shards : list PaperShard) : list Call :=
  match shards with
  | [] => []
  | shard :: rest =>
      (if isHighlight shard then
         let trigger := if (i mod 2 =? 0)%nat then bass else mid in
         let activeOpacity := trigger * 0.6 in
         if gtb activeOpacity 0.1 then
           let radius := (shard_size shard * 0.5) * (1 + trigger) in
           [ fillStyle
               (RadialGradient (shard_x shard) (shard_y shard) 0
                               (shard_x shard) (shard_y shard) radius
                  [ (0, rgba 255 255 255 activeOpacity);
                    (0.5, rgba 220 230 255 (activeOpacity * 0.5));
                    (1, rgba 255 255 255 0) ]);
             beginPath;
             arc (shard_x shard) (shard_y shard) radius 0 (PI * 2);
             fill ]
         else []
       else [])
      ++ glowLoop bass mid (S i) rest
  end.

Definition bars : nat := 120.

Definition radiusBase (WIDTH HEIGHT : R) : R := Rmin WIDTH HEIGHT / 4.5.

Definition poolSize (WIDTH HEIGHT bass : R) : R :=
  (radiusBase WIDTH HEIGHT * 0.5) * (0.8 + bass * 0.6).

Definition centerGap : R := 10.

Definition safeInnerRadius (WIDTH HEIGHT bass : R) : R :=
  poolSize WIDTH HEIGHT bass + centerGap.

Definition startRadius (WIDTH HEIGHT bass : R) : R :=
  let startRadiusBase := radiusBase WIDTH HEIGHT * 0.9 in
  let beatPulse := bass * (radiusBase WIDTH HEIGHT * 0.2) in
  startRadiusBase + beatPulse.

(** The bin of angular slot [i]: [Math.floor(i * step)] with
    [step = Math.floor(bufferLength * 0.82) / bars]. *)
Definition inkIndex (bufferLength i : nat) : nat :=
  let usefulFreqRange := IZR (JS.floor (INR bufferLength * 0.82)) in
  let step := usefulFreqRange / INR bars in
  Z.to_nat (JS.floor (INR i * step)).

(** [length] of slot [i]; [None] when the bin is past the end of the array
    (every comparison with it is then false and nothing is drawn). *)
Definition inkLength (dataArray : list byte) (HEIGHT bass : R) (i : nat) : option R :=
  option_map
    (fun v =>
       let rawVal := v / 255 in
       let smoothedVal := Rmax 0 (rawVal * rawVal) in
       let maxExtend := HEIGHT * (1 / 5) in
       smoothedVal * maxExtend * (1 + bass))
    (JS.get dataArray (inkIndex (length dataArray) i)).

Definition maxInwardLen (WIDTH HEIGHT bass : R) : R :=
  Rmax 0 (startRadius WIDTH HEIGHT bass - safeInnerRadius WIDTH HEIGHT bass).

Definition inwardLen (WIDTH HEIGHT bass len : R) : R :=
  Rmin len (maxInwardLen WIDTH HEIGHT bass).

Definition inkBarGradient (barHue y0 y1 : R) : Style :=
  LinearGradient 0 y0 0 y1 [ (0, hsla barHue 80 40 0.6); (1, hsla barHue 80 90 0) ].

(** One angular slot of the ink layer. *)
Definition inkBar (dataArray : list byte)
    (WIDTH HEIGHT globalHueShift wobble bass : R) (i : nat) : list Call :=
  let circum := 2 * PI * radiusBase WIDTH HEIGHT in
  let slotWidth := circum / INR bars in
  let barWidth := slotWidth * 0.5 in
  let start := startRadius WIDTH HEIGHT bass in
  let angle := (INR i / INR bars) * PI * 2 in
  let barHue := JS.rem (180 + (INR i / INR bars) * 60 + globalHueShift + wobble) 360 in
  [ save; rotate angle ]
  ++ match inkLength dataArray HEIGHT bass i with
     | None => []
     | Some len =>
         (if gtb len 0 then
            [ fillStyle (inkBarGradient barHue start (start + len));
              beginPath;
              rect (- barWidth / 2) start barWidth len;
              fill ]
          else [])
         ++
         (let inward := inwardLen WIDTH HEIGHT bass len in
          if gtb inward 0 then
            [ fillStyle (inkBarGradient barHue start (start - inward));
              beginPath;
              rect (- barWidth / 2) start barWidth (- inward);
              fill ]
          else [])
     end
  ++ [ restore ].

(** The central pool. *)
Definition inkPool (WIDTH HEIGHT globalHueShift wobble bass : R) : list Call :=
  let poolHue := JS.rem (200 + globalHueShift + wobble - bass * 30) 360 in
  let pool := poolSize WIDTH HEIGHT bass in
  [ fillStyle
      (RadialGradient 0 0 0 0 0 pool
         [ (0, hsla poolHue 70 50 (0.5 + bass * 0.3));
           (1, hsla poolHue 70 90 0) ]);
    beginPath;
    arc 0 0 pool 0 (PI * 2);
    fill ].

Definition noiseOverlay (noise : option NoiseCanvas) : list Call :=
  match noise with
  | Some img => [ globalAlpha 0.5; drawImage img 0 0; globalAlpha 1.0 ]
  | None => []
  end.

Definition renderWaterCircle (dataArray : list byte)
    (WIDTH HEIGHT globalHueShift wobble bass mid : R) (s : State) : Outcome :=
  let shards := map (moveShard WIDTH HEIGHT) (paperShardsRef s) in
  let glowOpacity := Rmin 1 (bass * 0.8) in
  {| after := set_paperShards shards (noiseCanvasRef s) (drawn s) s;
     frame :=
       [ fillStyle (Solid (css "#e8ecf0")); fillRect 0 0 WIDTH HEIGHT ]
       ++ flat_map paperShard shards
       ++ noiseOverlay (noiseCanvasRef s)
       ++ [ globalCompositeOperation "overlay" ]
       ++ (if gtb glowOpacity 0.05 then glowLoop bass mid 0 shards else [])
       ++ [ globalCompositeOperation "multiply";
            save;
            translate (WIDTH / 2) (HEIGHT / 2);
            rotate (rotationRef s) ]
       ++ inkPool WIDTH HEIGHT globalHueShift wobble bass
       ++ flat_map (inkBar dataArray WIDTH HEIGHT globalHueShift wobble bass)
                   (seq 0 bars)
       ++ [ restore; globalCompositeOperation "source-over" ];
     completed := true |}.

(** *** NEBULA *)

Definition drawCloud (x y r h s l a : R) : list Call :=
  [ fillStyle (RadialGradient x y 0 x y r [ (0, hsla h s l a); (1, css "transparent") ]);
    beginPath;
    arc x y r 0 (PI * 2);
    fill ].

Definition starCalls (nowMs high : R) (star : NebulaStar) : list Call :=
  let twinkle := sin (nowMs * 0.01 + twinklePhase star) in
  let sizeMult := 1 + high * 3 in
  let alpha := Rmin 1 (baseAlpha star + twinkle * 0.2 + high * 1.5) in
  let renderSize := star_size star * sizeMult * 3 in
  [ fillStyle
      (RadialGradient (star_x star) (star_y star) 0
                      (star_x star) (star_y star) renderSize
         [ (0, rgba 255 255 255 alpha);
           (0.3, rgba 255 255 255 (alpha * 0.3));
           (1, rgba 255 255 255 0) ]);
    beginPath;
    arc (star_x star) (star_y star) renderSize 0 (PI * 2);
    fill ].

(** The stars do not move; the state is not touched.  With a non-finite high
    level the third cloud makes [createRadialGradient] throw. *)
Definition renderNebula (WIDTH HEIGHT globalHueShift wobble bass mid : R)
    (high : option R) (nowMs : R) (s : State) : Outcome :=
  let centerX := WIDTH / 2 in
  let centerY := HEIGHT / 2 in
  let t := nowMs * 0.001 in
  let centerSize := HEIGHT * (0.4 + bass * 0.8) in
  let centerLight := 50 + bass * 40 in
  let hPurple := JS.rem (270 + globalHueShift + wobble) 360 in
  let hPink := JS.rem (320 + globalHueShift + wobble) 360 in
  let orb1X := centerX + sin t * (WIDTH * 0.3) in
  let orb1Y := centerY + cos (t * 0.7) * (HEIGHT * 0.3) in
  let hBlue := JS.rem (230 + globalHueShift + wobble) 360 in
  let orb2X := centerX + cos (t * 1.3) * (WIDTH * 0.35) in
  let orb2Y := centerY + sin (t * 1.1) * (HEIGHT * 0.25) in
  let head :=
    [ fillStyle (Solid (css "#020205"));
      fillRect 0 0 WIDTH HEIGHT;
      globalCompositeOperation "screen" ]
    ++ drawCloud centerX centerY centerSize hPurple 80 centerLight (0.3 + bass * 0.5)
    ++ drawCloud orb1X orb1Y (HEIGHT * (0.3 + mid * 0.5)) hPink 70 60 (0.2 + mid * 0.4) in
  match high with
  | None => {| after := s; frame := head; completed := false |}
  | Some hi =>
      {| after := s;
         frame :=
           head
           ++ drawCloud orb2X orb2Y (HEIGHT * (0.3 + hi * 0.5)) hBlue 90 60
                        (0.2 + hi * 0.4)
           ++ [ globalCompositeOperation "source-over" ]
           ++ flat_map (starCalls nowMs hi) (nebulaStarsRef s)
           ++ [ globalAlpha 1.0 ];
         completed := true |}
  end.

(** *** The classic modes: CIRCULAR, BARS, WAVE *)

Definition bassScale (bass : R) : R := 1 + bass * 0.8.

Definition maxBarHeight (WIDTH HEIGHT : R) : R := Rmin WIDTH HEIGHT / 2.

(** The bin of radial bar [i]: [i * step], [step = Math.floor(bufferLength / bars)]. *)
Definition circularIndex (bufferLength i : nat) : nat :=
  let step := (bufferLength / bars)%nat in
  (i * step)%nat.

(** [barHeight] of radial bar [i]; [None] when the bin is past the end. *)
Definition circularBarHeight (dataArray : list byte) (WIDTH HEIGHT : R) (i : nat)
    : option R :=
  option_map
    (fun v => let val := v / 255 in val * val * maxBarHeight WIDTH HEIGHT * 1.5)
    (JS.get dataArray (circularIndex (length dataArray) i)).

(** One radial bar.  With an undefined bin the end point is not finite and
    [lineTo] ignores the call. *)
Definition circularBar (dataArray : list byte) (WIDTH HEIGHT hue bass : R) (i : nat)
    : list Call :=
  let centerX := WIDTH / 2 in
  let centerY := HEIGHT / 2 in
  let radius := Rmin WIDTH HEIGHT / 4 in
  let angle := (INR i / INR bars) * PI * 2 in
  let xStart := centerX + cos angle * (radius * bassScale bass) in
  let yStart := centerY + sin angle * (radius * bassScale bass) in
  let barHue := JS.rem (hue + (INR i / INR bars) * 60) 360 in
  [ beginPath; moveTo xStart yStart ]
  ++ match circularBarHeight dataArray WIDTH HEIGHT i with
     | Some barHeight =>
         [ lineTo (centerX + cos angle * (radius * bassScale bass + barHeight))
                  (centerY + sin angle * (radius * bassScale bass + barHeight)) ]
     | None => []
     end
  ++ [ strokeStyle (Solid (hsl barHue 80 60)); lineWidth 3; lineCap "round"; stroke ].

Definition renderCircular (dataArray : list byte) (WIDTH HEIGHT hue bass : R)
    : list Call :=
  let centerX := WIDTH / 2 in
  let centerY := HEIGHT / 2 in
  let radius := Rmin WIDTH HEIGHT / 4 in
  [ beginPath;
    arc centerX centerY (radius * bassScale bass * 0.8) 0 (2 * PI);
    fillStyle
      (RadialGradient centerX centerY (radius * 0.1)
                      centerX centerY (radius * bassScale bass)
         [ (0, css "#ffffff"); (0.5, hsl hue 100 50); (1, css "rgba(0,0,0,0)") ]);
    fill ]
  ++ flat_map (circularBar dataArray WIDTH HEIGHT hue bass) (seq 0 bars).

(** The loop of BARS, entered at bin [i] with the pen at [x]; it stops once
    the pen is past the right edge. *)
Fixpoint barsLoop (WIDTH HEIGHT hue barWidth : R) (bufferLength i : nat) (x : R)
    (data : list byte) : list Call :=
  match data with
  | [] => []
  | b :: rest =>
      let val := JS.byteVal b / 255 in
      let barHeight := (val * val) * (HEIGHT * 0.4) in
      let barHue := JS.rem (hue + (INR i / INR bufferLength) * 60) 360 in
      let centerY := HEIGHT / 2 in
      let x' := x + (barWidth + 1) in
      [ fillStyle (Solid (hsl barHue 80 50));
        fillRect x (centerY - barHeight) barWidth barHeight;
        fillRect x centerY barWidth barHeight ]
      ++ (if gtb x' WIDTH then []
          else barsLoop WIDTH HEIGHT hue barWidth bufferLength (S i) x' rest)
  end.

Definition renderBars (dataArray : list byte) (WIDTH HEIGHT hue : R) : list Call :=
  let bufferLength := length dataArray in
  let barWidth := (WIDTH / INR bufferLength) * 1.25 in
  barsLoop WIDTH HEIGHT hue barWidth bufferLength 0 0 dataArray.

(** The vertical position of a time-domain sample. *)
Definition waveY (HEIGHT : R) (sample : byte) : R :=
  let v := JS.byteVal sample / 128.0 in
  v * HEIGHT / 2.

(** The loop of WAVE, entered at sample [i] with the pen at [x]. *)
Fixpoint waveLoop (HEIGHT sliceWidth : R) (i : nat) (x : R) (data : list byte)
    : list Call :=
  match data with
  | [] => []
  | sample :: rest =>
      (if (i =? 0)%nat then moveTo x (waveY HEIGHT sample)
       else lineTo x (waveY HEIGHT sample))
      :: waveLoop HEIGHT sliceWidth (S i) (x + sliceWidth) rest
  end.

(** [dataArray] is first overwritten with the time-domain samples. *)
Definition renderWave (dataArray timeDomain : list byte) (WIDTH HEIGHT hue : R)
    : list Call :=
  let bufferLength := length dataArray in
  let samples := overwrite timeDomain dataArray in
  let sliceWidth := WIDTH * 1.0 / INR bufferLength in
  [ lineWidth 1.5; strokeStyle (Solid (hsl hue 100 50)); beginPath ]
  ++ waveLoop HEIGHT sliceWidth 0 0 samples
  ++ [ lineTo WIDTH (HEIGHT / 2); stroke ].

Definition renderClassic (mode : VisualizerMode) (dataArray timeDomain : list byte)
    (WIDTH HEIGHT globalHueShift wobble bass : R) : list Call :=
  let hue := dynamicHue globalHueShift wobble in
  [ fillStyle (Solid (if VisualizerMode_eqb mode WAVE
                      then css "rgba(0, 0, 0, 0.03)" else css "rgba(0, 0, 0, 0.2)"));
    fillRect 0 0 WIDTH HEIGHT ]
  ++ (if VisualizerMode_eqb mode CIRCULAR
      then renderCircular dataArray WIDTH HEIGHT hue bass
      else if VisualizerMode_eqb mode BARS
      then renderBars dataArray WIDTH HEIGHT hue
      else if VisualizerMode_eqb mode WAVE
      then renderWave dataArray timeDomain WIDTH HEIGHT hue
      else []).

(** *** Watermark *)

Definition watermark (mode : VisualizerMode) (WIDTH HEIGHT : R) : list Call :=
  let isLightMode :=
    VisualizerMode_eqb mode WATERCOLOR || VisualizerMode_eqb mode WATER_CIRCLE in
  [ save;
    font "bold 14px sans-serif";
    textAlign "right";
    textBaseline "bottom";
    fillStyle (Solid (if isLightMode then rgba 0 0 0 0.4 else rgba 255 255 255 0.4));
    fillText "Idea by Geeksing" (WIDTH - 20) (HEIGHT - 20);
    restore ].

(** *** [render] *)

(** The resize check at the head of [render]. *)
Definition handleResize (s : State) (t : Tick) : State :=
  if negb (canvasWidth s =? clientWidth t)%Z || negb (canvasHeight s =? clientHeight t)%Z
  then
    let s1 := set_canvasSize (clientWidth t) (clientHeight t) s in
    if VisualizerMode_eqb (modeRef s1) WATER_CIRCLE
       || VisualizerMode_eqb (modeRef s1) NEURAL
    then initPaperShards (window t) s1
    else s1
  else s.

Definition render (s0 : State) (t : Tick) : Outcome :=
  let dataArray := frequencyData t in
  let s1 := handleResize s0 t in
  let WIDTH := IZR (canvasWidth s1) in
  let HEIGHT := IZR (canvasHeight s1) in
  let globalHueShift := colorShiftRef s1 in
  let wobble := hueWobble (elapsed s1 t) in
  let bass := bassLevel dataArray in
  let mid := midLevel dataArray in
  let high := highLevel dataArray in
  let s2 := set_rotationRef (rotationRef s1 + (0.002 + bass * 0.005)) s1 in
  let currentMode := modeRef s2 in
  let result :=
    match currentMode with
    | NEURAL =>
        renderNeural WIDTH HEIGHT globalHueShift wobble bass mid s2
    | WATERCOLOR =>
        renderWatercolor WIDTH HEIGHT globalHueShift wobble bass mid high s2
    | WATER_CIRCLE =>
        renderWaterCircle dataArray WIDTH HEIGHT globalHueShift wobble bass mid s2
    | NEBULA =>
        renderNebula WIDTH HEIGHT globalHueShift wobble bass mid high (now t) s2
    | CIRCULAR | BARS | WAVE =>
        {| after := s2;
           frame := renderClassic currentMode dataArray (timeDomainData t)
                                  WIDTH HEIGHT globalHueShift wobble bass;
           completed := true |}
    end in
  {| after := after result;
     frame := frame result
              ++ (if completed result then watermark currentMode WIDTH HEIGHT else []);
     completed := completed result |}.

(** The animation loop over the ticks the browser delivers: a frame that did
    not complete requests no successor. *)
Fixpoint run (s : State) (ticks : list Tick) : State :=
  match ticks with
  | [] => s
  | t :: rest =>
      let o := render s t in
      if completed o then run (after o) rest else after o
  end.

(** The frames drawn by the loop. *)
Fixpoint frames (s : State) (ticks : list Tick) : list (list Call) :=
  match ticks with
  | [] => []
  | t :: rest =>
      let o := render s t in
      frame o :: (if completed o then frames (after o) rest else [])
  end.

End Engine.

(** * Definitions used by the statements *)

(** The weight with which bin [i] enters [bassTotal]. *)
Definition bassWeight (i : nat) : R :=
  if (i <? 5)%nat then 1 else if (i <? 20)%nat then 0.8 else 0.

(** The weight with which bin [i] enters [lowMidTotal]. *)
Definition midWeight (i : nat) : R :=
  if (i <? 20)%nat then 0 else if (i <? 100)%nat then 1 else 0.

(** The weight with which bin [i] enters [highTotal]. *)
Definition highWeight (i : nat) : R :=
  if (i <? 100)%nat then 0 else 1.

(** A weighted sum of the bins from index [i] on. *)
Fixpoint weighted (weight : nat -> R) (i : nat) (data : list byte) : R :=
  match data with
  | [] => 0
  | b :: rest => weight i * JS.byteVal b + weighted weight (S i) rest
  end.

(** The component mounted in CIRCULAR mode with hue shift 0, its loop started
    at time 0. *)
Definition circularAtZero (random : nat -> R) (win : Window) : State :=
  startEffect random win CIRCULAR 0
    (onModeChange random win CIRCULAR (mounted CIRCULAR 0)).

(** Nine seconds later, a silent spectrum of 1024 bins, the canvas box at the
    default canvas size. *)
Definition tickAt9s (win : Window) : Tick :=
  {| frequencyData := repeat Byte.x00 1024;
     timeDomainData := repeat Byte.x80 2048;
     now := 9000;
     clientWidth := 300; clientHeight := 150;
     window := win |}.

(** The polyline in closed form: vertex [i] is at [x = i * sliceWidth] and at
    the height [waveY] of sample [i]; the first vertex opens the path. *)
Definition wavePolyline (HEIGHT sliceWidth : R) (first : nat) (samples : list byte)
    : list Call :=
  map (fun p : nat * byte =>
         if (fst p =? 0)%nat
         then moveTo (INR (fst p) * sliceWidth) (JS.byteVal (snd p) / 128 * HEIGHT / 2)
         else lineTo (INR (fst p) * sliceWidth) (JS.byteVal (snd p) / 128 * HEIGHT / 2))
      (combine (seq first (length samples)) samples).

(** The calls that draw a bar of the ink layer. *)
Definition isRect (c : Call) : Prop :=
  match c with rect _ _ _ _ => True | _ => False end.

(** The wrap range of a shard: the surface and 150px around it. *)
Definition shardInMargin (WIDTH HEIGHT : R) (shard : PaperShard) : Prop :=
  -150 <= shard_x shard <= WIDTH + 150 /\ -150 <= shard_y shard <= HEIGHT + 150.

(** The wrap range of a network node: the surface. *)
Definition nodeInBounds (WIDTH HEIGHT : R) (node : NeuralNode) : Prop :=
  0 <= node_x node <= WIDTH /\ 0 <= node_y node <= HEIGHT.

(** The bounds at which a blob bounces: the surface and 100px around it. *)
Definition blobInMargin (WIDTH HEIGHT : R) (blob : WatercolorBlob) : Prop :=
  -100 <= blob_x blob <= WIDTH + 100 /\ -100 <= blob_y blob <= HEIGHT + 100.

(** A random source that keeps answering 0.9. *)
Definition always09 (k : nat) : R := 0.9.

(** A window of 1000 by 1000. *)
Definition window1000 : Window :=
  {| innerWidth := 1000; innerHeight := 1000; context2d := true |}.

(** Full scale on all 1024 bins, on a surface as large as the window. *)
Definition loudTick : Tick :=
  {| frequencyData := repeat Byte.xff 1024;
     timeDomainData := repeat Byte.x80 2048;
     now := 0;
     clientWidth := 1000; clientHeight := 1000;
     window := window1000 |}.

(** The component mounted in WATERCOLOR mode and its loop started. *)
Definition watercolorStart : State :=
  startEffect always09 window1000 WATERCOLOR 0
    (onModeChange always09 window1000 WATERCOLOR (mounted WATERCOLOR 0)).

(** Full scale on a surface of 900 by 900. *)
Definition loudTick900 : Tick :=
  {| frequencyData := repeat Byte.xff 1024;
     timeDomainData := repeat Byte.x80 2048;
     now := 0;
     clientWidth := 900; clientHeight := 900;
     window := window1000 |}.

(** Silence on all 1024 bins, same surface. *)
Definition silentTick : Tick :=
  {| frequencyData := repeat Byte.x00 1024;
     timeDomainData := repeat Byte.x80 2048;
     now := 0;
     clientWidth := 1000; clientHeight := 1000;
     window := window1000 |}.

(** [n] times a silent tick followed by a loud one. *)
Fixpoint silentThenLoud (n : nat) : list Tick :=
  match n with
  | O => []
  | S k => silentTick :: loudTick :: silentThenLoud k
  end.

(** A random source that answers 0.25 to the first 49 calls and 0.75 from
    then on. *)
Definition lowThenHigh (k : nat) : R := if (k <? 49)%nat then 0.25 else 0.75.

(** The calls [calls] are made one after the other somewhere in [frame]. *)
Definition drawnInARow (calls frame : list Call) : Prop :=
  exists before after, frame = before ++ calls ++ after.

(** ** The life of the component as events *)

(** What happens to a mounted component: the [mode] prop changes (first
    effect), the [colorShift] prop changes, the loop effect runs (on a new
    analyser or stream; it closes over the current mode, which the first
    effect has already written to [modeRef]), the browser delivers a frame. *)
Inductive Event :=
| ModeChanged (win : Window) (mode : VisualizerMode)
| ColorChanged (colorShift : R)
| LoopStarted (win : Window) (now : R)
| FrameRequested (t : Tick).

Definition applyEvent (random : nat -> R) (s : State) (e : Event) : State :=
  match e with
  | ModeChanged win mode => onModeChange random win mode s
  | ColorChanged colorShift => onColorShiftChange colorShift s
  | LoopStarted win now => startEffect random win (modeRef s) now s
  | FrameRequested t => after (render random s t)
  end.

(** The states of a component mounted with the given props: the first effect
    has run, then any events. *)
Definition reachable (random : nat -> R) (s : State) : Prop :=
  exists (win : Window) (mode : VisualizerMode) (colorShift : R) (events : list Event),
    s = fold_left (applyEvent random) events
          (onModeChange random win mode (mounted mode colorShift)).

(** ** Ranges of the particle parameters *)

Definition nodeSane (node : NeuralNode) : Prop :=
  Rabs (node_vx node) <= 0.25 /\ Rabs (node_vy node) <= 0.25
  /\ 1 <= node_radius node < 3.

Definition blobSane (blob : WatercolorBlob) : Prop :=
  Rabs (blob_vx blob) <= 0.25 /\ Rabs (blob_vy blob) <= 0.25
  /\ 180 <= blob_radius blob < 380 /\ 200 <= colorH blob < 260.

Definition starSane (star : NebulaStar) : Prop :=
  1 <= star_size star < 4 /\ 0.1 <= baseAlpha star < 0.9.

Definition shardSane (shard : PaperShard) : Prop :=
  Rabs (shard_vx shard) <= 0.1 /\ Rabs (shard_vy shard) <= 0.1
  /\ 100 <= shard_size shard < 400
  /\ Rabs (fst (p1 shard)) <= shard_size shard / 2
  /\ Rabs (snd (p1 shard)) <= shard_size shard / 2
  /\ Rabs (fst (p2 shard)) <= shard_size shard / 2
  /\ Rabs (snd (p2 shard)) <= shard_size shard / 2
  /\ 0 <= opacity shard < (if isLight shard then 0.1 else 0.05).

(** A field is absent or has the size and the parameter ranges its
    initialiser gives it. *)
Definition fieldsSane (s : State) : Prop :=
  (neuralNodesRef s = [] \/ length (neuralNodesRef s) = 50%nat)
  /\ Forall nodeSane (neuralNodesRef s)
  /\ (watercolorBlobsRef s = [] \/ length (watercolorBlobsRef s) = 7%nat)
  /\ Forall blobSane (watercolorBlobsRef s)
  /\ (nebulaStarsRef s = [] \/ length (nebulaStarsRef s) = 150%nat)
  /\ Forall starSane (nebulaStarsRef s)
  /\ (paperShardsRef s = [] \/ length (paperShardsRef s) = 150%nat)
  /\ Forall shardSane (paperShardsRef s).

(** The fields the active mode draws are there. *)
Definition modeReady (s : State) : Prop :=
  match modeRef s with
  | NEURAL => length (neuralNodesRef s) = 50%nat /\ length (paperShardsRef s) = 150%nat
  | WATERCOLOR => length (watercolorBlobsRef s) = 7%nat
  | NEBULA => length (nebulaStarsRef s) = 150%nat
  | WATER_CIRCLE => length (paperShardsRef s) = 150%nat
  | CIRCULAR | BARS | WAVE => True
  end.

(** ** The state of the 2D context *)

(** The part of the drawing state that [save] and [restore] keep and that the
    component writes: the blend mode, the global alpha, and whether the
    transform has been changed. *)
Record CtxState := {
  composite : string; alpha : R; transformed : bool
}.

(** The state of a fresh context. *)
Definition defaultCtx : CtxState :=
  {| composite := "source-over"; alpha := 1; transformed := false |}.

(** The effect of one call on the current state and the stack of saved
    states; [restore] on an empty stack does nothing. *)
Definition ctxStep (p : CtxState * list CtxState) (c : Call)
    : CtxState * list CtxState :=
  match c with
  | save => (fst p, fst p :: snd p)
  | restore =>
      match snd p with
      | [] => p
      | top :: rest => (top, rest)
      end
  | globalCompositeOperation v =>
      ({| composite := v; alpha := alpha (fst p); transformed := transformed (fst p) |},
       snd p)
  | globalAlpha a =>
      ({| composite := composite (fst p); alpha := a;
          transformed := transformed (fst p) |},
       snd p)
  | translate _ _ | rotate _ =>
      ({| composite := composite (fst p); alpha := alpha (fst p);
          transformed := true |},
       snd p)
  | _ => p
  end.

Definition ctxAfter (calls : list Call) (p : CtxState * list CtxState)
    : CtxState * list CtxState :=
  fold_left ctxStep calls p.

(** The calls that leave that state alone. *)
Definition keepsCtx (c : Call) : Prop :=
  match c with
  | save | restore | globalCompositeOperation _ | globalAlpha _
  | translate _ _ | rotate _ => False
  | _ => True
  end.

(** A hue the context needs no wrapping for. *)
Definition hueInRange (h : R) : Prop := 0 <= h < 360.

(** ** Shapes of the calls of a frame *)

(** Every hue a call hands over is normalised. *)
Definition callHuesInRange (c : Call) : Prop := Forall hueInRange (callHues c).

(** A stroke style is the style of a connection line; its alpha lies in
    [(0, bound]]. *)
Definition strokeAlphaWithin (bound : R) (c : Call) : Prop :=
  match c with
  | strokeStyle (Solid (hsla _ _ _ a)) => 0 < a <= bound
  | strokeStyle _ => False
  | _ => True
  end.

(** A translation is no larger than [bound] along each axis. *)
Definition translateWithin (bound : R) (c : Call) : Prop :=
  match c with
  | translate x y => Rabs x <= bound /\ Rabs y <= bound
  | _ => True
  end.


(** A vertex of a path lies on the canvas. *)
Definition vertexWithin (WIDTH HEIGHT : R) (c : Call) : Prop :=
  match c with
  | moveTo x y | lineTo x y => 0 <= x <= WIDTH /\ 0 <= y <= HEIGHT
  | _ => True
  end.

(** The radii a style hands to [createRadialGradient]. *)
Definition styleRadii (s : Style) : list R :=
  match s with
  | RadialGradient _ _ r0 _ _ r1 _ => [r0; r1]
  | _ => []
  end.

(** The radii a call hands to the context: that of an arc, those of a radial
    gradient.  The context throws on a negative one. *)
Definition callRadii (c : Call) : list R :=
  match c with
  | arc _ _ r _ _ => [r]
  | fillStyle s | strokeStyle s => styleRadii s
  | _ => []
  end.

Definition radiiNonneg (c : Call) : Prop := Forall (fun r => 0 <= r) (callRadii c).

(** * The audio service and the application shell *)

(** [audioService.ts] and [App.tsx].  A [MediaStream] is the list of its
    tracks; [track.stop()] marks a track.  The code never reads the state of
    a track, so the stream a service holds is kept by value.  The
    [AudioContext] with its asynchronous [close()], Picture-in-Picture and the
    texts shown to the user are outside the model: a message is named by the
    branch that produces it.  [startCapture] is taken as one step, resolved
    by the answer of [getDisplayMedia]. *)

Module AudioService.

Inductive TrackKind := audioTrack | videoTrack.

Record Track := {
  kind : TrackKind;
  stopped : bool                 (* has [stop()] been called? *)
}.

Definition MediaStream := list Track.

Definition hasKind (k : TrackKind) (track : Track) : bool :=
  match k, kind track with
  | audioTrack, audioTrack | videoTrack, videoTrack => true
  | _, _ => false
  end.

Definition getAudioTracks (stream : MediaStream) : list Track :=
  filter (hasKind audioTrack) stream.

Definition getVideoTracks (stream : MediaStream) : list Track :=
  filter (hasKind videoTrack) stream.

Definition stop (track : Track) : Track :=
  {| kind := kind track; stopped := true |}.

(** [stream.getTracks().forEach(track => track.stop())]. *)
Definition stopTracks (stream : MediaStream) : MediaStream := map stop stream.

Record AnalyserNode := {
  fftSize : nat;
  smoothingTimeConstant : R
}.

(** Web Audio: [frequencyBinCount] is half the FFT size. *)
Definition frequencyBinCount (node : AnalyserNode) : nat := (fftSize node / 2)%nat.

(** The source node, by the analyser it is connected to. *)
Inductive SourceNode := connectedTo (node : AnalyserNode).

Record JsError := {
  name : string;
  message : string
}.

Inductive Result (A : Type) :=
| returned (a : A)
| thrown (e : JsError).

Arguments returned {A} a.
Arguments thrown {A} e.

(** The fields of the service (the [AudioContext] apart). *)
Record Service := {
  analyser : option AnalyserNode;
  source : option SourceNode;
  stream : option MediaStream
}.

Definition idle : Service :=
  {| analyser := None; source := None; stream := None |}.

(** A call of the service: the service after it, the stream it gave up (with
    the tracks as the call left them) and what it returned or threw. *)
Record Call (A : Type) := {
  service_after : Service;
  given_up : option MediaStream;
  outcome : A
}.

Arguments service_after {A} c.
Arguments given_up {A} c.
Arguments outcome {A} c.

(** [startSystemCapture], on the answer of [getDisplayMedia]. *)
Definition startSystemCapture (answer : Result MediaStream) (svc : Service)
    : Call (Result MediaStream) :=
  match answer with
  | thrown e => {| service_after := svc; given_up := None; outcome := thrown e |}
  | returned media =>
      if (length (getAudioTracks media) =? 0)%nat
      then {| service_after := svc;
              given_up := Some (stopTracks media);
              outcome := thrown {| name := "Error"; message := "NO_AUDIO_TRACK" |} |}
      else {| service_after :=
                {| analyser := analyser svc; source := source svc;
                   stream := Some media |};
              given_up := None;
              outcome := returned media |}
  end.

Definition setupAudioContext (media : MediaStream) (svc : Service)
    : Call AnalyserNode :=
  let node := {| fftSize := 2048; smoothingTimeConstant := 0.8 |} in
  {| service_after :=
       {| analyser := Some node; source := Some (connectedTo node);
          stream := stream svc |};
     given_up := None;
     outcome := node |}.

Definition cleanup (svc : Service) : Call unit :=
  {| service_after := idle;
     given_up := option_map stopTracks (stream svc);
     outcome := tt |}.

End AudioService.

Module App.

Import AudioService.

(** The four messages of [startCapture]: no audio was shared, screen capture
    is not allowed here, the user declined, anything else (with the text of
    the error). *)
Inductive ErrorMessage :=
| shareAudioHint
| captureNotAllowed
| sharingCancelled
| cannotStart (text : string).

(** [s.includes(part)]. *)
Definition includes (s part : string) : bool :=
  match String.index 0 part s with
  | Some _ => true
  | None => false
  end.

(** The branches of the [catch] block, in their order. *)
Definition describe (err : JsError) : ErrorMessage :=
  if String.eqb (message err) "NO_AUDIO_TRACK" then shareAudioHint
  else if includes (message err) "permissions policy" then captureNotAllowed
  else if String.eqb (name err) "NotAllowedError" then sharingCancelled
  else cannotStart (message err).

(** The state of the component and of the service it drives. *)
Record State := {
  analyser : option AnalyserNode;
  isCapturing : bool;
  error : option ErrorMessage;
  mode : VisualizerMode;
  colorShift : R;
  service : Service
}.

Definition initial : State :=
  {| analyser := None; isCapturing := false; error := None;
     mode := WATER_CIRCLE; colorShift := 0; service := idle |}.

(** A step of the component: the state after it and the stream given up. *)
Record Step := {
  state_after : State;
  released : option MediaStream
}.

(** What assigning [onended] of the first video track throws when there is
    none; only its name and text reach [describe]. *)
Definition noVideoTrack : JsError :=
  {| name := "TypeError";
     message := "Cannot set properties of undefined (setting 'onended')" |}.

Definition startCapture (answer : Result MediaStream) (app : State) : Step :=
  let capture := startSystemCapture answer (service app) in
  match outcome capture with
  | returned media =>
      let setup := setupAudioContext media (service_after capture) in
      {| state_after :=
           {| analyser := Some (outcome setup);
              isCapturing := true;
              error := match getVideoTracks media with
                       | [] => Some (describe noVideoTrack)
                       | _ :: _ => None
                       end;
              mode := mode app; colorShift := colorShift app;
              service := service_after setup |};
         released := given_up capture |}
  | thrown err =>
      {| state_after :=
           {| analyser := analyser app;
              isCapturing := isCapturing app;
              error := Some (describe err);
              mode := mode app; colorShift := colorShift app;
              service := service_after capture |};
         released := given_up capture |}
  end.

Definition stopCapture (app : State) : Step :=
  let call := cleanup (service app) in
  {| state_after :=
       {| analyser := None; isCapturing := false; error := error app;
          mode := mode app; colorShift := colorShift app;
          service := service_after call |};
     released := given_up call |}.

Definition setMode (m : VisualizerMode) (app : State) : State :=
  {| analyser := analyser app; isCapturing := isCapturing app; error := error app;
     mode := m; colorShift := colorShift app; service := service app |}.

Definition setColorShift (v : R) (app : State) : State :=
  {| analyser := analyser app; isCapturing := isCapturing app; error := error app;
     mode := mode app; colorShift := v; service := service app |}.

(** The DOM watermark. *)
Definition isLightMode (app : State) : bool :=
  existsb (VisualizerMode_eqb (mode app)) [NEURAL; WATERCOLOR; WATER_CIRCLE].

Definition watermarkColorClass (app : State) : string :=
  if isCapturing app && isLightMode app then "text-black/40" else "text-white/40".

(** Is the canvas rendered?  [{analyser && <VisualizerCanvas ... />}] on the
    visualizer screen. *)
Definition showsCanvas (app : State) : bool :=
  isCapturing app && match analyser app with Some _ => true | None => false end.

(** What the user and the browser do: the start button (on the landing
    screen), the stop button or the end of the shared video track, a mode
    button, the hue slider (a range input from 0 to 360). *)
Inductive Event :=
| StartPressed (answer : Result MediaStream)
| Stopped
| ModePressed (m : VisualizerMode)
| SliderMoved (value : Z).

Definition apply (app : State) (e : Event) : State :=
  match e with
  | StartPressed answer => state_after (startCapture answer app)
  | Stopped => state_after (stopCapture app)
  | ModePressed m => setMode m app
  | SliderMoved value => setColorShift (IZR value) app
  end.

(** When an event can happen: the start button exists on the landing screen
    only, a stream answered to [video: true] has a video track, and the
    slider stays between its ends. *)
Definition enabled (app : State) (e : Event) : Prop :=
  match e with
  | StartPressed answer =>
      isCapturing app = false
      /\ match answer with
         | returned media => getVideoTracks media <> []
         | thrown _ => True
         end
  | Stopped => True
  | ModePressed _ => True
  | SliderMoved value => (0 <= value <= 360)%Z
  end.

Inductive reachable : State -> Prop :=
| reach_initial : reachable initial
| reach_step app e : reachable app -> enabled app e -> reachable (apply app e).

End App.

Module ControlPanel.

(** The mode buttons in the order of the bar, each with its active colour. *)
Definition modeButtons : list (VisualizerMode * string) :=
  [ (WATER_CIRCLE, "bg-teal-600"); (NEURAL, "bg-blue-600");
    (CIRCULAR, "bg-indigo-600"); (BARS, "bg-pink-600"); (WAVE, "bg-cyan-600");
    (WATERCOLOR, "bg-purple-500"); (NEBULA, "bg-fuchsia-600") ]%string.

Definition isActive (currentMode mode : VisualizerMode) : bool :=
  VisualizerMode_eqb currentMode mode.

Definition getButtonClass (currentMode mode : VisualizerMode)
    (activeColorClass : string) : string :=
  ("px-2 py-1 rounded text-xs font-bold transition-all whitespace-nowrap "
   ++ (if isActive currentMode mode
       then activeColorClass ++ " text-white shadow-sm scale-105"
       else "text-gray-400 hover:text-white hover:bg-white/10"))%string.

(** The classes of the buttons as rendered for [currentMode]. *)
Definition buttonClasses (currentMode : VisualizerMode) : list string :=
  map (fun b => getButtonClass currentMode (fst b) (snd b)) modeButtons.

(** Does a class string mark the active button? *)
Definition marksActive (class : string) : bool :=
  App.includes class "scale-105".

End ControlPanel.

(** What holds of the shell at every moment. *)
Definition shellInvariant (app : App.State) : Prop :=
  (App.isCapturing app = true ->
     App.error app = None
     /\ exists node media,
          App.analyser app = Some node
          /\ AudioService.frequencyBinCount node = 1024%nat
          /\ AudioService.analyser (App.service app) = Some node
          /\ AudioService.source (App.service app)
             = Some (AudioService.connectedTo node)
          /\ AudioService.stream (App.service app) = Some media
          /\ AudioService.getAudioTracks media <> [])
  /\ (App.isCapturing app = false ->
        App.analyser app = None /\ App.service app = AudioService.idle)
  /\ 0 <= App.colorShift app <= 360.

(** ** Concrete inputs of the further properties *)

(** The component mounted in NEURAL mode, two resting nodes at the same
    place. *)
Definition twoNodes : State :=
  let node :=
    {| node_x := 10; node_y := 10; node_vx := 0; node_vy := 0;
       node_radius := 1; originalX := 10; originalY := 10 |} in
  set_neuralNodes [node; node] 0 (mounted NEURAL 0).

(** A shared screen: one audio and one video track. *)
Definition sharedScreen : AudioService.MediaStream :=
  [ {| AudioService.kind := AudioService.audioTrack; AudioService.stopped := false |};
    {| AudioService.kind := AudioService.videoTrack; AudioService.stopped := false |} ].

(** The shell after the start button, the screen shared with its audio. *)
Definition capturing : App.State :=
  App.apply App.initial (App.StartPressed (AudioService.returned sharedScreen)).

(** * Properties *)

(** Decide the comparisons inside [Rmin] and [Rmax]. *)
Ltac min_max := unfold Rmin, Rmax; repeat destruct (Rle_dec _ _); try lra.

(** ** Numbers *)

Lemma byteVal_range (b : byte) : 0 <= JS.byteVal b <= 255.
Proof.
  unfold JS.byteVal.
  pose proof (Byte.to_N_bounded b) as Hb.
  split.
  - apply IZR_le. lia.
  - apply IZR_le. lia.
Qed.

Lemma Int_part_small (x : R) : 0 <= x < 1 -> Int_part x = 0%Z.
Proof.
  intros Hx. symmetry. apply Int_part_spec. simpl. lra.
Qed.

Lemma trunc_small (x : R) : -1 < x < 1 -> JS.trunc x = 0%Z.
Proof.
  intros Hx. unfold JS.trunc.
  destruct (Rle_dec 0 x) as [Hpos | Hneg].
  - apply Int_part_small. lra.
  - rewrite Int_part_small by lra. reflexivity.
Qed.

(** A dividend smaller than the divisor in absolute value is returned as it
    is, sign included. *)
Lemma rem_small (a b : R) : 0 < b -> - b < a < b -> JS.rem a b = a.
Proof.
  intros Hb Ha. unfold JS.rem.
  rewrite trunc_small.
  - simpl. lra.
  - split.
    + apply Rmult_lt_reg_r with b; [assumption|].
      unfold Rdiv. rewrite Rmult_assoc, Rinv_l by lra. lra.
    + apply Rmult_lt_reg_r with b; [assumption|].
      unfold Rdiv. rewrite Rmult_assoc, Rinv_l by lra. lra.
Qed.

(** On a non-negative dividend [%] is the mathematical modulo. *)
Lemma rem_nonneg (a b : R) : 0 <= a -> 0 < b -> 0 <= JS.rem a b < b.
Proof.
  intros Ha Hb. unfold JS.rem, JS.trunc.
  assert (Hq : 0 <= a / b).
  { unfold Rdiv. apply Rmult_le_pos; [assumption|].
    left. apply Rinv_0_lt_compat. assumption. }
  destruct (Rle_dec 0 (a / b)) as [_ | Hn]; [|contradiction].
  destruct (base_Int_part (a / b)) as [Hlo Hhi].
  assert (Hab : a = b * (a / b)) by (field; lra).
  split.
  - assert (b * IZR (Int_part (a / b)) <= b * (a / b)).
    { apply Rmult_le_compat_l; lra. }
    lra.
  - assert (b * (a / b - 1) < b * IZR (Int_part (a / b))).
    { apply Rmult_lt_compat_l; lra. }
    lra.
Qed.

(** ** The band loop *)

Lemma bandStep_totals (i : nat) (v : R) (t : Totals) :
  bassTotal (bandStep i v t) = bassTotal t + bassWeight i * v /\
  lowMidTotal (bandStep i v t) = lowMidTotal t + midWeight i * v /\
  highTotal (bandStep i v t) = highTotal t + highWeight i * v.
Proof.
  unfold bandStep, bassWeight, midWeight, highWeight.
  destruct (Nat.ltb_spec i 5); destruct (Nat.ltb_spec i 20);
    destruct (Nat.ltb_spec i 100); simpl; repeat split; try lra; lia.
Qed.

Lemma bandLoop_totals (data : list byte) : forall (i : nat) (t : Totals),
  bassTotal (bandLoop i data t) = bassTotal t + weighted bassWeight i data /\
  lowMidTotal (bandLoop i data t) = lowMidTotal t + weighted midWeight i data /\
  highTotal (bandLoop i data t) = highTotal t + weighted highWeight i data.
Proof.
  induction data as [| b rest IH]; intros i t; simpl.
  - repeat split; lra.
  - destruct (IH (S i) (bandStep i (JS.byteVal b) t)) as (Hb & Hm & Hh).
    destruct (bandStep_totals i (JS.byteVal b) t) as (Sb & Sm & Sh).
    rewrite Hb, Hm, Hh, Sb, Sm, Sh. repeat split; lra.
Qed.

Lemma bandTotals_weighted (data : list byte) :
  bassTotal (bandTotals data) = weighted bassWeight 0 data /\
  lowMidTotal (bandTotals data) = weighted midWeight 0 data /\
  highTotal (bandTotals data) = weighted highWeight 0 data.
Proof.
  unfold bandTotals.
  destruct (bandLoop_totals data 0
              {| bassTotal := 0; lowMidTotal := 0; highTotal := 0 |})
    as (Hb & Hm & Hh).
  rewrite Hb, Hm, Hh. simpl. repeat split; lra.
Qed.

Lemma weighted_nonneg (weight : nat -> R) :
  (forall i, 0 <= weight i) ->
  forall data i, 0 <= weighted weight i data.
Proof.
  intros Hw data. induction data as [| b rest IH]; intros i; simpl.
  - lra.
  - pose proof (byteVal_range b). pose proof (Hw i). pose proof (IH (S i)). nra.
Qed.

Lemma bassWeight_nonneg (i : nat) : 0 <= bassWeight i.
Proof.
  unfold bassWeight.
  destruct (i <? 5)%nat; [lra|]. destruct (i <? 20)%nat; lra.
Qed.

Lemma midWeight_nonneg (i : nat) : 0 <= midWeight i.
Proof.
  unfold midWeight.
  destruct (i <? 20)%nat; [lra|]. destruct (i <? 100)%nat; lra.
Qed.

Lemma highWeight_nonneg (i : nat) : 0 <= highWeight i.
Proof. unfold highWeight. destruct (i <? 100)%nat; lra. Qed.

(** A weighted sum sees only the bins whose weight is not zero. *)
Lemma weighted_zero_from (weight : nat -> R) (n : nat) :
  (forall i, (n <= i)%nat -> weight i = 0) ->
  forall data i, (n <= i)%nat -> weighted weight i data = 0.
Proof.
  intros Hw data. induction data as [| b rest IH]; intros i Hi; simpl.
  - reflexivity.
  - rewrite Hw by assumption. rewrite IH by lia. lra.
Qed.

Lemma weighted_zero_upto (weight : nat -> R) (n : nat) :
  (forall i, (i < n)%nat -> weight i = 0) ->
  forall data i, (i + length data <= n)%nat -> weighted weight i data = 0.
Proof.
  intros Hw data. induction data as [| b rest IH]; intros i Hi; simpl in *.
  - reflexivity.
  - rewrite Hw by lia. rewrite IH by lia. lra.
Qed.

Lemma weighted_app (weight : nat -> R) (pre post : list byte) : forall i,
  weighted weight i (pre ++ post)
  = weighted weight i pre + weighted weight (i + length pre) post.
Proof.
  induction pre as [| b rest IH]; intros i; simpl.
  - rewrite Nat.add_0_r. lra.
  - rewrite IH. replace (S i + length rest)%nat with (i + S (length rest))%nat by lia.
    lra.
Qed.

Lemma weighted_repeat (weight : nat -> R) (b : byte) (n : nat) : forall i,
  (forall j, (i <= j < i + n)%nat -> weight j = weight i) ->
  weighted weight i (repeat b n) = INR n * (weight i * JS.byteVal b).
Proof.
  induction n as [| n IH]; intros i Hw.
  - simpl. lra.
  - change (repeat b (S n)) with (b :: repeat b n).
    rewrite S_INR. simpl weighted.
    destruct n as [| n'].
    + simpl. lra.
    + rewrite IH.
      * rewrite (Hw (S i)) by lia. lra.
      * intros j Hj. rewrite (Hw j) by lia. rewrite (Hw (S i)) by lia. reflexivity.
Qed.

Lemma bassLevel_nonneg (data : list byte) : 0 <= bassLevel data.
Proof.
  unfold bassLevel. simpl.
  assert (0 <= bassAvg data / 255 * (bassAvg data / 255)) by nra.
  lra.
Qed.

Lemma midLevel_nonneg (data : list byte) : 0 <= midLevel data.
Proof.
  unfold midLevel, lowMidAvg.
  destruct (bandTotals_weighted data) as (_ & Hm & _). rewrite Hm.
  pose proof (weighted_nonneg midWeight midWeight_nonneg data 0). lra.
Qed.

Lemma highAvg_defined (data : list byte) :
  length data <> 100%nat ->
  highAvg data
  = Some (weighted highWeight 0 data / (INR (length data) - 100)).
Proof.
  intros Hlen. unfold highAvg, JS.div.
  destruct (bandTotals_weighted data) as (_ & _ & Hh). rewrite Hh.
  destruct (Req_dec_T (INR (length data) - 100) 0) as [Hz | Hnz]; [|reflexivity].
  exfalso. apply Hlen. apply INR_eq.
  rewrite (INR_IZR_INZ 100). simpl. lra.
Qed.

Lemma highAvg_undefined (data : list byte) :
  length data = 100%nat -> highAvg data = None.
Proof.
  intros Hlen. unfold highAvg, JS.div. rewrite Hlen.
  rewrite (INR_IZR_INZ 100). simpl Z.of_nat.
  destruct (Req_dec_T (100 - 100) 0) as [_ | Hnz]; [reflexivity|].
  exfalso. apply Hnz. lra.
Qed.

(** Raising bins never lowers a sum with non-negative weights. *)
Lemma weighted_mono (weight : nat -> R) :
  (forall i, 0 <= weight i) ->
  forall (a b : list byte) (i : nat),
    length a = length b ->
    (forall j x y, nth_error a j = Some x -> nth_error b j = Some y ->
                   JS.byteVal y <= JS.byteVal x) ->
    weighted weight i b <= weighted weight i a.
Proof.
  intros Hw a. induction a as [| x a' IH]; intros b i Hlen Hle.
  - destruct b; [simpl; lra | discriminate].
  - destruct b as [| y b']; [discriminate|]. simpl.
    assert (Hxy : JS.byteVal y <= JS.byteVal x) by (apply (Hle 0%nat); reflexivity).
    assert (Hrest : weighted weight (S i) b' <= weighted weight (S i) a').
    { apply IH.
      - simpl in Hlen. lia.
      - intros j x0 y0 Hx0 Hy0. apply (Hle (S j)); assumption. }
    pose proof (Hw i). nra.
Qed.

(** ** C2: band averages of short arrays *)

(** C2, as stated, fails: with exactly 100 bins the high band is empty and its
    average is [0 / (100 - 100)], which is not a number. *)
Lemma C2_high_band_of_100_bins_is_NaN :
  highAvg (repeat Byte.x00 100) = None /\ highLevel (repeat Byte.x00 100) = None.
Proof.
  assert (H : highAvg (repeat Byte.x00 100) = None).
  { apply highAvg_undefined. apply repeat_length. }
  split; [exact H|]. unfold highLevel. rewrite H. reflexivity.
Qed.

(** C2 (amended): for every array whose length is not exactly 100 the three
    levels are defined and non-negative; with fewer than 100 bins the empty
    high band averages to zero, and with at most 20 bins the empty mid band
    averages to zero. *)
Theorem C2_levels_defined_off_100 (data : list byte) :
  length data <> 100%nat ->
  exists high : R,
    highLevel data = Some high /\ 0 <= high /\
    0 <= bassLevel data /\ 0 <= midLevel data /\
    ((length data < 100)%nat -> highAvg data = Some 0 /\ high = 0) /\
    ((length data <= 20)%nat -> lowMidAvg data = 0 /\ midLevel data = 0).
Proof.
  intros Hlen.
  pose proof (highAvg_defined data Hlen) as Havg.
  pose proof (weighted_nonneg highWeight highWeight_nonneg data 0) as Hpos.
  exists (weighted highWeight 0 data / (INR (length data) - 100) / 255).
  split; [unfold highLevel; rewrite Havg; reflexivity|].
  assert (Hshort : (length data < 100)%nat -> weighted highWeight 0 data = 0).
  { intros Hlt. apply weighted_zero_upto with (n := 100%nat).
    - intros i Hi. unfold highWeight.
      destruct (Nat.ltb_spec i 100); [reflexivity | lia].
    - simpl. lia. }
  split.
  { destruct (Nat.lt_ge_cases (length data) 100) as [Hlt | Hge].
    - rewrite (Hshort Hlt). unfold Rdiv. rewrite !Rmult_0_l. lra.
    - assert (Hgt : 100 < INR (length data)).
      { change 100 with (IZR (Z.of_nat 100)).
        rewrite <- (INR_IZR_INZ 100). apply lt_INR. lia. }
      apply Rmult_le_pos; [|lra].
      apply Rmult_le_pos; [assumption|].
      left. apply Rinv_0_lt_compat. lra. }
  split; [apply bassLevel_nonneg|].
  split; [apply midLevel_nonneg|].
  split.
  - intros Hlt. rewrite Havg, (Hshort Hlt).
    unfold Rdiv. rewrite !Rmult_0_l. split; reflexivity.
  - intros Hle.
    assert (Hmid : lowMidAvg data = 0).
    { unfold lowMidAvg.
      destruct (bandTotals_weighted data) as (_ & Hm & _). rewrite Hm.
      rewrite weighted_zero_upto with (n := 20%nat).
      - lra.
      - intros i Hi. unfold midWeight.
        destruct (Nat.ltb_spec i 20); [reflexivity | lia].
      - simpl. lia. }
    split; [exact Hmid|]. unfold midLevel. rewrite Hmid. lra.
Qed.

(** ** C3: monotonicity of the bass level *)

(** C3: if two arrays agree everywhere except at one index [k] of the bass
    band, where the first has the larger byte, the first has the larger (or
    equal) [bassLevel]. *)
Theorem C3_bassLevel_monotone (a b : list byte) (k : nat) :
  length a = length b ->
  (k < 20)%nat ->
  (forall j, j <> k -> nth_error a j = nth_error b j) ->
  (forall x y, nth_error a k = Some x -> nth_error b k = Some y ->
               (Byte.to_N y <= Byte.to_N x)%N) ->
  bassLevel b <= bassLevel a.
Proof.
  intros Hlen _ Hsame Hk.
  assert (Hsum : weighted bassWeight 0 b <= weighted bassWeight 0 a).
  { apply weighted_mono; [apply bassWeight_nonneg | assumption |].
    intros j x y Hx Hy.
    destruct (Nat.eq_dec j k) as [-> | Hne].
    - unfold JS.byteVal. apply IZR_le. specialize (Hk x y Hx Hy). lia.
    - rewrite (Hsame j Hne) in Hx. rewrite Hx in Hy. injection Hy as ->. lra. }
  pose proof (weighted_nonneg bassWeight bassWeight_nonneg b 0) as Hb0.
  unfold bassLevel, bassAvg.
  destruct (bandTotals_weighted a) as (Ha & _ & _).
  destruct (bandTotals_weighted b) as (Hb & _ & _).
  rewrite Ha, Hb. simpl.
  set (sa := weighted bassWeight 0 a) in *.
  set (sb := weighted bassWeight 0 b) in *.
  assert (0 <= sb / 20 / 255 <= sa / 20 / 255) by lra.
  nra.
Qed.

(** ** What a frame leaves untouched *)

Section Frames.

Variable random : nat -> R.

Lemma handleResize_refs (s : State) (t : Tick) :
  let s' := handleResize random s t in
  modeRef s' = modeRef s /\ colorShiftRef s' = colorShiftRef s /\
  rotationRef s' = rotationRef s /\ startTime s' = startTime s /\
  neuralNodesRef s' = neuralNodesRef s /\
  watercolorBlobsRef s' = watercolorBlobsRef s /\
  nebulaStarsRef s' = nebulaStarsRef s.
Proof.
  unfold handleResize.
  destruct (negb (canvasWidth s =? clientWidth t)%Z
            || negb (canvasHeight s =? clientHeight t)%Z); simpl.
  - destruct (VisualizerMode_eqb (modeRef s) WATER_CIRCLE
              || VisualizerMode_eqb (modeRef s) NEURAL); simpl; repeat split.
  - repeat split.
Qed.

(** After the resize check the canvas has the size of its box. *)
Lemma handleResize_size (s : State) (t : Tick) :
  canvasWidth (handleResize random s t) = clientWidth t /\
  canvasHeight (handleResize random s t) = clientHeight t.
Proof.
  unfold handleResize.
  destruct (Z.eqb_spec (canvasWidth s) (clientWidth t)) as [Hw | Hw];
    destruct (Z.eqb_spec (canvasHeight s) (clientHeight t)) as [Hh | Hh]; simpl;
    try (destruct (VisualizerMode_eqb (modeRef s) WATER_CIRCLE
                   || VisualizerMode_eqb (modeRef s) NEURAL); simpl);
    split; auto.
Qed.

Lemma elapsed_handleResize (s : State) (t : Tick) :
  elapsed (handleResize random s t) t = elapsed s t.
Proof.
  unfold elapsed.
  destruct (handleResize_refs s t) as (_ & _ & _ & Hst & _). rewrite Hst. reflexivity.
Qed.

(** The refs a frame never writes, and the rotation it always advances. *)
Lemma render_refs (s : State) (t : Tick) :
  let s' := after (render random s t) in
  modeRef s' = modeRef s /\ colorShiftRef s' = colorShiftRef s /\
  startTime s' = startTime s /\
  rotationRef s' = rotationRef s + (0.002 + bassLevel (frequencyData t) * 0.005) /\
  nebulaStarsRef s' = nebulaStarsRef s.
Proof.
  destruct (handleResize_refs s t) as (Hm & Hc & Hr & Hst & _ & _ & Hstars).
  unfold render. simpl modeRef.
  destruct (modeRef (handleResize random s t)) eqn:Hmode;
    unfold renderNeural, renderWatercolor, renderWaterCircle, renderNebula;
    try destruct (highLevel (frequencyData t));
    simpl; rewrite ?Hm, ?Hc, ?Hr, ?Hst, ?Hstars; repeat split; congruence.
Qed.

(** The frame of a classic mode: background, the mode's drawing, watermark,
    at the size of the canvas box. *)
Lemma render_classic_frame (s : State) (t : Tick) (mode : VisualizerMode) :
  modeRef s = mode ->
  mode = CIRCULAR \/ mode = BARS \/ mode = WAVE ->
  frame (render random s t)
  = renderClassic mode (frequencyData t) (timeDomainData t)
      (IZR (clientWidth t)) (IZR (clientHeight t))
      (colorShiftRef s) (hueWobble (elapsed s t)) (bassLevel (frequencyData t))
    ++ watermark mode (IZR (clientWidth t)) (IZR (clientHeight t)).
Proof.
  intros Hmode Hclassic.
  destruct (handleResize_refs s t) as (Hm & Hc & _).
  destruct (handleResize_size s t) as (Hw & Hh).
  pose proof (elapsed_handleResize s t) as He.
  unfold render. simpl modeRef. rewrite Hm, Hmode, Hc, Hw, Hh, He.
  destruct Hclassic as [-> | [-> | ->]]; reflexivity.
Qed.

(** ** C10: the rotation accumulator *)


(** ** C1: the hue handed to the context *)

Lemma sin_4_5_negative : -1 <= sin 4.5 < 0.
Proof.
  split; [apply SIN_bound|].
  pose proof PI_4. pose proof PI2_3_2.
  apply sin_lt_0; lra.
Qed.

(** C1 fails on the code: with hue shift 0, nine seconds after the start the
    wobble is [54 * sin 4.5], which is negative, and [%] keeps the sign of its
    dividend: the frame of CIRCULAR mode hands a negative hue to the
    context. *)
Theorem C1_negative_hue_reaches_the_context (win : Window) :
  dynamicHue 0 (hueWobble 9) = 54 * sin 4.5 /\
  dynamicHue 0 (hueWobble 9) < 0 /\
  In (dynamicHue 0 (hueWobble 9))
     (frameHues (frame (render random (circularAtZero random win) (tickAt9s win)))).
Proof.
  pose proof sin_4_5_negative as Hsin.
  assert (Hw : hueWobble 9 = 54 * sin 4.5).
  { unfold hueWobble. replace (9 * 0.5) with 4.5 by lra. lra. }
  assert (Hd : dynamicHue 0 (hueWobble 9) = 54 * sin 4.5).
  { unfold dynamicHue. rewrite Hw. rewrite rem_small; lra. }
  split; [exact Hd|]. split; [rewrite Hd; lra|].
  rewrite (render_classic_frame _ _ CIRCULAR) by (simpl; auto).
  replace (elapsed (circularAtZero random win) (tickAt9s win)) with 9
    by (unfold elapsed; simpl; lra).
  change (colorShiftRef (circularAtZero random win)) with 0.
  unfold frameHues. apply in_flat_map.
  eexists. split.
  - apply in_or_app. left. unfold renderClassic. apply in_or_app. right.
    simpl VisualizerMode_eqb. cbv iota. unfold renderCircular.
    apply in_or_app. left. simpl. right. right. left. reflexivity.
  - simpl. left. reflexivity.
Qed.

(** Where the sum of shift and wobble is not negative the hue is normalised. *)
Lemma dynamicHue_range (globalHueShift time : R) :
  54 <= globalHueShift ->
  0 <= dynamicHue globalHueShift (hueWobble time) < 360.
Proof.
  intros Hshift. unfold dynamicHue, hueWobble.
  pose proof (SIN_bound (time * 0.5)).
  apply rem_nonneg; lra.
Qed.

(** ** C4: CIRCULAR mode at full scale *)

(** At full scale the weighted bass total is [5 * 255 + 15 * 255 * 0.8], and
    the level is 1.445: the divisor 20 ignores the weight 0.8 of the kick
    bins. *)
Lemma bassLevel_full_scale : bassLevel (repeat Byte.xff 1024) = 1.445.
Proof.
  unfold bassLevel, bassAvg.
  destruct (bandTotals_weighted (repeat Byte.xff 1024)) as (Hb & _ & _).
  rewrite Hb.
  change 1024%nat with (20 + 1004)%nat. rewrite repeat_app, weighted_app.
  assert (Htail : weighted bassWeight (0 + length (repeat Byte.xff 20))
                           (repeat Byte.xff 1004) = 0).
  { apply weighted_zero_from with (n := 20%nat).
    - intros i Hi. unfold bassWeight.
      destruct (Nat.ltb_spec i 5); [lia|]. destruct (Nat.ltb_spec i 20); [lia|].
      reflexivity.
    - rewrite repeat_length. simpl. lia. }
  rewrite Htail.
  assert (Hv : JS.byteVal Byte.xff = 255) by reflexivity.
  assert (Hhead : weighted bassWeight 0 (repeat Byte.xff 20) = 4335).
  { unfold bassWeight. simpl. rewrite Hv. lra. }
  rewrite Hhead. lra.
Qed.

Lemma circularBarHeight_full_scale (WIDTH HEIGHT : R) (i : nat) :
  (i < bars)%nat ->
  circularBarHeight (repeat Byte.xff 1024) WIDTH HEIGHT i
  = Some (maxBarHeight WIDTH HEIGHT * 1.5).
Proof.
  intros Hi. unfold circularBarHeight, circularIndex, JS.get, bars in *.
  rewrite repeat_length.
  change (1024 / 120)%nat with 8%nat.
  rewrite nth_error_repeat by lia.
  simpl option_map. f_equal.
  unfold JS.byteVal. simpl Z.of_N. field.
Qed.

(** C4, as stated, fails: at full scale the scale of the central disc is not
    [1 + 0.8]. *)
Lemma C4_disc_scale_is_not_1_8 :
  bassScale (bassLevel (repeat Byte.xff 1024)) <> 1 + 0.8.
Proof.
  rewrite bassLevel_full_scale. unfold bassScale. lra.
Qed.

(** C4 (amended): with 1024 bins all at 255, every one of the 120 radial bars
    of CIRCULAR mode has length [maxBarHeight * 1.5]; [bassLevel] is 1.445 (it
    does not reach 2) and the scale of the disc is [1 + 1.445 * 0.8 = 2.156],
    which is the scale of the disc the frame draws. *)
Theorem C4_full_scale_circular (s : State) (t : Tick) (i : nat) :
  modeRef s = CIRCULAR ->
  frequencyData t = repeat Byte.xff 1024 ->
  (i < bars)%nat ->
  let WIDTH := IZR (clientWidth t) in
  let HEIGHT := IZR (clientHeight t) in
  circularBarHeight (frequencyData t) WIDTH HEIGHT i
  = Some (maxBarHeight WIDTH HEIGHT * 1.5)
  /\ bassLevel (frequencyData t) = 1.445
  /\ bassScale (bassLevel (frequencyData t)) = 2.156
  /\ In (arc (WIDTH / 2) (HEIGHT / 2)
            (Rmin WIDTH HEIGHT / 4 * bassScale (bassLevel (frequencyData t)) * 0.8)
            0 (2 * PI))
        (frame (render random s t)).
Proof.
  intros Hmode Hdata Hi WIDTH HEIGHT.
  split; [rewrite Hdata; apply circularBarHeight_full_scale; assumption|].
  split; [rewrite Hdata; apply bassLevel_full_scale|].
  split; [rewrite Hdata, bassLevel_full_scale; unfold bassScale; lra|].
  rewrite (render_classic_frame s t CIRCULAR) by auto.
  apply in_or_app. left. unfold renderClassic. apply in_or_app. right.
  simpl VisualizerMode_eqb. cbv iota. unfold renderCircular.
  apply in_or_app. left. simpl. right. left. reflexivity.
Qed.

(** ** C8: WAVE mode *)

Lemma waveLoop_polyline (HEIGHT sliceWidth : R) (samples : list byte) :
  forall (i : nat) (x : R),
    x = INR i * sliceWidth ->
    waveLoop HEIGHT sliceWidth i x samples = wavePolyline HEIGHT sliceWidth i samples.
Proof.
  induction samples as [| sample rest IH]; intros i x Hx.
  - reflexivity.
  - unfold wavePolyline. simpl. f_equal.
    + unfold waveY. subst x.
      replace (JS.byteVal sample / 128.0 * HEIGHT / 2)
        with (JS.byteVal sample / 128 * HEIGHT / 2) by lra.
      reflexivity.
    + apply IH. rewrite S_INR. lra.
Qed.

Lemma frameHues_waveLoop (HEIGHT sliceWidth : R) (samples : list byte) :
  forall (i : nat) (x : R), frameHues (waveLoop HEIGHT sliceWidth i x samples) = [].
Proof.
  induction samples as [| sample rest IH]; intros i x.
  - reflexivity.
  - unfold frameHues in *. simpl. rewrite IH.
    destruct (i =? 0)%nat; reflexivity.
Qed.

(** With at least as many samples as bins, the array drawn by WAVE holds the
    first [bufferLength] time-domain samples and nothing of the spectrum. *)
Lemma overwrite_covers (src arr : list byte) :
  (length arr <= length src)%nat ->
  overwrite src arr = firstn (length arr) src.
Proof.
  intros Hlen. unfold overwrite.
  rewrite (skipn_all2 arr) by assumption. apply app_nil_r.
Qed.

(** C8, as stated, fails: the sample 128 (the zero crossing) is drawn at half
    the height of the canvas, not at zero. *)
Lemma C8_zero_crossing_is_drawn_at_mid_height :
  waveY 150 Byte.x80 = 75 /\
  waveY 150 Byte.x80 <> (JS.byteVal Byte.x80 / 128 - 1) * 150 / 2.
Proof.
  assert (Hv : JS.byteVal Byte.x80 = 128) by reflexivity.
  unfold waveY. rewrite Hv. split; lra.
Qed.

(** C8 (amended): in WAVE mode the frame is the background, one path and the
    watermark.  The path is a single polyline through the time-domain samples
    (the first [bufferLength] of them), sample [i] at [x = i * WIDTH /
    bufferLength] and at canvas height [y = (sample / 128) * HEIGHT / 2], that
    is [(sample / 128 - 1) * HEIGHT / 2] measured from the centre line
    [HEIGHT / 2]; it is closed by a segment to the right end of the centre line and stroked in
    the one primary hue, the only hue of the frame. *)
Theorem C8_wave_frame (s : State) (t : Tick) :
  modeRef s = WAVE ->
  (length (frequencyData t) <= length (timeDomainData t))%nat ->
  let WIDTH := IZR (clientWidth t) in
  let HEIGHT := IZR (clientHeight t) in
  let bufferLength := length (frequencyData t) in
  let samples := firstn bufferLength (timeDomainData t) in
  let hue := dynamicHue (colorShiftRef s) (hueWobble (elapsed s t)) in
  frame (render random s t)
  = [ fillStyle (Solid (css "rgba(0, 0, 0, 0.03)"));
      fillRect 0 0 WIDTH HEIGHT;
      lineWidth 1.5;
      strokeStyle (Solid (hsl hue 100 50));
      beginPath ]
    ++ wavePolyline HEIGHT (WIDTH * 1.0 / INR bufferLength) 0 samples
    ++ [ lineTo WIDTH (HEIGHT / 2); stroke ]
    ++ watermark WAVE WIDTH HEIGHT
  /\ frameHues (frame (render random s t)) = [hue]
  /\ (forall sample : byte,
        waveY HEIGHT sample = HEIGHT / 2 + (JS.byteVal sample / 128 - 1) * HEIGHT / 2).
Proof.
  intros Hmode Hlen WIDTH HEIGHT bufferLength samples hue.
  assert (Hframe :
    frame (render random s t)
    = [ fillStyle (Solid (css "rgba(0, 0, 0, 0.03)"));
        fillRect 0 0 WIDTH HEIGHT;
        lineWidth 1.5;
        strokeStyle (Solid (hsl hue 100 50));
        beginPath ]
      ++ waveLoop HEIGHT (WIDTH * 1.0 / INR bufferLength) 0 0 samples
      ++ [ lineTo WIDTH (HEIGHT / 2); stroke ]
      ++ watermark WAVE WIDTH HEIGHT).
  { rewrite (render_classic_frame s t WAVE) by auto.
    unfold renderClassic, renderWave. simpl VisualizerMode_eqb. cbv iota.
    rewrite (overwrite_covers _ _ Hlen).
    rewrite <- !app_assoc. reflexivity. }
  split; [|split].
  - rewrite Hframe. rewrite waveLoop_polyline; [reflexivity | simpl; lra].
  - rewrite Hframe. unfold frameHues. rewrite !flat_map_app.
    fold (frameHues (waveLoop HEIGHT (WIDTH * 1.0 / INR bufferLength) 0 0 samples)).
    rewrite frameHues_waveLoop. reflexivity.
  - intros sample. unfold waveY. lra.
Qed.

(** ** The ink layer of WATER_CIRCLE *)

Lemma INR_bars : INR bars = 120.
Proof. unfold bars. rewrite INR_IZR_INZ. reflexivity. Qed.

Lemma Int_part_nonneg (x : R) : 0 <= x -> (0 <= Int_part x)%Z.
Proof.
  intros Hx. destruct (base_Int_part x) as [_ Hhi].
  assert (IZR (-1) < IZR (Int_part x)) by (simpl; lra).
  apply lt_IZR in H. lia.
Qed.

(** Every angular slot reads a bin of the array. *)
Lemma inkIndex_in_range (bufferLength i : nat) :
  (0 < bufferLength)%nat -> (i < bars)%nat ->
  (inkIndex bufferLength i < bufferLength)%nat.
Proof.
  intros Hn Hi. unfold inkIndex, JS.floor. rewrite INR_bars.
  set (useful := Int_part (INR bufferLength * 0.82)).
  assert (Hn0 : 1 <= INR bufferLength).
  { change 1 with (INR 1). apply le_INR. lia. }
  assert (Hi0 : 0 <= INR i) by apply pos_INR.
  assert (Hi1 : INR i <= 119).
  { change 119 with (IZR (Z.of_nat 119)). rewrite <- INR_IZR_INZ.
    apply le_INR. unfold bars in Hi. lia. }
  assert (Hu0 : 0 <= IZR useful).
  { apply IZR_le. apply Int_part_nonneg. lra. }
  assert (Hu1 : IZR useful <= INR bufferLength * 0.82).
  { apply (base_Int_part (INR bufferLength * 0.82)). }
  set (pos := INR i * (IZR useful / 120)).
  assert (Hp0 : 0 <= pos) by (unfold pos; nra).
  assert (Hp1 : pos < INR bufferLength) by (unfold pos; nra).
  pose proof (Int_part_nonneg pos Hp0) as Hz0.
  destruct (base_Int_part pos) as [Hlo _].
  assert (Hlt : IZR (Int_part pos) < IZR (Z.of_nat bufferLength)).
  { rewrite <- INR_IZR_INZ. lra. }
  apply lt_IZR in Hlt. lia.
Qed.

Lemma byteVal_x00 : JS.byteVal Byte.x00 = 0.
Proof. reflexivity. Qed.

Lemma weighted_silence (weight : nat -> R) (n : nat) :
  forall i, weighted weight i (repeat Byte.x00 n) = 0.
Proof.
  induction n as [| n IH]; intros i; simpl.
  - reflexivity.
  - rewrite IH, byteVal_x00. lra.
Qed.

Lemma bassLevel_silence (n : nat) : bassLevel (repeat Byte.x00 n) = 0.
Proof.
  unfold bassLevel, bassAvg.
  destruct (bandTotals_weighted (repeat Byte.x00 n)) as (Hb & _ & _).
  rewrite Hb, weighted_silence. lra.
Qed.

Lemma midLevel_silence (n : nat) : midLevel (repeat Byte.x00 n) = 0.
Proof.
  unfold midLevel, lowMidAvg.
  destruct (bandTotals_weighted (repeat Byte.x00 n)) as (_ & Hm & _).
  rewrite Hm, weighted_silence. lra.
Qed.

Lemma gtb_false (a b : R) : a <= b -> gtb a b = false.
Proof. intros H. unfold gtb. destruct (Rlt_dec b a); [lra | reflexivity]. Qed.

Lemma gtb_true_iff (a b : R) : gtb a b = true <-> b < a.
Proof.
  unfold gtb. destruct (Rlt_dec b a); split; intros; try assumption;
    try reflexivity; try discriminate; contradiction.
Qed.

Lemma maxInwardLen_nonneg (WIDTH HEIGHT bass : R) : 0 <= maxInwardLen WIDTH HEIGHT bass.
Proof. unfold maxInwardLen. apply Rmax_l. Qed.

Lemma inwardLen_silence (WIDTH HEIGHT bass : R) : inwardLen WIDTH HEIGHT bass 0 = 0.
Proof.
  unfold inwardLen. apply Rmin_left. apply maxInwardLen_nonneg.
Qed.

(** The length of a slot of a silent spectrum. *)
Lemma inkLength_silence (n : nat) (HEIGHT bass : R) (i : nat) :
  (0 < n)%nat -> (i < bars)%nat ->
  inkLength (repeat Byte.x00 n) HEIGHT bass i = Some 0.
Proof.
  intros Hn Hi. unfold inkLength, JS.get.
  rewrite repeat_length.
  rewrite nth_error_repeat by (apply inkIndex_in_range; assumption).
  simpl option_map. rewrite byteVal_x00. f_equal.
  replace (0 / 255 * (0 / 255)) with 0 by lra.
  rewrite Rmax_left by lra. lra.
Qed.

Lemma inkLength_silence_any (n : nat) (HEIGHT bass : R) (i : nat) :
  inkLength (repeat Byte.x00 n) HEIGHT bass i = Some 0 \/
  inkLength (repeat Byte.x00 n) HEIGHT bass i = None.
Proof.
  unfold inkLength, JS.get.
  destruct (nth_error (repeat Byte.x00 n) (inkIndex (length (repeat Byte.x00 n)) i))
    as [b |] eqn:Hnth; [left | right; reflexivity].
  apply nth_error_In, repeat_spec in Hnth. subst b.
  simpl option_map. rewrite byteVal_x00. f_equal.
  replace (0 / 255 * (0 / 255)) with 0 by lra.
  rewrite Rmax_left by lra. lra.
Qed.

(** A slot of a silent spectrum only turns the context and turns it back. *)
Lemma inkBar_silence (n : nat) (WIDTH HEIGHT globalHueShift wobble bass : R) (i : nat) :
  inkBar (repeat Byte.x00 n) WIDTH HEIGHT globalHueShift wobble bass i
  = [ save; rotate ((INR i / INR bars) * PI * 2); restore ].
Proof.
  unfold inkBar.
  destruct (inkLength_silence_any n HEIGHT bass i) as [-> | ->].
  - rewrite inwardLen_silence. rewrite gtb_false by lra. reflexivity.
  - reflexivity.
Qed.

(** The frame of WATER_CIRCLE. *)
Lemma render_waterCircle (s : State) (t : Tick) :
  modeRef s = WATER_CIRCLE ->
  let WIDTH := IZR (clientWidth t) in
  let HEIGHT := IZR (clientHeight t) in
  let bass := bassLevel (frequencyData t) in
  let drawing :=
    renderWaterCircle (frequencyData t) WIDTH HEIGHT
      (colorShiftRef s) (hueWobble (elapsed s t)) bass (midLevel (frequencyData t))
      (set_rotationRef (rotationRef s + (0.002 + bass * 0.005))
                       (handleResize random s t)) in
  render random s t
  = {| after := after drawing;
       frame := frame drawing ++ watermark WATER_CIRCLE WIDTH HEIGHT;
       completed := true |}.
Proof.
  intros Hmode WIDTH HEIGHT bass drawing.
  destruct (handleResize_refs s t) as (Hm & Hc & Hr & _).
  destruct (handleResize_size s t) as (Hw & Hh).
  pose proof (elapsed_handleResize s t) as He.
  unfold render. simpl modeRef. rewrite Hm, Hmode, Hc, Hr, Hw, Hh, He.
  reflexivity.
Qed.

Ltac no_rect :=
  repeat (apply Forall_cons; [simpl; tauto|]); apply Forall_nil.

Lemma paperShard_no_rect (shard : PaperShard) :
  Forall (fun c => ~ isRect c) (paperShard shard).
Proof. unfold paperShard, shardPath. destruct (isLight shard); no_rect. Qed.

Lemma paperShard_nonempty (shard : PaperShard) :
  In (moveTo (shard_x shard) (shard_y shard)) (paperShard shard).
Proof.
  unfold paperShard, shardPath. destruct (isLight shard); simpl; auto.
Qed.

(** ** C6: silence in WATER_CIRCLE *)

Lemma drawnInARow_here (calls rest : list Call) : drawnInARow calls (calls ++ rest).
Proof. exists [], rest. reflexivity. Qed.

Lemma drawnInARow_app_l (calls l1 l2 : list Call) :
  drawnInARow calls l1 -> drawnInARow calls (l1 ++ l2).
Proof.
  intros (before & rest & ->). exists before, (rest ++ l2).
  rewrite <- !app_assoc. reflexivity.
Qed.

Lemma drawnInARow_app_r (calls l1 l2 : list Call) :
  drawnInARow calls l2 -> drawnInARow calls (l1 ++ l2).
Proof.
  intros (before & rest & ->). exists (l1 ++ before), rest.
  rewrite <- !app_assoc. reflexivity.
Qed.

Lemma drawnInARow_flat_map {A : Type} (f : A -> list Call) (x : A) (l : list A) :
  In x l -> drawnInARow (f x) (flat_map f l).
Proof.
  intros Hin. apply in_split in Hin. destruct Hin as (l1 & l2 & ->).
  rewrite flat_map_app. cbn [flat_map].
  apply drawnInARow_app_r, drawnInARow_here.
Qed.

Lemma drawnInARow_In (calls frame : list Call) (c : Call) :
  drawnInARow calls frame -> In c calls -> In c frame.
Proof.
  intros (before & rest & ->) Hin.
  apply in_or_app. right. apply in_or_app. left. exact Hin.
Qed.

(** The pool of a silent frame, call by call. *)
Lemma inkPool_silence (WIDTH HEIGHT globalHueShift wobble : R) :
  inkPool WIDTH HEIGHT globalHueShift wobble 0
  = [ fillStyle
        (RadialGradient 0 0 0 0 0 (Rmin WIDTH HEIGHT / 4.5 * 0.5 * 0.8)
           [ (0, hsla (JS.rem (200 + globalHueShift + wobble) 360) 70 50 0.5);
             (1, hsla (JS.rem (200 + globalHueShift + wobble) 360) 70 90 0) ]);
      beginPath;
      arc 0 0 (Rmin WIDTH HEIGHT / 4.5 * 0.5 * 0.8) 0 (PI * 2);
      fill ].
Proof.
  unfold inkPool, poolSize, radiusBase.
  replace (200 + globalHueShift + wobble - 0 * 30)
    with (200 + globalHueShift + wobble) by lra.
  replace (Rmin WIDTH HEIGHT / 4.5 * 0.5 * (0.8 + 0 * 0.6))
    with (Rmin WIDTH HEIGHT / 4.5 * 0.5 * 0.8) by lra.
  replace (0.5 + 0 * 0.3) with 0.5 by lra.
  reflexivity.
Qed.

(** The triangle of a shard, call by call. *)
Lemma paperShard_calls (shard : PaperShard) :
  paperShard shard
  = [ beginPath;
      moveTo (shard_x shard) (shard_y shard);
      lineTo (shard_x shard + fst (p1 shard)) (shard_y shard + snd (p1 shard));
      lineTo (shard_x shard + fst (p2 shard)) (shard_y shard + snd (p2 shard));
      fillStyle
        (LinearGradient (shard_x shard) (shard_y shard)
                        (shard_x shard + 50) (shard_y shard + 50)
           [ (0, if isLight shard
                 then rgba 255 255 255 (opacity shard)
                 else rgba 0 0 0 (opacity shard));
             (1, if isLight shard then rgba 255 255 255 0 else rgba 0 0 0 0) ]);
      fill ].
Proof. unfold paperShard, shardPath. destruct (isLight shard); reflexivity. Qed.

(** C6: with a spectrum of zeros in WATER_CIRCLE mode, the outward and the
    inward length of each of the 120 slots is zero and the frame holds no
    [rect] call at all, while it still draws, call by call: the background
    fill; for every shard its triangle (path, gradient from the colour of the
    shard at its opacity to transparent, fill); the noise image at half alpha
    (when the noise canvas exists); and the central pool, a disc of radius
    [min(WIDTH, HEIGHT) / 4.5 * 0.5 * 0.8] filled with the radial gradient of
    the pool hue. *)
Theorem C6_silent_ink_frame (s : State) (t : Tick) (n : nat) :
  modeRef s = WATER_CIRCLE ->
  frequencyData t = repeat Byte.x00 n ->
  (0 < n)%nat ->
  let WIDTH := IZR (clientWidth t) in
  let HEIGHT := IZR (clientHeight t) in
  let bass := bassLevel (frequencyData t) in
  let o := render random s t in
  let pool := Rmin WIDTH HEIGHT / 4.5 * 0.5 * 0.8 in
  let poolHue := JS.rem (200 + colorShiftRef s + hueWobble (elapsed s t)) 360 in
  (forall i, (i < bars)%nat ->
     inkLength (frequencyData t) HEIGHT bass i = Some 0 /\
     inwardLen WIDTH HEIGHT bass 0 = 0)
  /\ (forall x y w h, ~ In (rect x y w h) (frame o))
  /\ drawnInARow
       [ fillStyle
           (RadialGradient 0 0 0 0 0 pool
              [ (0, hsla poolHue 70 50 0.5); (1, hsla poolHue 70 90 0) ]);
         beginPath;
         arc 0 0 pool 0 (PI * 2);
         fill ]
       (frame o)
  /\ (0 < WIDTH -> 0 < HEIGHT -> 0 < pool)
  /\ drawnInARow
       [ fillStyle (Solid (css "#e8ecf0")); fillRect 0 0 WIDTH HEIGHT ] (frame o)
  /\ (forall shard, In shard (paperShardsRef (after o)) ->
        drawnInARow
          [ beginPath;
            moveTo (shard_x shard) (shard_y shard);
            lineTo (shard_x shard + fst (p1 shard)) (shard_y shard + snd (p1 shard));
            lineTo (shard_x shard + fst (p2 shard)) (shard_y shard + snd (p2 shard));
            fillStyle
              (LinearGradient (shard_x shard) (shard_y shard)
                              (shard_x shard + 50) (shard_y shard + 50)
                 [ (0, if isLight shard
                       then rgba 255 255 255 (opacity shard)
                       else rgba 0 0 0 (opacity shard));
                   (1, if isLight shard
                       then rgba 255 255 255 0 else rgba 0 0 0 0) ]);
            fill ]
          (frame o))
  /\ (forall img, noiseCanvasRef (after o) = Some img ->
        drawnInARow [ globalAlpha 0.5; drawImage img 0 0; globalAlpha 1.0 ] (frame o))
  /\ (paperShardsRef s <> [] -> paperShardsRef (after o) <> []).
Proof.
  intros Hmode Hdata Hn WIDTH HEIGHT bass o pool poolHue.
  assert (Hbass : bass = 0) by (unfold bass; rewrite Hdata; apply bassLevel_silence).
  assert (Hmid : midLevel (frequencyData t) = 0)
    by (rewrite Hdata; apply midLevel_silence).
  pose proof (render_waterCircle s t Hmode) as Hrender. cbv zeta in Hrender.
  fold WIDTH HEIGHT bass o in Hrender.
  rewrite Hrender. clear Hrender. unfold renderWaterCircle.
  cbn [after frame noiseCanvasRef paperShardsRef rotationRef
       set_rotationRef set_paperShards].
  rewrite Hbass, Hmid.
  set (shards := map (moveShard WIDTH HEIGHT)
                     (paperShardsRef (handleResize random s t))).
  set (noise := noiseCanvasRef (handleResize random s t)).
  rewrite (gtb_false (Rmin 1 (0 * 0.8)) 0.05)
    by (rewrite Rmin_right by lra; lra).
  rewrite (flat_map_ext _
             (fun i => [ save; rotate ((INR i / INR bars) * PI * 2); restore ]))
    by (intros i; rewrite Hdata; apply inkBar_silence).
  split.
  { intros i Hi. unfold bass. rewrite Hdata. split.
    - apply inkLength_silence; assumption.
    - apply inwardLen_silence. }
  split.
  { assert (Hall : Forall (fun c => ~ isRect c)
      (([ fillStyle (Solid (css "#e8ecf0")); fillRect 0 0 WIDTH HEIGHT ]
        ++ flat_map paperShard shards
        ++ noiseOverlay noise
        ++ [ globalCompositeOperation "overlay" ]
        ++ []
        ++ [ globalCompositeOperation "multiply"; save;
             translate (WIDTH / 2) (HEIGHT / 2);
             rotate (rotationRef s + (0.002 + 0 * 0.005)) ]
        ++ inkPool WIDTH HEIGHT (colorShiftRef s) (hueWobble (elapsed s t)) 0
        ++ flat_map (fun i => [ save; rotate ((INR i / INR bars) * PI * 2); restore ])
                    (seq 0 bars)
        ++ [ restore; globalCompositeOperation "source-over" ])
       ++ watermark WATER_CIRCLE WIDTH HEIGHT)).
    { repeat match goal with
             | |- Forall _ (_ ++ _) => apply Forall_app; split
             | |- Forall _ (flat_map _ _) =>
                 apply Forall_flat_map; apply Forall_forall; intros ? _
             | |- Forall _ (paperShard _) => apply paperShard_no_rect
             | |- Forall _ (noiseOverlay ?img) => unfold noiseOverlay; destruct img
             | |- Forall _ (inkPool _ _ _ _ _) => unfold inkPool
             | |- Forall _ (watermark _ _ _) => unfold watermark
             | |- Forall _ (_ :: _) => apply Forall_cons; [simpl; tauto|]
             | |- Forall _ [] => apply Forall_nil
             end. }
    intros x y w h Hin.
    rewrite Forall_forall in Hall. apply (Hall _ Hin). exact I. }
  split.
  { apply drawnInARow_app_l.
    do 6 apply drawnInARow_app_r.
    rewrite inkPool_silence. apply drawnInARow_here. }
  split.
  { intros Hw Hh. unfold pool.
    assert (0 < Rmin WIDTH HEIGHT) by (apply Rmin_glb_lt; assumption). lra. }
  split.
  { apply drawnInARow_app_l. apply drawnInARow_here. }
  split.
  { intros shard Hshard. rewrite <- paperShard_calls.
    apply drawnInARow_app_l. apply drawnInARow_app_r. apply drawnInARow_app_l.
    apply drawnInARow_flat_map. exact Hshard. }
  split.
  { intros img Himg. fold noise in Himg. rewrite Himg.
    apply drawnInARow_app_l. do 2 apply drawnInARow_app_r.
    apply drawnInARow_here. }
  intros Hne Hnil. apply map_eq_nil in Hnil.
  unfold handleResize in Hnil.
  destruct (negb (canvasWidth s =? clientWidth t)%Z
            || negb (canvasHeight s =? clientHeight t)%Z);
    [|contradiction].
  cbn [modeRef set_canvasSize] in Hnil. rewrite Hmode in Hnil.
  simpl in Hnil. discriminate.
Qed.

(** ** C7: the inward bar and the pool *)

(** C7, as stated, fails on a small canvas.  On a canvas of 45 by 45 at full
    scale the ring starts at radius 11.89, inside the safe radius 18.335
    around the pool: the inward length is clamped to 0, not to the (negative)
    difference, and the ring itself is closer to the centre than
    [poolSize + gap]. *)
Lemma C7_small_canvas_clamps_to_zero :
  inkLength (repeat Byte.xff 1024) 45 (bassLevel (repeat Byte.xff 1024)) 0
  = Some 22.005
  /\ inwardLen 45 45 (bassLevel (repeat Byte.xff 1024)) 22.005 = 0
  /\ inwardLen 45 45 (bassLevel (repeat Byte.xff 1024)) 22.005
     <> Rmin 22.005 (startRadius 45 45 (bassLevel (repeat Byte.xff 1024))
                     - (poolSize 45 45 (bassLevel (repeat Byte.xff 1024))
                        + centerGap))
  /\ startRadius 45 45 (bassLevel (repeat Byte.xff 1024))
     - inwardLen 45 45 (bassLevel (repeat Byte.xff 1024)) 22.005
     < poolSize 45 45 (bassLevel (repeat Byte.xff 1024)) + centerGap.
Proof.
  set (data := repeat Byte.xff 1024). set (bass := bassLevel data).
  assert (Hbass : bass = 1.445) by apply bassLevel_full_scale.
  assert (Hbase : radiusBase 45 45 = 10).
  { unfold radiusBase. rewrite Rmin_left by lra. lra. }
  assert (Hstart : startRadius 45 45 bass = 11.89).
  { unfold startRadius. rewrite Hbase, Hbass. lra. }
  assert (Hpool : poolSize 45 45 bass + centerGap = 18.335).
  { unfold poolSize, centerGap. rewrite Hbase, Hbass. lra. }
  assert (Hin : inwardLen 45 45 bass 22.005 = 0).
  { unfold inwardLen, maxInwardLen, safeInnerRadius. rewrite Hstart, Hpool. min_max. }
  split.
  { unfold inkLength, inkIndex, JS.get, JS.floor, data.
    simpl (INR 0). rewrite Rmult_0_l, (Int_part_small 0) by lra.
    simpl Z.to_nat. rewrite nth_error_repeat by lia.
    simpl option_map. f_equal.
    replace (JS.byteVal Byte.xff) with 255 by reflexivity.
    rewrite Hbass. replace (255 / 255 * (255 / 255)) with 1 by lra.
    rewrite Rmax_right by lra. lra. }
  split; [exact Hin|].
  rewrite Hin, Hstart, Hpool. split; [min_max | lra].
Qed.

(** An inward rectangle of a slot (the one with a negative height) ends
    outside the safe radius around the pool. *)
Lemma inkBar_inward_rect
    (dataArray : list byte) (WIDTH HEIGHT globalHueShift wobble bass : R) (i : nat)
    (x y w h : R) :
  In (rect x y w h) (inkBar dataArray WIDTH HEIGHT globalHueShift wobble bass i) ->
  h < 0 ->
  exists len : R,
    inkLength dataArray HEIGHT bass i = Some len
    /\ y = startRadius WIDTH HEIGHT bass
    /\ - h = inwardLen WIDTH HEIGHT bass len
    /\ inwardLen WIDTH HEIGHT bass len
       = Rmin len (Rmax 0 (startRadius WIDTH HEIGHT bass
                           - (poolSize WIDTH HEIGHT bass + centerGap)))
    /\ poolSize WIDTH HEIGHT bass + centerGap <= y + h
    /\ (poolSize WIDTH HEIGHT bass + centerGap <= startRadius WIDTH HEIGHT bass ->
        inwardLen WIDTH HEIGHT bass len
        = Rmin len (startRadius WIDTH HEIGHT bass
                    - (poolSize WIDTH HEIGHT bass + centerGap))).
Proof.
  intros Hin Hneg. unfold inkBar in Hin.
  destruct (inkLength dataArray HEIGHT bass i) as [len |] eqn:Hlen.
  2: { simpl in Hin. destruct Hin as [H | [H | [H | []]]]; discriminate. }
  exists len. split; [reflexivity|].
  apply in_app_or in Hin. destruct Hin as [Hin | Hin].
  { simpl in Hin. destruct Hin as [H | [H | []]]; discriminate. }
  apply in_app_or in Hin. destruct Hin as [Hin | Hin].
  2: { simpl in Hin. destruct Hin as [H | []]; discriminate. }
  apply in_app_or in Hin. destruct Hin as [Hin | Hin].
  - (* the outward bar has a positive height *)
    destruct (gtb len 0) eqn:Hout; [|contradiction].
    apply gtb_true_iff in Hout.
    simpl in Hin. destruct Hin as [H | [H | [H | [H | []]]]]; try discriminate.
    injection H as _ _ _ Hh. lra.
  - destruct (gtb (inwardLen WIDTH HEIGHT bass len) 0) eqn:Hinw; [|contradiction].
    apply gtb_true_iff in Hinw.
    simpl in Hin. destruct Hin as [H | [H | [H | [H | []]]]]; try discriminate.
    injection H as _ Hy _ Hh.
    assert (Hdef : inwardLen WIDTH HEIGHT bass len
                   = Rmin len (Rmax 0 (startRadius WIDTH HEIGHT bass
                                       - (poolSize WIDTH HEIGHT bass + centerGap))))
      by reflexivity.
    split; [symmetry; exact Hy|].
    split; [lra|].
    split; [exact Hdef|].
    split.
    + rewrite <- Hy, <- Hh. rewrite Hdef in *. revert Hinw. min_max.
    + intros Hsafe. rewrite Hdef. min_max.
Qed.

(** Where the inward length is positive the slot draws its inward
    rectangle. *)
Lemma inkBar_draws_inward_rect
    (dataArray : list byte) (WIDTH HEIGHT globalHueShift wobble bass : R) (i : nat)
    (len : R) :
  inkLength dataArray HEIGHT bass i = Some len ->
  0 < inwardLen WIDTH HEIGHT bass len ->
  In (rect (- (2 * PI * radiusBase WIDTH HEIGHT / INR bars * 0.5) / 2)
           (startRadius WIDTH HEIGHT bass)
           (2 * PI * radiusBase WIDTH HEIGHT / INR bars * 0.5)
           (- inwardLen WIDTH HEIGHT bass len))
     (inkBar dataArray WIDTH HEIGHT globalHueShift wobble bass i).
Proof.
  intros Hlen Hpos. unfold inkBar. rewrite Hlen.
  rewrite (proj2 (gtb_true_iff (inwardLen WIDTH HEIGHT bass len) 0)) by exact Hpos.
  apply in_or_app. right. apply in_or_app. left. apply in_or_app. right.
  simpl. right. right. left. reflexivity.
Qed.

Lemma glowLoop_no_rect (bass mid : R) (shards : list PaperShard) : forall i,
  Forall (fun c => ~ isRect c) (glowLoop bass mid i shards).
Proof.
  induction shards as [| shard rest IH]; intros i; cbn [glowLoop].
  - apply Forall_nil.
  - apply Forall_app. split; [|apply IH].
    destruct (isHighlight shard); [|apply Forall_nil].
    destruct (gtb _ 0.1); no_rect.
Qed.

(** The only rectangles of a WATER_CIRCLE frame are the bars of its slots. *)
Lemma waterCircle_frame_rects (s : State) (t : Tick) (x y w h : R) :
  modeRef s = WATER_CIRCLE ->
  In (rect x y w h) (frame (render random s t)) ->
  exists i, (i < bars)%nat /\
    In (rect x y w h)
       (inkBar (frequencyData t) (IZR (clientWidth t)) (IZR (clientHeight t))
               (colorShiftRef s) (hueWobble (elapsed s t))
               (bassLevel (frequencyData t)) i).
Proof.
  intros Hmode Hin.
  assert (Hno : forall l, Forall (fun c => ~ isRect c) l -> In (rect x y w h) l -> False).
  { intros l Hall Hl. rewrite Forall_forall in Hall. apply (Hall _ Hl). exact I. }
  rewrite (render_waterCircle s t Hmode) in Hin.
  unfold renderWaterCircle in Hin. cbn [frame] in Hin.
  destruct (in_app_or _ _ _ Hin) as [Hdrawing | Hmark]; clear Hin.
  2: { exfalso. revert Hmark. apply Hno. unfold watermark. no_rect. }
  destruct (in_app_or _ _ _ Hdrawing) as [Hbase | H1]; clear Hdrawing.
  { exfalso. revert Hbase. apply Hno. no_rect. }
  destruct (in_app_or _ _ _ H1) as [Hshards | H2]; clear H1.
  { exfalso. revert Hshards. apply Hno.
    apply Forall_flat_map. apply Forall_forall. intros shard _.
    apply paperShard_no_rect. }
  destruct (in_app_or _ _ _ H2) as [Hnoise | H3]; clear H2.
  { exfalso. revert Hnoise. apply Hno.
    unfold noiseOverlay. destruct (noiseCanvasRef _); no_rect. }
  destruct (in_app_or _ _ _ H3) as [Hoverlay | H4]; clear H3.
  { exfalso. revert Hoverlay. apply Hno. no_rect. }
  destruct (in_app_or _ _ _ H4) as [Hglow | H5]; clear H4.
  { exfalso. revert Hglow. apply Hno.
    destruct (gtb _ 0.05); [apply glowLoop_no_rect | apply Forall_nil]. }
  destruct (in_app_or _ _ _ H5) as [Hsetup | H6]; clear H5.
  { exfalso. revert Hsetup. apply Hno. no_rect. }
  destruct (in_app_or _ _ _ H6) as [Hpool | H7]; clear H6.
  { exfalso. revert Hpool. apply Hno. unfold inkPool. no_rect. }
  destruct (in_app_or _ _ _ H7) as [Hbars | Hend]; clear H7.
  2: { exfalso. revert Hend. apply Hno. no_rect. }
  apply in_flat_map in Hbars. destruct Hbars as (i & Hi & Hbar).
  apply in_seq in Hi. exists i. split; [lia | exact Hbar].
Qed.

(** C7 (amended): in every slot the inward length is
    [min(outwardLen, max(0, startRadius - (poolSize + gap)))]; every inward
    rectangle of a frame (the one drawn with a negative height from
    [startRadius]) ends at a radius of at least [poolSize + gap], so no inward
    bar that is drawn overlaps the pool; and where the ring lies outside the
    safe radius the clamp is the difference itself. *)
Theorem C7_inward_bar_stops_at_the_pool (s : State) (t : Tick) (x y w h : R) :
  modeRef s = WATER_CIRCLE ->
  In (rect x y w h) (frame (render random s t)) ->
  h < 0 ->
  let WIDTH := IZR (clientWidth t) in
  let HEIGHT := IZR (clientHeight t) in
  let bass := bassLevel (frequencyData t) in
  exists (i : nat) (len : R),
    (i < bars)%nat
    /\ inkLength (frequencyData t) HEIGHT bass i = Some len
    /\ y = startRadius WIDTH HEIGHT bass
    /\ - h = inwardLen WIDTH HEIGHT bass len
    /\ inwardLen WIDTH HEIGHT bass len
       = Rmin len (Rmax 0 (startRadius WIDTH HEIGHT bass
                           - (poolSize WIDTH HEIGHT bass + centerGap)))
    /\ poolSize WIDTH HEIGHT bass + centerGap <= y + h
    /\ (poolSize WIDTH HEIGHT bass + centerGap <= startRadius WIDTH HEIGHT bass ->
        inwardLen WIDTH HEIGHT bass len
        = Rmin len (startRadius WIDTH HEIGHT bass
                    - (poolSize WIDTH HEIGHT bass + centerGap))).
Proof.
  intros Hmode Hin Hneg WIDTH HEIGHT bass.
  destruct (waterCircle_frame_rects s t x y w h Hmode Hin) as (i & Hi & Hbar).
  destruct (inkBar_inward_rect _ _ _ _ _ _ _ _ _ _ _ Hbar Hneg) as (len & Hrest).
  exists i, len. split; [exact Hi | exact Hrest].
Qed.

(** ** Particle positions *)

(** Whatever came in, what leaves [wrap] lies between the two ends. *)
Lemma wrap_range (lo hi v : R) : lo <= hi -> lo <= wrap lo hi v <= hi.
Proof.
  intros Hle. unfold wrap.
  destruct (Rlt_dec v lo) as [Hlo | Hlo].
  - destruct (Rlt_dec hi hi); lra.
  - destruct (Rlt_dec hi v); lra.
Qed.

Lemma moveShard_in_margin (WIDTH HEIGHT : R) (shard : PaperShard) :
  0 <= WIDTH -> 0 <= HEIGHT ->
  shardInMargin WIDTH HEIGHT (moveShard WIDTH HEIGHT shard).
Proof.
  intros Hw Hh. unfold shardInMargin, moveShard. simpl.
  split; apply wrap_range; lra.
Qed.

Lemma moveNode_in_bounds (WIDTH HEIGHT bass : R) (node : NeuralNode) :
  0 <= WIDTH -> 0 <= HEIGHT ->
  nodeInBounds WIDTH HEIGHT (moveNode WIDTH HEIGHT bass node).
Proof.
  intros Hw Hh. unfold nodeInBounds, moveNode. simpl.
  split; apply wrap_range; lra.
Qed.

(** A blob is displaced by its velocity times the speed multiplier and is
    not put back: from inside the extended bounds it can end one displacement
    outside of them. *)
Lemma moveBlob_overshoot (WIDTH HEIGHT bass : R) (blob : WatercolorBlob) :
  0 <= bass ->
  blobInMargin WIDTH HEIGHT blob ->
  let speedMult := 1 + bass * 5 in
  let blob' := moveBlob WIDTH HEIGHT bass blob in
  -100 - Rabs (blob_vx blob) * speedMult <= blob_x blob'
    <= WIDTH + 100 + Rabs (blob_vx blob) * speedMult
  /\ -100 - Rabs (blob_vy blob) * speedMult <= blob_y blob'
    <= HEIGHT + 100 + Rabs (blob_vy blob) * speedMult.
Proof.
  intros Hbass [Hx Hy] speedMult blob'. unfold blob', moveBlob. simpl.
  fold speedMult.
  assert (Hs : 0 <= speedMult) by (unfold speedMult; lra).
  assert (Hvx : - (Rabs (blob_vx blob) * speedMult) <= blob_vx blob * speedMult
                <= Rabs (blob_vx blob) * speedMult).
  { unfold Rabs. destruct (Rcase_abs (blob_vx blob)); nra. }
  assert (Hvy : - (Rabs (blob_vy blob) * speedMult) <= blob_vy blob * speedMult
                <= Rabs (blob_vy blob) * speedMult).
  { unfold Rabs. destruct (Rcase_abs (blob_vy blob)); nra. }
  lra.
Qed.

(** The bounce: a blob found outside an extended bound after its move has
    that velocity component inverted, otherwise the component is kept. *)
Lemma moveBlob_bounce (WIDTH HEIGHT bass : R) (blob : WatercolorBlob) :
  let blob' := moveBlob WIDTH HEIGHT bass blob in
  blob_x blob' = blob_x blob + blob_vx blob * (1 + bass * 5)
  /\ blob_y blob' = blob_y blob + blob_vy blob * (1 + bass * 5)
  /\ (blob_x blob' < -100 \/ WIDTH + 100 < blob_x blob' ->
      blob_vx blob' = - blob_vx blob)
  /\ (-100 <= blob_x blob' <= WIDTH + 100 -> blob_vx blob' = blob_vx blob)
  /\ (blob_y blob' < -100 \/ HEIGHT + 100 < blob_y blob' ->
      blob_vy blob' = - blob_vy blob)
  /\ (-100 <= blob_y blob' <= HEIGHT + 100 -> blob_vy blob' = blob_vy blob).
Proof.
  unfold moveBlob, ltb, gtb. simpl.
  split; [reflexivity|]. split; [reflexivity|].
  repeat split; intros H;
    repeat match goal with
           | |- context [Rlt_dec ?a ?b] => destruct (Rlt_dec a b)
           end; simpl; lra.
Qed.

Lemma nodesLoop_nodes (WIDTH HEIGHT baseHue bass mid : R) (nodes : list NeuralNode) :
  fst (nodesLoop WIDTH HEIGHT baseHue bass mid nodes)
  = map (moveNode WIDTH HEIGHT bass) nodes.
Proof.
  induction nodes as [| node rest IH]; simpl.
  - reflexivity.
  - rewrite IH. reflexivity.
Qed.

(** With a finite high level the loop over the blobs moves every blob and
    runs to its end. *)
Lemma blobsLoop_blobs (WIDTH HEIGHT globalHueShift wobble bass mid high : R)
    (blobs : list WatercolorBlob) : forall i,
  let result :=
    blobsLoop WIDTH HEIGHT globalHueShift wobble bass mid (Some high) i blobs in
  blobs_after result = map (moveBlob WIDTH HEIGHT bass) blobs
  /\ blobs_done result = true.
Proof.
  induction blobs as [| blob rest IH]; intros i; simpl.
  - split; reflexivity.
  - assert (Hre : exists re, react i bass mid (Some high) = Some re).
    { unfold react. destruct (i mod 3 =? 0)%nat; [eauto|].
      destruct (i mod 3 =? 1)%nat; eauto. }
    destruct Hre as [re ->]. simpl.
    destruct (IH (S i)) as [Hafter Hdone].
    rewrite Hafter, Hdone. split; reflexivity.
Qed.

(** What a frame does to each field. *)

Ltac enter_render s t Hmode :=
  let Hm := fresh "Hm" in
  let Hw := fresh "Hw" in
  let Hh := fresh "Hh" in
  destruct (handleResize_refs s t) as (Hm & _);
  destruct (handleResize_size s t) as (Hw & Hh);
  unfold render; cbn [modeRef set_rotationRef];
  rewrite Hm, Hmode, Hw, Hh.

Lemma render_shards (s : State) (t : Tick) :
  modeRef s = NEURAL \/ modeRef s = WATER_CIRCLE ->
  paperShardsRef (after (render random s t))
  = map (moveShard (IZR (clientWidth t)) (IZR (clientHeight t)))
        (paperShardsRef (handleResize random s t)).
Proof.
  intros [Hmode | Hmode]; enter_render s t Hmode; reflexivity.
Qed.

Lemma render_nodes (s : State) (t : Tick) :
  modeRef s = NEURAL ->
  neuralNodesRef (after (render random s t))
  = map (moveNode (IZR (clientWidth t)) (IZR (clientHeight t))
                  (bassLevel (frequencyData t)))
        (neuralNodesRef s).
Proof.
  intros Hmode.
  destruct (handleResize_refs s t) as (_ & _ & _ & _ & Hnodes & _).
  enter_render s t Hmode.
  unfold renderNeural. cbn [after neuralNodesRef set_neuralNodes set_rotationRef].
  rewrite nodesLoop_nodes, Hnodes. reflexivity.
Qed.

Lemma render_blobs (s : State) (t : Tick) :
  modeRef s = WATERCOLOR ->
  length (frequencyData t) <> 100%nat ->
  watercolorBlobsRef (after (render random s t))
  = map (moveBlob (IZR (clientWidth t)) (IZR (clientHeight t))
                  (bassLevel (frequencyData t)))
        (watercolorBlobsRef s)
  /\ completed (render random s t) = true.
Proof.
  intros Hmode Hlen.
  destruct (handleResize_refs s t) as (_ & _ & _ & _ & _ & Hblobs & _).
  enter_render s t Hmode.
  unfold renderWatercolor, highLevel. rewrite (highAvg_defined _ Hlen).
  cbn [option_map after completed watercolorBlobsRef set_watercolorBlobs
       set_rotationRef].
  rewrite Hblobs.
  apply blobsLoop_blobs.
Qed.

(** Outside WATERCOLOR a frame does not touch the blobs. *)
Lemma render_blobs_untouched (s : State) (t : Tick) :
  modeRef s <> WATERCOLOR ->
  watercolorBlobsRef (after (render random s t)) = watercolorBlobsRef s.
Proof.
  intros Hmode.
  destruct (handleResize_refs s t) as (Hm & _ & _ & _ & _ & Hblobs & _).
  unfold render. cbn [modeRef set_rotationRef]. rewrite Hm.
  destruct (modeRef s); try contradiction;
    unfold renderNeural, renderWaterCircle, renderNebula;
    try destruct (highLevel (frequencyData t));
    cbn [after watercolorBlobsRef set_neuralNodes set_paperShards set_rotationRef];
    exact Hblobs.
Qed.

(** The fields as the initialisers leave them: inside the window. *)
Section Fresh.

Hypothesis random_range : forall k, 0 <= random k < 1.

Variable win : Window.
Hypothesis innerWidth_nonneg : (0 <= innerWidth win)%Z.
Hypothesis innerHeight_nonneg : (0 <= innerHeight win)%Z.

Lemma random_times (k : nat) (z : Z) :
  (0 <= z)%Z -> 0 <= random k * IZR z <= IZR z.
Proof.
  intros Hz. apply IZR_le in Hz. pose proof (random_range k). nra.
Qed.

Lemma fresh_shards (s : State) :
  Forall (fun shard =>
            0 <= shard_x shard <= IZR (innerWidth win) /\
            0 <= shard_y shard <= IZR (innerHeight win))
         (paperShardsRef (initPaperShards random win s)).
Proof.
  unfold initPaperShards. cbn [paperShardsRef set_paperShards].
  apply Forall_map. apply Forall_forall. intros i _.
  unfold newPaperShard. cbn [shard_x shard_y].
  split; apply random_times; assumption.
Qed.

Lemma fresh_nodes (s : State) :
  Forall (nodeInBounds (IZR (innerWidth win)) (IZR (innerHeight win)))
         (neuralNodesRef (initNeuralNodes random win s)).
Proof.
  unfold initNeuralNodes. cbn [neuralNodesRef set_neuralNodes].
  apply Forall_map. apply Forall_forall. intros i _.
  unfold nodeInBounds, newNeuralNode. cbn [node_x node_y].
  split; apply random_times; assumption.
Qed.

Lemma fresh_blobs (s : State) :
  Forall (fun blob =>
            0 <= blob_x blob <= IZR (innerWidth win) /\
            0 <= blob_y blob <= IZR (innerHeight win))
         (watercolorBlobsRef (initWatercolorBlobs random win s)).
Proof.
  unfold initWatercolorBlobs. cbn [watercolorBlobsRef set_watercolorBlobs].
  apply Forall_map. apply Forall_forall. intros i _.
  unfold newWatercolorBlob. cbn [blob_x blob_y].
  split; apply random_times; assumption.
Qed.

End Fresh.

(** ** C5: particles and the bounds of the surface *)

(** What holds of C5: after every frame that advances them, whatever the
    state before, every shard lies within the 150px margin of the surface and
    every network node within the surface; freshly created particles lie
    inside the window.  A watercolor blob is moved by its velocity times
    [1 + bassLevel * 5] and only its velocity is inverted beyond the
    100px-extended bounds: from inside these bounds it ends up to one such
    displacement outside of them, and nothing brings it back. *)
Theorem C5_fields_after_a_frame (s : State) (t : Tick) :
  (0 <= clientWidth t)%Z ->
  (0 <= clientHeight t)%Z ->
  let WIDTH := IZR (clientWidth t) in
  let HEIGHT := IZR (clientHeight t) in
  let bass := bassLevel (frequencyData t) in
  let s' := after (render random s t) in
  (modeRef s = NEURAL \/ modeRef s = WATER_CIRCLE ->
     Forall (shardInMargin WIDTH HEIGHT) (paperShardsRef s'))
  /\ (modeRef s = NEURAL ->
     Forall (nodeInBounds WIDTH HEIGHT) (neuralNodesRef s'))
  /\ (modeRef s = WATERCOLOR -> length (frequencyData t) <> 100%nat ->
     watercolorBlobsRef s'
     = map (moveBlob WIDTH HEIGHT bass) (watercolorBlobsRef s)
     /\ forall blob, In blob (watercolorBlobsRef s) ->
          blobInMargin WIDTH HEIGHT blob ->
          let blob' := moveBlob WIDTH HEIGHT bass blob in
          -100 - Rabs (blob_vx blob) * (1 + bass * 5) <= blob_x blob'
            <= WIDTH + 100 + Rabs (blob_vx blob) * (1 + bass * 5)
          /\ -100 - Rabs (blob_vy blob) * (1 + bass * 5) <= blob_y blob'
            <= HEIGHT + 100 + Rabs (blob_vy blob) * (1 + bass * 5))
  /\ ((forall k, 0 <= random k < 1) ->
      forall (win : Window) (s0 : State),
        (0 <= innerWidth win)%Z -> (0 <= innerHeight win)%Z ->
        Forall (fun shard =>
                  0 <= shard_x shard <= IZR (innerWidth win) /\
                  0 <= shard_y shard <= IZR (innerHeight win))
               (paperShardsRef (initPaperShards random win s0))
        /\ Forall (nodeInBounds (IZR (innerWidth win)) (IZR (innerHeight win)))
                  (neuralNodesRef (initNeuralNodes random win s0))
        /\ Forall (fun blob =>
                     0 <= blob_x blob <= IZR (innerWidth win) /\
                     0 <= blob_y blob <= IZR (innerHeight win))
                  (watercolorBlobsRef (initWatercolorBlobs random win s0))).
Proof.
  intros Hw Hh WIDTH HEIGHT bass s'.
  assert (Hw' : 0 <= WIDTH) by (apply IZR_le in Hw; exact Hw).
  assert (Hh' : 0 <= HEIGHT) by (apply IZR_le in Hh; exact Hh).
  split; [|split; [|split]].
  - intros Hmode. unfold s'. rewrite (render_shards s t Hmode).
    apply Forall_map. apply Forall_forall. intros shard _.
    apply moveShard_in_margin; assumption.
  - intros Hmode. unfold s'. rewrite (render_nodes s t Hmode).
    apply Forall_map. apply Forall_forall. intros node _.
    apply moveNode_in_bounds; assumption.
  - intros Hmode Hlen. split.
    + apply (render_blobs s t Hmode Hlen).
    + intros blob _ Hin.
      apply moveBlob_overshoot; [apply bassLevel_nonneg | exact Hin].
  - intros Hrange win s0 Hiw Hih.
    split; [|split].
    + apply fresh_shards; assumption.
    + apply fresh_nodes; assumption.
    + apply fresh_blobs; assumption.
Qed.

(** ** C9: activating a mode *)

Lemma set_modeRef_same (s : State) : set_modeRef (modeRef s) s = s.
Proof. destruct s. reflexivity. Qed.

(** A mode whose fields exist is activated without any change. *)
Lemma onModeChange_settled (win : Window) (s : State) :
  (modeRef s = NEURAL ->
     isEmpty (neuralNodesRef s) = false /\ isEmpty (paperShardsRef s) = false) ->
  (modeRef s = WATERCOLOR -> isEmpty (watercolorBlobsRef s) = false) ->
  (modeRef s = NEBULA -> isEmpty (nebulaStarsRef s) = false) ->
  (modeRef s = WATER_CIRCLE -> isEmpty (paperShardsRef s) = false) ->
  onModeChange random win (modeRef s) s = s.
Proof.
  intros Hneural Hwater Hnebula Hcircle.
  unfold onModeChange. rewrite set_modeRef_same.
  destruct (modeRef s); cbn [VisualizerMode_eqb andb]; try reflexivity.
  - destruct (Hneural eq_refl) as [-> ->]. reflexivity.
  - rewrite (Hwater eq_refl). reflexivity.
  - rewrite (Hnebula eq_refl). reflexivity.
  - rewrite (Hcircle eq_refl). reflexivity.
Qed.

(** After its activation a mode has its fields. *)
Lemma onModeChange_fields (win : Window) (mode : VisualizerMode) (s : State) :
  let s' := onModeChange random win mode s in
  modeRef s' = mode
  /\ (mode = NEURAL ->
      isEmpty (neuralNodesRef s') = false /\ isEmpty (paperShardsRef s') = false)
  /\ (mode = WATERCOLOR -> isEmpty (watercolorBlobsRef s') = false)
  /\ (mode = NEBULA -> isEmpty (nebulaStarsRef s') = false)
  /\ (mode = WATER_CIRCLE -> isEmpty (paperShardsRef s') = false).
Proof.
  unfold onModeChange.
  destruct mode; cbn [VisualizerMode_eqb andb];
    (split; [| repeat split; try discriminate; try intros _ ]);
    repeat match goal with
           | |- context [if isEmpty ?l then _ else _] =>
               let E := fresh "E" in destruct (isEmpty l) eqn:E
           end;
    try reflexivity; assumption.
Qed.

Lemma isEmpty_false {A : Type} (l : list A) : l <> [] -> isEmpty l = false.
Proof. destruct l; [contradiction | reflexivity]. Qed.

(** Activation never replaces blobs that exist. *)
Lemma onModeChange_blobs_kept (win : Window) (mode : VisualizerMode) (s : State) :
  mode <> WATERCOLOR \/ watercolorBlobsRef s <> [] ->
  watercolorBlobsRef (onModeChange random win mode s) = watercolorBlobsRef s.
Proof.
  intros Hkeep. unfold onModeChange.
  destruct mode; cbn [VisualizerMode_eqb andb];
    try (destruct Hkeep as [Hmode | Hblobs];
         [contradiction |
          cbn [watercolorBlobsRef set_modeRef];
          rewrite (isEmpty_false _ Hblobs)]);
    repeat match goal with
           | |- context [if isEmpty ?l then _ else _] => destruct (isEmpty l)
           end;
    reflexivity.
Qed.

Lemma run_mode (ticks : list Tick) : forall s,
  modeRef (run random s ticks) = modeRef s.
Proof.
  induction ticks as [| t rest IH]; intros s; cbn [run].
  - reflexivity.
  - destruct (render_refs s t) as (Hm & _). cbv zeta in Hm.
    destruct (completed (render random s t)); [rewrite IH|]; exact Hm.
Qed.

(** However long the loop runs in another mode, it leaves the blobs alone. *)
Lemma run_blobs_untouched (ticks : list Tick) : forall s,
  modeRef s <> WATERCOLOR ->
  watercolorBlobsRef (run random s ticks) = watercolorBlobsRef s.
Proof.
  induction ticks as [| t rest IH]; intros s Hmode; cbn [run].
  - reflexivity.
  - destruct (render_refs s t) as (Hm & _). cbv zeta in Hm.
    pose proof (render_blobs_untouched s t Hmode) as Hb.
    destruct (completed (render random s t)); [|exact Hb].
    rewrite IH; [exact Hb | rewrite Hm; exact Hmode].
Qed.

Lemma initWatercolorBlobs_count (win : Window) (s : State) :
  length (watercolorBlobsRef (initWatercolorBlobs random win s)) = 7%nat.
Proof. reflexivity. Qed.

(** What holds of C9: the effect on the mode, run a second time, even from
    another window size, changes nothing in the state: no field is created
    again, no particle and no position in the random sequence changes.  And
    leaving WATERCOLOR for another mode, running the loop there for any number
    of frames and coming back leaves the list of blobs as it was, so their
    number (seven, as created) and their positions are unchanged, wherever
    these positions are. *)
Theorem C9_activation_is_idempotent
    (win win' : Window) (mode other : VisualizerMode) (s : State)
    (ticks : list Tick) :
  other <> WATERCOLOR ->
  watercolorBlobsRef s <> [] ->
  onModeChange random win' mode (onModeChange random win mode s)
  = onModeChange random win mode s
  /\ (let away := run random (onModeChange random win other s) ticks in
      let back := onModeChange random win' WATERCOLOR away in
      modeRef back = WATERCOLOR
      /\ watercolorBlobsRef away = watercolorBlobsRef s
      /\ watercolorBlobsRef back = watercolorBlobsRef s
      /\ length (watercolorBlobsRef back) = length (watercolorBlobsRef s))
  /\ length (watercolorBlobsRef (initWatercolorBlobs random win s)) = 7%nat.
Proof.
  intros Hother Hblobs.
  split; [|split].
  - destruct (onModeChange_fields win mode s) as (Hm & Hn & Hw & Hs & Hc).
    cbv zeta in *.
    set (s' := onModeChange random win mode s) in *.
    rewrite <- Hm at 1.
    apply onModeChange_settled; rewrite Hm; assumption.
  - cbv zeta.
    assert (Haway : watercolorBlobsRef
                      (run random (onModeChange random win other s) ticks)
                    = watercolorBlobsRef s).
    { rewrite run_blobs_untouched.
      - apply onModeChange_blobs_kept. left. exact Hother.
      - destruct (onModeChange_fields win other s) as (Hm & _).
        cbv zeta in Hm. rewrite Hm. exact Hother. }
    assert (Hback : watercolorBlobsRef
                      (onModeChange random win' WATERCOLOR
                         (run random (onModeChange random win other s) ticks))
                    = watercolorBlobsRef s).
    { rewrite onModeChange_blobs_kept; [exact Haway|].
      right. rewrite Haway. exact Hblobs. }
    split; [apply (onModeChange_fields win' WATERCOLOR)|].
    split; [exact Haway|]. split; [exact Hback|]. rewrite Hback. reflexivity.
  - apply initWatercolorBlobs_count.
Qed.

(** The loop in WATERCOLOR over [n] equal ticks moves every blob [n] times. *)
Lemma run_blobs_watercolor (t : Tick) (n : nat) : forall s,
  modeRef s = WATERCOLOR ->
  length (frequencyData t) <> 100%nat ->
  watercolorBlobsRef (run random s (repeat t n))
  = map (Nat.iter n (moveBlob (IZR (clientWidth t)) (IZR (clientHeight t))
                              (bassLevel (frequencyData t))))
        (watercolorBlobsRef s).
Proof.
  induction n as [| n IH]; intros s Hmode Hlen.
  - cbn [repeat run Nat.iter]. symmetry. apply map_id.
  - cbn [repeat run].
    destruct (render_blobs s t Hmode Hlen) as [Hblobs Hdone].
    destruct (render_refs s t) as (Hm & _). cbv zeta in Hm.
    rewrite Hdone, IH, Hblobs by (rewrite ?Hm; assumption).
    rewrite map_map. apply map_ext. intros blob.
    symmetry. apply Nat.iter_succ_r.
Qed.

End Frames.

(** A blob that moves towards a bound it has not reached keeps its velocity
    and advances by the same displacement on every frame. *)
Lemma moveBlob_iter_x (WIDTH HEIGHT bass : R) (blob : WatercolorBlob) (n : nat) :
  0 <= bass -> 0 <= blob_vx blob -> -100 <= blob_x blob ->
  blob_x blob + INR n * (blob_vx blob * (1 + bass * 5)) <= WIDTH + 100 ->
  let blob' := Nat.iter n (moveBlob WIDTH HEIGHT bass) blob in
  blob_x blob' = blob_x blob + INR n * (blob_vx blob * (1 + bass * 5))
  /\ blob_vx blob' = blob_vx blob.
Proof.
  intros Hbass Hv Hx. induction n as [| n IH]; intros Hend.
  - simpl. split; lra.
  - rewrite S_INR in Hend.
    assert (Hd : 0 <= blob_vx blob * (1 + bass * 5)) by nra.
    assert (Hn : 0 <= INR n) by apply pos_INR.
    destruct IH as [IHx IHv]; [nra|].
    cbv zeta in *. rewrite Nat.iter_succ.
    set (prev := Nat.iter n (moveBlob WIDTH HEIGHT bass) blob) in *.
    destruct (moveBlob_bounce WIDTH HEIGHT bass prev) as (Hx' & _ & _ & Hkeep & _).
    cbv zeta in Hx', Hkeep.
    rewrite S_INR.
    assert (Hnew : blob_x (moveBlob WIDTH HEIGHT bass prev)
                   = blob_x blob + (INR n + 1) * (blob_vx blob * (1 + bass * 5))).
    { rewrite Hx', IHx, IHv. lra. }
    split; [exact Hnew|].
    rewrite Hkeep; [exact IHv|]. rewrite Hnew. nra.
Qed.

(** The head of the loop effect has no guard: it creates the blobs of
    WATERCOLOR anew, whether or not there are any. *)
Remark startEffect_recreates_blobs (random : nat -> R) (win : Window) (now : R)
    (s : State) :
  watercolorBlobsRef (startEffect random win WATERCOLOR now s)
  = map (fun i => newWatercolorBlob random win (drawn s + 7 * i)) (seq 0 7).
Proof. reflexivity. Qed.

(** * Concrete runs *)

(** C5, as stated, fails for the blobs: created inside the surface and moved
    by 122 loud frames, the blobs are beyond the 100px-extended bound on the
    right ([x = 900 + 122 * 1.645 = 1100.69 > 1100]). *)
Lemma C5_blobs_leave_the_extended_bounds :
  length (watercolorBlobsRef (run always09 watercolorStart (repeat loudTick 122)))
  = 7%nat
  /\ Forall (fun blob => blob_x blob = 1100.69 /\ ~ blobInMargin 1000 1000 blob)
            (watercolorBlobsRef
               (run always09 watercolorStart (repeat loudTick 122))).
Proof.
  rewrite run_blobs_watercolor;
    [| reflexivity
     | unfold loudTick; cbn [frequencyData]; rewrite repeat_length; lia].
  change (bassLevel (frequencyData loudTick)) with (bassLevel (repeat Byte.xff 1024)).
  rewrite bassLevel_full_scale.
  change (IZR (clientWidth loudTick)) with 1000.
  change (IZR (clientHeight loudTick)) with 1000.
  split; [rewrite length_map; reflexivity|].
  apply Forall_map.
  assert (Hstart : Forall (fun blob => blob_x blob = 900 /\ blob_vx blob = 0.2)
                          (watercolorBlobsRef watercolorStart)).
  { unfold watercolorStart, startEffect, onModeChange.
    cbn [VisualizerMode_eqb andb orb watercolorBlobsRef set_modeRef set_startTime
         mounted isEmpty initWatercolorBlobs set_watercolorBlobs].
    apply Forall_map. apply Forall_forall. intros i _.
    unfold newWatercolorBlob, always09. cbn [blob_x blob_vx innerWidth window1000].
    split; lra. }
  eapply Forall_impl; [|exact Hstart].
  intros blob [Hx Hv].
  assert (H121 : INR 121 = 121) by (rewrite INR_IZR_INZ; reflexivity).
  destruct (moveBlob_iter_x 1000 1000 1.445 blob 121) as [Hx121 Hv121];
    [lra | lra | lra | rewrite Hx, Hv, H121; lra |].
  change 122%nat with (S 121). rewrite Nat.iter_succ.
  set (prev := Nat.iter 121 (moveBlob 1000 1000 1.445) blob) in *.
  destruct (moveBlob_bounce 1000 1000 1.445 prev) as (Hnext & _).
  cbv zeta in Hnext.
  assert (Hfinal : blob_x (moveBlob 1000 1000 1.445 prev) = 1100.69).
  { rewrite Hnext, Hx121, Hv121, Hx, Hv, H121. lra. }
  split; [exact Hfinal|].
  unfold blobInMargin. rewrite Hfinal. lra.
Qed.

(** ** C5 and C9: the blobs of WATERCOLOR leave the bounds for good *)

(** The blobs of the mode just started: at [x = 900], moving right. *)
Lemma watercolorStart_blobs :
  length (watercolorBlobsRef watercolorStart) = 7%nat
  /\ Forall (fun blob => blob_x blob = 900 /\ blob_vx blob = 0.2)
            (watercolorBlobsRef watercolorStart).
Proof.
  split; [reflexivity|].
  unfold watercolorStart, startEffect, onModeChange.
  cbn [VisualizerMode_eqb andb orb watercolorBlobsRef set_modeRef set_startTime
       mounted isEmpty initWatercolorBlobs set_watercolorBlobs].
  apply Forall_map. apply Forall_forall. intros i _.
  unfold newWatercolorBlob, always09. cbn [blob_x blob_vx innerWidth window1000].
  split; lra.
Qed.

(** 122 loud frames carry such a blob across the right bound; the frame that
    finds it outside turns it round. *)
Lemma moveBlob_122_loud (blob : WatercolorBlob) :
  blob_x blob = 900 -> blob_vx blob = 0.2 ->
  let blob' := Nat.iter 122 (moveBlob 1000 1000 1.445) blob in
  blob_x blob' = 1100.69 /\ blob_vx blob' = -0.2.
Proof.
  intros Hx Hv.
  assert (H121 : INR 121 = 121) by (rewrite INR_IZR_INZ; reflexivity).
  destruct (moveBlob_iter_x 1000 1000 1.445 blob 121) as [Hx121 Hv121];
    [lra | lra | lra | rewrite Hx, Hv, H121; lra |].
  cbv zeta in *.
  change 122%nat with (S 121). rewrite Nat.iter_succ.
  set (prev := Nat.iter 121 (moveBlob 1000 1000 1.445) blob) in *.
  destruct (moveBlob_bounce 1000 1000 1.445 prev) as (Hnext & _ & Hflip & _).
  cbv zeta in Hnext, Hflip.
  assert (Hfinal : blob_x (moveBlob 1000 1000 1.445 prev) = 1100.69).
  { rewrite Hnext, Hx121, Hv121, Hx, Hv, H121. lra. }
  split; [exact Hfinal|].
  rewrite Hflip; [rewrite Hv121, Hv; lra|].
  right. rewrite Hfinal. lra.
Qed.

(** Outside the right bound the velocity is inverted on every frame, whatever
    its sign: a quiet frame inwards and a loud frame outwards leave the blob
    further out, moving inwards again. *)
Lemma moveBlob_quiet_then_loud (WIDTH HEIGHT bass : R) (blob : WatercolorBlob) :
  0 <= bass -> blob_vx blob < 0 ->
  WIDTH + 100 < blob_x blob + blob_vx blob ->
  let blob' := moveBlob WIDTH HEIGHT bass (moveBlob WIDTH HEIGHT 0 blob) in
  blob_x blob' = blob_x blob - blob_vx blob * (bass * 5)
  /\ blob_vx blob' = blob_vx blob.
Proof.
  intros Hbass Hv Hout.
  destruct (moveBlob_bounce WIDTH HEIGHT 0 blob) as (Hx1 & _ & Hflip1 & _).
  cbv zeta in *.
  set (quiet := moveBlob WIDTH HEIGHT 0 blob) in *.
  assert (Hv1 : blob_vx quiet = - blob_vx blob) by (apply Hflip1; right; lra).
  destruct (moveBlob_bounce WIDTH HEIGHT bass quiet) as (Hx2 & _ & Hflip2 & _).
  cbv zeta in *.
  assert (Hx2' : blob_x (moveBlob WIDTH HEIGHT bass quiet)
                 = blob_x blob - blob_vx blob * (bass * 5)).
  { rewrite Hx2, Hx1, Hv1. lra. }
  split; [exact Hx2'|].
  rewrite Hflip2; [rewrite Hv1; lra|].
  right. rewrite Hx2'. nra.
Qed.

Lemma moveBlob_pumped (WIDTH HEIGHT bass : R) (blob : WatercolorBlob) (n : nat) :
  0 <= bass -> blob_vx blob < 0 ->
  WIDTH + 100 < blob_x blob + blob_vx blob ->
  let blob' :=
    Nat.iter n (fun b => moveBlob WIDTH HEIGHT bass (moveBlob WIDTH HEIGHT 0 b)) blob in
  blob_x blob' = blob_x blob - INR n * (blob_vx blob * (bass * 5))
  /\ blob_vx blob' = blob_vx blob.
Proof.
  intros Hbass Hv Hout. cbv zeta.
  induction n as [| n [IHx IHv]].
  - simpl. split; lra.
  - rewrite Nat.iter_succ.
    set (prev := Nat.iter n _ blob) in *.
    assert (Hn : 0 <= INR n) by apply pos_INR.
    assert (Hgain : 0 <= INR n * (- blob_vx blob * (bass * 5))).
    { apply Rmult_le_pos; [exact Hn|]. apply Rmult_le_pos; lra. }
    destruct (moveBlob_quiet_then_loud WIDTH HEIGHT bass prev) as [Hx' Hv'];
      [exact Hbass | rewrite IHv; exact Hv | rewrite IHx, IHv; lra |].
    cbv zeta in Hx', Hv'.
    split; [rewrite Hx', IHx, IHv, S_INR; lra | rewrite Hv'; exact IHv].
Qed.

Section Pump.

Variable random : nat -> R.

(** In WATERCOLOR the loop runs through a list of ticks and then through the
    next, when no frequency array of the first has 100 bins. *)
Lemma run_app_watercolor (ticks rest : list Tick) : forall s,
  modeRef s = WATERCOLOR ->
  Forall (fun t => length (frequencyData t) <> 100%nat) ticks ->
  run random s (ticks ++ rest) = run random (run random s ticks) rest.
Proof.
  induction ticks as [| t ticks IH]; intros s Hmode Hall; cbn [app run].
  - reflexivity.
  - inversion Hall as [| ? ? Ht Hrest]; subst.
    destruct (render_blobs random s t Hmode Ht) as [_ Hdone].
    destruct (render_refs random s t) as (Hm & _). cbv zeta in Hm.
    rewrite Hdone. apply IH; [rewrite Hm; exact Hmode | exact Hrest].
Qed.

(** [n] pairs of a silent and a loud tick move every blob [n] times by a
    quiet and a loud step. *)
Lemma run_silentThenLoud (n : nat) : forall s,
  modeRef s = WATERCOLOR ->
  watercolorBlobsRef (run random s (silentThenLoud n))
  = map (Nat.iter n (fun b => moveBlob 1000 1000 1.445 (moveBlob 1000 1000 0 b)))
        (watercolorBlobsRef s).
Proof.
  assert (Hsilent : length (frequencyData silentTick) <> 100%nat).
  { unfold silentTick. cbn [frequencyData]. rewrite repeat_length. lia. }
  assert (Hloud : length (frequencyData loudTick) <> 100%nat).
  { unfold loudTick. cbn [frequencyData]. rewrite repeat_length. lia. }
  induction n as [| n IH]; intros s Hmode.
  - cbn [silentThenLoud run]. simpl Nat.iter. symmetry. apply map_id.
  - cbn [silentThenLoud run].
    destruct (render_blobs random s silentTick Hmode Hsilent) as [Hquiet Hdone1].
    destruct (render_refs random s silentTick) as (Hm1 & _). cbv zeta in Hm1.
    rewrite Hdone1.
    set (s1 := after (render random s silentTick)) in *.
    assert (Hmode1 : modeRef s1 = WATERCOLOR) by (rewrite Hm1; exact Hmode).
    destruct (render_blobs random s1 loudTick Hmode1 Hloud) as [Hstrong Hdone2].
    destruct (render_refs random s1 loudTick) as (Hm2 & _). cbv zeta in Hm2.
    rewrite Hdone2.
    rewrite IH by (rewrite Hm2; exact Hmode1).
    rewrite Hstrong, Hquiet.
    change (bassLevel (frequencyData silentTick))
      with (bassLevel (repeat Byte.x00 1024)).
    change (bassLevel (frequencyData loudTick))
      with (bassLevel (repeat Byte.xff 1024)).
    rewrite bassLevel_silence, bassLevel_full_scale.
    change (IZR (clientWidth silentTick)) with 1000.
    change (IZR (clientHeight silentTick)) with 1000.
    change (IZR (clientWidth loudTick)) with 1000.
    change (IZR (clientHeight loudTick)) with 1000.
    rewrite !map_map. apply map_ext. intros blob.
    rewrite Nat.iter_succ_r. reflexivity.
Qed.

End Pump.

(** The blobs after 122 loud frames of a freshly started WATERCOLOR mode:
    beyond the right bound, turned inwards. *)
Lemma blobs_after_122_loud :
  length (watercolorBlobsRef (run always09 watercolorStart (repeat loudTick 122)))
  = 7%nat
  /\ Forall (fun blob => blob_x blob = 1100.69 /\ blob_vx blob = -0.2)
            (watercolorBlobsRef (run always09 watercolorStart (repeat loudTick 122))).
Proof.
  destruct watercolorStart_blobs as [Hcount Hstart].
  rewrite run_blobs_watercolor;
    [| reflexivity
     | unfold loudTick; cbn [frequencyData]; rewrite repeat_length; lia].
  change (bassLevel (frequencyData loudTick)) with (bassLevel (repeat Byte.xff 1024)).
  rewrite bassLevel_full_scale.
  change (IZR (clientWidth loudTick)) with 1000.
  change (IZR (clientHeight loudTick)) with 1000.
  split; [rewrite length_map; exact Hcount|].
  apply Forall_map.
  eapply Forall_impl; [|exact Hstart].
  intros blob [Hx Hv]. apply moveBlob_122_loud; assumption.
Qed.

(** The blobs after 122 loud frames and [n] pairs of a silent and a loud
    frame. *)
Lemma blobs_after_pumping (n : nat) :
  length (watercolorBlobsRef
            (run always09 watercolorStart (repeat loudTick 122 ++ silentThenLoud n)))
  = 7%nat
  /\ Forall (fun blob => blob_x blob = 1100.69 + 1.445 * INR n)
            (watercolorBlobsRef
               (run always09 watercolorStart
                    (repeat loudTick 122 ++ silentThenLoud n))).
Proof.
  destruct blobs_after_122_loud as [Hcount Hout].
  rewrite run_app_watercolor;
    [| reflexivity
     | apply Forall_forall; intros t Ht; apply repeat_spec in Ht; subst t;
       unfold loudTick; cbn [frequencyData]; rewrite repeat_length; lia].
  rewrite run_silentThenLoud by (rewrite run_mode; reflexivity).
  split; [rewrite length_map; exact Hcount|].
  apply Forall_map.
  eapply Forall_impl; [|exact Hout].
  intros blob [Hx Hv].
  destruct (moveBlob_pumped 1000 1000 1.445 blob n) as [Hxn _];
    [lra | lra | lra |].
  cbv zeta in Hxn. rewrite Hxn, Hx, Hv. lra.
Qed.

(** C5 fails for the blobs, and by any distance.  A freshly started
    WATERCOLOR field on a surface of 1000 by 1000 is carried across the right
    bound by 122 loud frames ([x = 1100.69]).  From then on the velocity is
    inverted on every frame, since the blob is outside on every frame: each
    pair of a silent and a loud frame takes the seven blobs 1.445 px further
    out, so that for every distance there is a run of the loop after which
    every blob is further than that beyond the 100px-extended bound. *)
Theorem C5_blobs_drift_without_bound :
  (forall n : nat,
     let s := run always09 watercolorStart
                  (repeat loudTick 122 ++ silentThenLoud n) in
     length (watercolorBlobsRef s) = 7%nat
     /\ Forall (fun blob => blob_x blob = 1100.69 + 1.445 * INR n
                            /\ ~ blobInMargin 1000 1000 blob)
               (watercolorBlobsRef s))
  /\ (forall beyond : R,
        exists n : nat,
          Forall (fun blob => 1000 + 100 + beyond < blob_x blob)
                 (watercolorBlobsRef
                    (run always09 watercolorStart
                         (repeat loudTick 122 ++ silentThenLoud n)))).
Proof.
  split.
  - intros n. cbv zeta.
    destruct (blobs_after_pumping n) as [Hcount Hx].
    split; [exact Hcount|].
    eapply Forall_impl; [|exact Hx].
    intros blob Hblob. split; [exact Hblob|].
    pose proof (pos_INR n) as Hn.
    unfold blobInMargin. rewrite Hblob. lra.
  - intros beyond.
    destruct (archimed beyond) as [Hup _].
    exists (Z.to_nat (up beyond)).
    destruct (blobs_after_pumping (Z.to_nat (up beyond))) as [_ Hx].
    eapply Forall_impl; [|exact Hx].
    intros blob ->.
    pose proof (pos_INR (Z.to_nat (up beyond))) as Hn.
    assert (Hge : IZR (up beyond) <= INR (Z.to_nat (up beyond))).
    { rewrite INR_IZR_INZ. apply IZR_le. lia. }
    lra.
Qed.

(** C9 fails twice.  First, mounting the component in WATERCOLOR creates the
    blobs twice: the effect on the mode creates them from the random values 0
    to 48, then the head of the loop effect, which has no [length === 0] guard
    for nodes, blobs and stars, creates them again from the values 49 to 97;
    with a random source that answers 0.25 and then 0.75 every blob jumps from
    [x = 250] to [x = 750].  Second, after WATERCOLOR, NEBULA for two frames
    and WATERCOLOR again the seven blobs are those of before, but their
    positions need not be in bounds: from the state after 122 loud frames they
    all come back at [x = 1100.69], beyond the 100px-extended bound of the
    surface of 1000 by 1000. *)
Theorem C9_fields_are_recreated_and_leave_the_bounds :
  (forall (random : nat -> R) (win : Window) (colorShift now : R),
     let activated :=
       onModeChange random win WATERCOLOR (mounted WATERCOLOR colorShift) in
     let started := startEffect random win WATERCOLOR now activated in
     drawn activated = 49%nat
     /\ drawn started = 98%nat
     /\ watercolorBlobsRef activated
        = map (fun i => newWatercolorBlob random win (7 * i)) (seq 0 7)
     /\ watercolorBlobsRef started
        = map (fun i => newWatercolorBlob random win (49 + 7 * i)) (seq 0 7))
  /\ (let activated :=
        onModeChange lowThenHigh window1000 WATERCOLOR (mounted WATERCOLOR 0) in
      let started := startEffect lowThenHigh window1000 WATERCOLOR 0 activated in
      Forall (fun blob => blob_x blob = 250) (watercolorBlobsRef activated)
      /\ Forall (fun blob => blob_x blob = 750) (watercolorBlobsRef started))
  /\ (let drifted := run always09 watercolorStart (repeat loudTick 122) in
      let away :=
        run always09 (onModeChange always09 window1000 NEBULA drifted)
            [loudTick; silentTick] in
      let back := onModeChange always09 window1000 WATERCOLOR away in
      modeRef back = WATERCOLOR
      /\ watercolorBlobsRef back = watercolorBlobsRef drifted
      /\ length (watercolorBlobsRef back) = 7%nat
      /\ Forall (fun blob => blob_x blob = 1100.69 /\ ~ blobInMargin 1000 1000 blob)
                (watercolorBlobsRef back)).
Proof.
  split; [|split].
  - intros random win colorShift now. cbv zeta.
    repeat split; reflexivity.
  - cbv zeta. split.
    + apply Forall_map, Forall_forall. intros i Hi. apply in_seq in Hi.
      unfold newWatercolorBlob, lowThenHigh.
      cbn [blob_x innerWidth window1000 drawn mounted set_modeRef].
      destruct (Nat.ltb_spec (0 + 7 * i) 49); [lra | lia].
    + unfold startEffect. cbn [VisualizerMode_eqb andb orb].
      unfold initWatercolorBlobs at 1.
      cbn [watercolorBlobsRef set_startTime set_watercolorBlobs].
      change (drawn (onModeChange lowThenHigh window1000 WATERCOLOR
                       (mounted WATERCOLOR 0)))
        with 49%nat.
      apply Forall_map, Forall_forall. intros i Hi. apply in_seq in Hi.
      unfold newWatercolorBlob, lowThenHigh.
      cbn [blob_x innerWidth window1000].
      destruct (Nat.ltb_spec (49 + 7 * i) 49); [lia | lra].
  - cbv zeta.
    destruct blobs_after_122_loud as [Hcount Hout].
    set (drifted := run always09 watercolorStart (repeat loudTick 122)) in *.
    assert (Hnebula : modeRef (onModeChange always09 window1000 NEBULA drifted) = NEBULA)
      by apply (onModeChange_fields always09 window1000 NEBULA drifted).
    assert (Haway : watercolorBlobsRef
                      (run always09 (onModeChange always09 window1000 NEBULA drifted)
                           [loudTick; silentTick])
                    = watercolorBlobsRef drifted).
    { rewrite run_blobs_untouched by (rewrite Hnebula; discriminate).
      apply onModeChange_blobs_kept. left. discriminate. }
    assert (Hback : watercolorBlobsRef
                      (onModeChange always09 window1000 WATERCOLOR
                         (run always09 (onModeChange always09 window1000 NEBULA drifted)
                              [loudTick; silentTick]))
                    = watercolorBlobsRef drifted).
    { rewrite onModeChange_blobs_kept; [exact Haway|].
      right. rewrite Haway. intros Hnil. rewrite Hnil in Hcount.
      discriminate Hcount. }
    split; [apply (onModeChange_fields always09 window1000 WATERCOLOR)|].
    split; [exact Hback|]. rewrite Hback.
    split; [exact Hcount|].
    eapply Forall_impl; [|exact Hout].
    intros blob [Hx _]. split; [exact Hx|].
    unfold blobInMargin. rewrite Hx. lra.
Qed.

(** * The theorems at concrete inputs *)

(** Sixteen silent bins: the smallest array an analyser delivers. *)
Lemma C2_levels_defined_off_100_witness :
  length (repeat Byte.x00 16) <> 100%nat
  /\ exists high : R, highLevel (repeat Byte.x00 16) = Some high /\ high = 0.
Proof.
  assert (Hlen : length (repeat Byte.x00 16) <> 100%nat)
    by (rewrite repeat_length; lia).
  split; [exact Hlen|].
  destruct (C2_levels_defined_off_100 (repeat Byte.x00 16) Hlen)
    as (high & Hhigh & _ & _ & _ & Hshort & _).
  exists high. split; [exact Hhigh|].
  apply Hshort. rewrite repeat_length. lia.
Defined.

(** Raising the first bin from 0 to 255. *)
Lemma C3_bassLevel_monotone_witness :
  bassLevel [Byte.x00; Byte.x10] <= bassLevel [Byte.xff; Byte.x10].
Proof.
  apply (C3_bassLevel_monotone [Byte.xff; Byte.x10] [Byte.x00; Byte.x10] 0).
  - reflexivity.
  - lia.
  - intros j Hj. destruct j as [| j]; [contradiction | reflexivity].
  - intros x y Hx Hy. simpl in Hx, Hy.
    injection Hx as <-. injection Hy as <-. simpl. lia.
Defined.

(** A full-scale frame of CIRCULAR mode on a surface of 1000 by 1000. *)
Lemma C4_full_scale_circular_witness :
  circularBarHeight (repeat Byte.xff 1024) 1000 1000 0
  = Some (maxBarHeight 1000 1000 * 1.5)
  /\ bassScale (bassLevel (repeat Byte.xff 1024)) = 2.156.
Proof.
  destruct (C4_full_scale_circular always09 (mounted CIRCULAR 0) loudTick 0)
    as (Hbar & _ & Hscale & _).
  - reflexivity.
  - reflexivity.
  - unfold bars. lia.
  - split; [exact Hbar | exact Hscale].
Defined.

(** The first loud frame of a freshly started WATERCOLOR mode. *)
Lemma C5_fields_after_a_frame_witness :
  watercolorBlobsRef (after (render always09 watercolorStart loudTick))
  = map (moveBlob 1000 1000 (bassLevel (repeat Byte.xff 1024)))
        (watercolorBlobsRef watercolorStart).
Proof.
  destruct (C5_fields_after_a_frame always09 watercolorStart loudTick)
    as (_ & _ & Hblobs & _).
  - simpl. lia.
  - simpl. lia.
  - destruct Hblobs as [Hmoved _].
    + reflexivity.
    + unfold loudTick. cbn [frequencyData]. rewrite repeat_length. lia.
    + exact Hmoved.
Defined.

Lemma nonempty_has_element {A : Type} (l : list A) : l <> [] -> exists x, In x l.
Proof.
  destruct l as [| x rest]; [contradiction|]. intros _. exists x. left. reflexivity.
Qed.

(** A silent frame of WATER_CIRCLE mode, the mode just activated, on a surface
    of 1000 by 1000: no bar, the pool of radius [1000 / 4.5 * 0.5 * 0.8], and
    the triangle of a shard. *)
Lemma C6_silent_ink_frame_witness :
  inkLength (repeat Byte.x00 1024) 1000 (bassLevel (repeat Byte.x00 1024)) 0 = Some 0
  /\ drawnInARow
       [ fillStyle
           (RadialGradient 0 0 0 0 0 (Rmin 1000 1000 / 4.5 * 0.5 * 0.8)
              [ (0, hsla (JS.rem (200 + 0 + hueWobble 0) 360) 70 50 0.5);
                (1, hsla (JS.rem (200 + 0 + hueWobble 0) 360) 70 90 0) ]);
         beginPath;
         arc 0 0 (Rmin 1000 1000 / 4.5 * 0.5 * 0.8) 0 (PI * 2);
         fill ]
       (frame (render always09
                 (onModeChange always09 window1000 WATER_CIRCLE
                    (mounted WATER_CIRCLE 0))
                 silentTick))
  /\ exists shard,
       In shard
          (paperShardsRef
             (after (render always09
                       (onModeChange always09 window1000 WATER_CIRCLE
                          (mounted WATER_CIRCLE 0))
                       silentTick)))
       /\ drawnInARow
            [ beginPath;
              moveTo (shard_x shard) (shard_y shard);
              lineTo (shard_x shard + fst (p1 shard)) (shard_y shard + snd (p1 shard));
              lineTo (shard_x shard + fst (p2 shard)) (shard_y shard + snd (p2 shard));
              fillStyle
                (LinearGradient (shard_x shard) (shard_y shard)
                                (shard_x shard + 50) (shard_y shard + 50)
                   [ (0, if isLight shard
                         then rgba 255 255 255 (opacity shard)
                         else rgba 0 0 0 (opacity shard));
                     (1, if isLight shard
                         then rgba 255 255 255 0 else rgba 0 0 0 0) ]);
              fill ]
            (frame (render always09
                      (onModeChange always09 window1000 WATER_CIRCLE
                         (mounted WATER_CIRCLE 0))
                      silentTick)).
Proof.
  destruct (C6_silent_ink_frame always09
              (onModeChange always09 window1000 WATER_CIRCLE (mounted WATER_CIRCLE 0))
              silentTick 1024)
    as (Hzero & _ & Hpool & _ & _ & Hshards & _ & Hsome).
  - reflexivity.
  - reflexivity.
  - lia.
  - split; [apply (Hzero 0%nat); unfold bars; lia|].
    split.
    + replace (hueWobble 0)
        with (hueWobble
                (elapsed (onModeChange always09 window1000 WATER_CIRCLE
                            (mounted WATER_CIRCLE 0)) silentTick)).
      * exact Hpool.
      * f_equal. unfold elapsed. cbn. lra.
    + assert (Hne : paperShardsRef
                      (onModeChange always09 window1000 WATER_CIRCLE
                         (mounted WATER_CIRCLE 0)) <> []).
      { intros Hnil. apply (f_equal (@length PaperShard)) in Hnil.
        discriminate Hnil. }
      destruct (nonempty_has_element _ (Hsome Hne)) as [shard Hin].
      exists shard. split; [exact Hin | apply Hshards; exact Hin].
Defined.

(** The inward bar of the first slot of a full-scale frame on a surface of 900
    by 900: the ring starts at 237.8, the safe radius is 176.7, the bar is
    61.1 long. *)
Lemma C7_inward_bar_stops_at_the_pool_witness :
  poolSize 900 900 (bassLevel (repeat Byte.xff 1024)) + centerGap
  <= startRadius 900 900 (bassLevel (repeat Byte.xff 1024))
     + - inwardLen 900 900 (bassLevel (repeat Byte.xff 1024)) 440.1.
Proof.
  set (bass := bassLevel (repeat Byte.xff 1024)).
  assert (Hbass : bass = 1.445) by apply bassLevel_full_scale.
  assert (Hbase : radiusBase 900 900 = 200).
  { unfold radiusBase. rewrite Rmin_left by lra. lra. }
  assert (Hstart : startRadius 900 900 bass = 237.8).
  { unfold startRadius. rewrite Hbase, Hbass. lra. }
  assert (Hpool : poolSize 900 900 bass + centerGap = 176.7).
  { unfold poolSize, centerGap. rewrite Hbase, Hbass. lra. }
  assert (Hin : inwardLen 900 900 bass 440.1 = 61.1).
  { unfold inwardLen, maxInwardLen, safeInnerRadius. rewrite Hstart, Hpool. min_max. }
  assert (Hlen : inkLength (repeat Byte.xff 1024) 900 bass 0 = Some 440.1).
  { unfold inkLength, inkIndex, JS.get, JS.floor.
    simpl (INR 0). rewrite Rmult_0_l, (Int_part_small 0) by lra.
    simpl Z.to_nat. rewrite nth_error_repeat by lia.
    simpl option_map. f_equal.
    replace (JS.byteVal Byte.xff) with 255 by reflexivity.
    rewrite Hbass. replace (255 / 255 * (255 / 255)) with 1 by lra.
    rewrite Rmax_right by lra. lra. }
  assert (Hframe :
    In (rect (- (2 * PI * radiusBase 900 900 / INR bars * 0.5) / 2)
             (startRadius 900 900 bass)
             (2 * PI * radiusBase 900 900 / INR bars * 0.5)
             (- inwardLen 900 900 bass 440.1))
       (frame (render always09
                 (onModeChange always09 window1000 WATER_CIRCLE
                    (mounted WATER_CIRCLE 0))
                 loudTick900))).
  { rewrite render_waterCircle by reflexivity.
    unfold renderWaterCircle. cbn [frame].
    apply in_or_app. left. do 7 (apply in_or_app; right). apply in_or_app. left.
    apply in_flat_map. exists 0%nat.
    split; [apply in_seq; unfold bars; lia|].
    apply (inkBar_draws_inward_rect (repeat Byte.xff 1024) 900 900 _ _ bass 0 440.1).
    - exact Hlen.
    - rewrite Hin. lra. }
  destruct (C7_inward_bar_stops_at_the_pool always09
              (onModeChange always09 window1000 WATER_CIRCLE (mounted WATER_CIRCLE 0))
              loudTick900 _ _ _ _ eq_refl Hframe)
    as (i & len & _ & _ & _ & _ & _ & Hend & _).
  - rewrite Hin. lra.
  - exact Hend.
Defined.

(** A frame of WAVE mode with the 2048 samples of the analyser. *)
Lemma C8_wave_frame_witness :
  frameHues (frame (render always09 (mounted WAVE 0) loudTick))
  = [dynamicHue 0 (hueWobble (elapsed (mounted WAVE 0) loudTick))].
Proof.
  destruct (C8_wave_frame always09 (mounted WAVE 0) loudTick) as (_ & Hhue & _).
  - reflexivity.
  - unfold loudTick. cbn [frequencyData timeDomainData].
    rewrite !repeat_length. lia.
  - exact Hhue.
Defined.

(** WATERCOLOR, then NEBULA for two frames, then WATERCOLOR again. *)
Lemma C9_activation_is_idempotent_witness :
  watercolorBlobsRef
    (onModeChange always09 window1000 WATERCOLOR
       (run always09 (onModeChange always09 window1000 NEBULA watercolorStart)
            [loudTick; silentTick]))
  = watercolorBlobsRef watercolorStart.
Proof.
  destruct (C9_activation_is_idempotent always09 window1000 window1000
              WATERCOLOR NEBULA watercolorStart [loudTick; silentTick])
    as (_ & (_ & _ & Hback & _) & _).
  - discriminate.
  - intros Hnil. apply (f_equal (@length WatercolorBlob)) in Hnil.
    discriminate Hnil.
  - exact Hback.
Defined.


(** * Further properties of the engine *)

(** ** The range of the levels *)

Lemma byteVal_xff : JS.byteVal Byte.xff = 255.
Proof. reflexivity. Qed.

(** No array weighs more than the array of the same length at full scale. *)
Lemma weighted_le_full_scale (weight : nat -> R) (data : list byte) (i : nat) :
  (forall j, 0 <= weight j) ->
  weighted weight i data <= weighted weight i (repeat Byte.xff (length data)).
Proof.
  intros Hw. apply weighted_mono.
  - exact Hw.
  - apply repeat_length.
  - intros j x y Hx Hy.
    apply nth_error_In, repeat_spec in Hx. subst x.
    rewrite byteVal_xff. apply byteVal_range.
Qed.

(** Longer arrays at full scale weigh more. *)
Lemma weighted_full_scale_grows (weight : nat -> R) (n m : nat) :
  (forall j, 0 <= weight j) ->
  weighted weight 0 (repeat Byte.xff n)
  <= weighted weight 0 (repeat Byte.xff (n + m)).
Proof.
  intros Hw. rewrite repeat_app, weighted_app.
  pose proof (weighted_nonneg weight Hw (repeat Byte.xff m)
                (0 + length (repeat Byte.xff n))).
  lra.
Qed.

Lemma bass_total_bound (data : list byte) : weighted bassWeight 0 data <= 4335.
Proof.
  eapply Rle_trans; [apply weighted_le_full_scale, bassWeight_nonneg|].
  eapply Rle_trans;
    [apply (weighted_full_scale_grows bassWeight _ 20), bassWeight_nonneg|].
  rewrite Nat.add_comm, repeat_app, weighted_app.
  assert (Htail : weighted bassWeight (0 + length (repeat Byte.xff 20))
                           (repeat Byte.xff (length data)) = 0).
  { apply weighted_zero_from with (n := 20%nat).
    - intros i Hi. unfold bassWeight.
      destruct (Nat.ltb_spec i 5); [lia|]. destruct (Nat.ltb_spec i 20); [lia|].
      reflexivity.
    - rewrite repeat_length. simpl. lia. }
  rewrite Htail. unfold bassWeight. simpl. rewrite byteVal_xff. lra.
Qed.

Lemma mid_total_bound (data : list byte) : weighted midWeight 0 data <= 20400.
Proof.
  eapply Rle_trans; [apply weighted_le_full_scale, midWeight_nonneg|].
  eapply Rle_trans;
    [apply (weighted_full_scale_grows midWeight _ 100), midWeight_nonneg|].
  rewrite Nat.add_comm.
  change 100%nat with (20 + 80)%nat.
  rewrite <- Nat.add_assoc, repeat_app, weighted_app.
  rewrite (repeat_app Byte.xff 80), weighted_app.
  rewrite !repeat_length.
  assert (Hhead : weighted midWeight 0 (repeat Byte.xff 20) = 0).
  { apply weighted_zero_upto with (n := 20%nat).
    - intros i Hi. unfold midWeight.
      destruct (Nat.ltb_spec i 20); [reflexivity | lia].
    - rewrite repeat_length. simpl. lia. }
  assert (Htail : weighted midWeight (0 + 20 + 80)
                           (repeat Byte.xff (length data)) = 0).
  { apply weighted_zero_from with (n := 100%nat).
    - intros i Hi. unfold midWeight.
      destruct (Nat.ltb_spec i 20); [lia|]. destruct (Nat.ltb_spec i 100); [lia|].
      reflexivity.
    - simpl. lia. }
  assert (Hmid : weighted midWeight (0 + 20) (repeat Byte.xff 80) = 20400).
  { rewrite weighted_repeat.
    - rewrite byteVal_xff.
      replace (INR 80) with 80 by (rewrite INR_IZR_INZ; reflexivity).
      unfold midWeight. simpl. lra.
    - intros j Hj. simpl in Hj. unfold midWeight. simpl.
      destruct (Nat.ltb_spec j 20); [lia|]. destruct (Nat.ltb_spec j 100); [|lia].
      reflexivity. }
  rewrite Hhead, Hmid, Htail. lra.
Qed.

Lemma high_total_bound (data : list byte) :
  (100 <= length data)%nat ->
  weighted highWeight 0 data <= 255 * (INR (length data) - 100).
Proof.
  intros Hlen.
  eapply Rle_trans; [apply weighted_le_full_scale, highWeight_nonneg|].
  replace (length data) with (100 + (length data - 100))%nat at 1 by lia.
  rewrite repeat_app, weighted_app.
  rewrite repeat_length.
  assert (Hhead : weighted highWeight 0 (repeat Byte.xff 100) = 0).
  { apply weighted_zero_upto with (n := 100%nat).
    - intros i Hi. unfold highWeight.
      destruct (Nat.ltb_spec i 100); [reflexivity | lia].
    - rewrite repeat_length. simpl. lia. }
  rewrite Hhead, weighted_repeat.
  - rewrite byteVal_xff, minus_INR by exact Hlen.
    replace (INR 100) with 100 by (rewrite INR_IZR_INZ; reflexivity).
    unfold highWeight. simpl. lra.
  - intros j Hj. simpl in Hj. unfold highWeight. simpl.
    destruct (Nat.ltb_spec j 100); [lia | reflexivity].
Qed.

Lemma bassLevel_le (data : list byte) : bassLevel data <= 1.445.
Proof.
  unfold bassLevel, bassAvg.
  destruct (bandTotals_weighted data) as (Hb & _ & _). rewrite Hb.
  pose proof (bass_total_bound data) as Hle.
  pose proof (weighted_nonneg bassWeight bassWeight_nonneg data 0) as Hge.
  set (total := weighted bassWeight 0 data) in *.
  assert (0 <= total / 20 / 255 <= 0.85) by lra.
  simpl. nra.
Qed.

(** X1: whatever the spectrum, [bassLevel] lies in [[0, 1.445]] and
    [midLevel] in [[0, 1]]; with more than 100 bins [highLevel] is defined
    and lies in [[0, 1]]. *)
Theorem X1_levels_are_bounded (data : list byte) :
  0 <= bassLevel data <= 1.445
  /\ 0 <= midLevel data <= 1
  /\ ((100 < length data)%nat ->
      exists high, highLevel data = Some high /\ 0 <= high <= 1).
Proof.
  split; [split; [apply bassLevel_nonneg | apply bassLevel_le]|].
  split.
  - split; [apply midLevel_nonneg|].
    unfold midLevel, lowMidAvg.
    destruct (bandTotals_weighted data) as (_ & Hm & _). rewrite Hm.
    pose proof (mid_total_bound data). lra.
  - intros Hlen.
    assert (Hne : length data <> 100%nat) by lia.
    exists (weighted highWeight 0 data / (INR (length data) - 100) / 255).
    split; [unfold highLevel; rewrite (highAvg_defined data Hne); reflexivity|].
    pose proof (weighted_nonneg highWeight highWeight_nonneg data 0) as Hge.
    pose proof (high_total_bound data ltac:(lia)) as Hle.
    assert (Hpos : 0 < INR (length data) - 100).
    { change 100 with (IZR (Z.of_nat 100)). rewrite <- INR_IZR_INZ.
      apply lt_INR in Hlen. lra. }
    set (total := weighted highWeight 0 data) in *.
    set (d := INR (length data) - 100) in *.
    assert (Hq : 0 <= total / d <= 255).
    { split.
      - apply Rmult_le_pos; [lra | left; apply Rinv_0_lt_compat; lra].
      - apply Rmult_le_reg_r with d; [lra|].
        unfold Rdiv. rewrite Rmult_assoc, Rinv_l by lra. lra. }
    lra.
Qed.

(** ** What a frame does to the state *)

Section Lifecycle.

Variable random : nat -> R.

Lemma handleResize_other_modes (s : State) (t : Tick) :
  modeRef s <> NEURAL -> modeRef s <> WATER_CIRCLE ->
  paperShardsRef (handleResize random s t) = paperShardsRef s
  /\ noiseCanvasRef (handleResize random s t) = noiseCanvasRef s
  /\ drawn (handleResize random s t) = drawn s.
Proof.
  intros Hn Hw. unfold handleResize.
  destruct (negb (canvasWidth s =? clientWidth t)%Z
            || negb (canvasHeight s =? clientHeight t)%Z);
    [|repeat split].
  cbn [modeRef set_canvasSize].
  destruct (modeRef s); try contradiction; repeat split.
Qed.

(** The fields after a frame, mode by mode. *)
Lemma render_after (s : State) (t : Tick) :
  let s1 := handleResize random s t in
  let s' := after (render random s t) in
  let WIDTH := IZR (clientWidth t) in
  let HEIGHT := IZR (clientHeight t) in
  let bass := bassLevel (frequencyData t) in
  neuralNodesRef s'
  = (if VisualizerMode_eqb (modeRef s) NEURAL
     then map (moveNode WIDTH HEIGHT bass) (neuralNodesRef s)
     else neuralNodesRef s)
  /\ paperShardsRef s'
     = (if VisualizerMode_eqb (modeRef s) NEURAL
           || VisualizerMode_eqb (modeRef s) WATER_CIRCLE
        then map (moveShard WIDTH HEIGHT) (paperShardsRef s1)
        else paperShardsRef s)
  /\ noiseCanvasRef s' = noiseCanvasRef s1
  /\ watercolorBlobsRef s'
     = (if VisualizerMode_eqb (modeRef s) WATERCOLOR
        then blobs_after
               (blobsLoop WIDTH HEIGHT (colorShiftRef s) (hueWobble (elapsed s t))
                          bass (midLevel (frequencyData t))
                          (highLevel (frequencyData t)) 0 (watercolorBlobsRef s))
        else watercolorBlobsRef s)
  /\ nebulaStarsRef s' = nebulaStarsRef s
  /\ drawn s'
     = (if VisualizerMode_eqb (modeRef s) NEURAL then drawn s1 + 2 else drawn s1)%nat
  /\ canvasWidth s' = clientWidth t
  /\ canvasHeight s' = clientHeight t.
Proof.
  intros s1 s' WIDTH HEIGHT bass.
  destruct (handleResize_refs random s t)
    as (Hm & Hc & Hr & Hst & Hnodes & Hblobs & Hstars).
  destruct (handleResize_size random s t) as (Hw & Hh).
  pose proof (elapsed_handleResize random s t) as He.
  pose proof (handleResize_other_modes s t) as Hother.
  fold s1 in Hm, Hc, Hr, Hst, Hnodes, Hblobs, Hstars, Hw, Hh, He, Hother.
  unfold s', render. fold s1. cbn [modeRef set_rotationRef].
  rewrite Hm, Hc, Hw, Hh, He. fold WIDTH HEIGHT bass.
  destruct (modeRef s) eqn:Hmode; cbn [VisualizerMode_eqb orb];
    unfold renderNeural, renderWatercolor, renderWaterCircle, renderNebula;
    try destruct (highLevel (frequencyData t));
    cbn [after neuralNodesRef paperShardsRef noiseCanvasRef watercolorBlobsRef
         nebulaStarsRef drawn canvasWidth canvasHeight
         set_neuralNodes set_paperShards set_watercolorBlobs set_rotationRef];
    rewrite ?nodesLoop_nodes, ?Hnodes, ?Hblobs, ?Hstars, ?Hw, ?Hh;
    try (destruct Hother as (Hs & Hn & Hd); [discriminate | discriminate |]);
    repeat split; try reflexivity; try assumption.
Qed.


(** *** The fields keep their size and their parameter ranges *)

Lemma moveNode_sane (WIDTH HEIGHT bass : R) (node : NeuralNode) :
  nodeSane node -> nodeSane (moveNode WIDTH HEIGHT bass node).
Proof. intros H. exact H. Qed.

Lemma moveShard_sane (WIDTH HEIGHT : R) (shard : PaperShard) :
  shardSane shard -> shardSane (moveShard WIDTH HEIGHT shard).
Proof. intros H. exact H. Qed.

Lemma moveBlob_sane (WIDTH HEIGHT bass : R) (blob : WatercolorBlob) :
  blobSane blob -> blobSane (moveBlob WIDTH HEIGHT bass blob).
Proof.
  intros (Hvx & Hvy & Hr & Hc). unfold blobSane, moveBlob. cbn.
  repeat split; try apply Hr; try apply Hc.
  - destruct (ltb _ (-100) || gtb _ (WIDTH + 100)); [|exact Hvx].
    replace (blob_vx blob * -1) with (- blob_vx blob) by lra.
    rewrite Rabs_Ropp. exact Hvx.
  - destruct (ltb _ (-100) || gtb _ (HEIGHT + 100)); [|exact Hvy].
    replace (blob_vy blob * -1) with (- blob_vy blob) by lra.
    rewrite Rabs_Ropp. exact Hvy.
Qed.

(** The loop over the blobs, finished or not, keeps their number and their
    ranges. *)
Lemma blobsLoop_sane (WIDTH HEIGHT globalHueShift wobble bass mid : R)
    (high : option R) (blobs : list WatercolorBlob) : forall i,
  let result :=
    blobsLoop WIDTH HEIGHT globalHueShift wobble bass mid high i blobs in
  length (blobs_after result) = length blobs
  /\ (Forall blobSane blobs -> Forall blobSane (blobs_after result)).
Proof.
  induction blobs as [| blob rest IH]; intros i; cbn [blobsLoop].
  - split; [reflexivity | intros H; exact H].
  - destruct (react i bass mid high) as [re |]; cbn [blobs_after length].
    + destruct (IH (S i)) as [Hlen Hall]. split; [rewrite Hlen; reflexivity|].
      intros Hsane. inversion Hsane as [| ? ? Hb Hrest]; subst.
      constructor; [apply moveBlob_sane; exact Hb | apply Hall; exact Hrest].
    + split; [reflexivity|].
      intros Hsane. inversion Hsane as [| ? ? Hb Hrest]; subst.
      constructor; [apply moveBlob_sane; exact Hb | exact Hrest].
Qed.

Section Ranges.

Hypothesis random_range : forall k, 0 <= random k < 1.

Lemma centred_range (k : nat) (scale : R) :
  0 <= scale -> Rabs ((random k - 0.5) * scale) <= scale / 2.
Proof.
  intros Hs. pose proof (random_range k).
  unfold Rabs. destruct (Rcase_abs _); nra.
Qed.

Lemma newNeuralNode_sane (w h : R) (k : nat) : nodeSane (newNeuralNode random w h k).
Proof.
  unfold nodeSane, newNeuralNode. cbn.
  pose proof (centred_range (k + 2) 0.5). pose proof (centred_range (k + 3) 0.5).
  pose proof (random_range (k + 4)).
  repeat split; lra.
Qed.

Lemma newWatercolorBlob_sane (win : Window) (k : nat) :
  blobSane (newWatercolorBlob random win k).
Proof.
  unfold blobSane, newWatercolorBlob. cbn.
  pose proof (centred_range (k + 4) 0.5). pose proof (centred_range (k + 5) 0.5).
  pose proof (random_range (k + 2)). pose proof (random_range (k + 3)).
  repeat split; lra.
Qed.

Lemma newNebulaStar_sane (win : Window) (k : nat) :
  starSane (newNebulaStar random win k).
Proof.
  unfold starSane, newNebulaStar. cbn.
  pose proof (random_range (k + 2)). pose proof (random_range (k + 3)).
  repeat split; lra.
Qed.

Lemma newPaperShard_sane (w h : R) (k : nat) : shardSane (newPaperShard random w h k).
Proof.
  unfold shardSane, newPaperShard. cbn.
  pose proof (random_range k) as Hk.
  assert (Hsize : 0 <= random k * 300 + 100) by lra.
  pose proof (centred_range (k + 1) _ Hsize).
  pose proof (centred_range (k + 2) _ Hsize).
  pose proof (centred_range (k + 3) _ Hsize).
  pose proof (centred_range (k + 4) _ Hsize).
  pose proof (centred_range (k + 8) 0.2). pose proof (centred_range (k + 9) 0.2).
  pose proof (random_range (k + 10)).
  repeat split; try lra;
    destruct (gtb (random (k + 5)) 0.5); lra.
Qed.

Lemma initNeuralNodes_sane (win : Window) (s : State) :
  fieldsSane s -> fieldsSane (initNeuralNodes random win s).
Proof.
  intros (_ & _ & Hrest). unfold fieldsSane, initNeuralNodes.
  cbn [neuralNodesRef watercolorBlobsRef nebulaStarsRef paperShardsRef set_neuralNodes].
  split; [right; rewrite length_map, length_seq; reflexivity|].
  split; [|exact Hrest].
  apply Forall_map, Forall_forall. intros i _. apply newNeuralNode_sane.
Qed.

Lemma initWatercolorBlobs_sane (win : Window) (s : State) :
  fieldsSane s -> fieldsSane (initWatercolorBlobs random win s).
Proof.
  intros (Hn1 & Hn2 & _ & _ & Hrest). unfold fieldsSane, initWatercolorBlobs.
  cbn [neuralNodesRef watercolorBlobsRef nebulaStarsRef paperShardsRef
       set_watercolorBlobs].
  split; [exact Hn1|]. split; [exact Hn2|].
  split; [right; rewrite length_map, length_seq; reflexivity|].
  split; [|exact Hrest].
  apply Forall_map, Forall_forall. intros i _. apply newWatercolorBlob_sane.
Qed.

Lemma initNebulaStars_sane (win : Window) (s : State) :
  fieldsSane s -> fieldsSane (initNebulaStars random win s).
Proof.
  intros (Hn1 & Hn2 & Hb1 & Hb2 & _ & _ & Hrest). unfold fieldsSane, initNebulaStars.
  cbn [neuralNodesRef watercolorBlobsRef nebulaStarsRef paperShardsRef
       set_nebulaStars].
  split; [exact Hn1|]. split; [exact Hn2|]. split; [exact Hb1|]. split; [exact Hb2|].
  split; [right; rewrite length_map, length_seq; reflexivity|].
  split; [|exact Hrest].
  apply Forall_map, Forall_forall. intros i _. apply newNebulaStar_sane.
Qed.

Lemma initPaperShards_sane (win : Window) (s : State) :
  fieldsSane s -> fieldsSane (initPaperShards random win s).
Proof.
  intros (Hn1 & Hn2 & Hb1 & Hb2 & Hs1 & Hs2 & _ & _).
  unfold fieldsSane, initPaperShards.
  cbn [neuralNodesRef watercolorBlobsRef nebulaStarsRef paperShardsRef
       set_paperShards].
  split; [exact Hn1|]. split; [exact Hn2|]. split; [exact Hb1|]. split; [exact Hb2|].
  split; [exact Hs1|]. split; [exact Hs2|].
  split; [right; rewrite length_map, length_seq; reflexivity|].
  apply Forall_map, Forall_forall. intros i _. apply newPaperShard_sane.
Qed.

Lemma set_modeRef_sane (mode : VisualizerMode) (s : State) :
  fieldsSane s -> fieldsSane (set_modeRef mode s).
Proof. intros H. exact H. Qed.

Lemma onModeChange_sane (win : Window) (mode : VisualizerMode) (s : State) :
  fieldsSane s -> fieldsSane (onModeChange random win mode s).
Proof.
  intros Hsane. unfold onModeChange.
  repeat match goal with
         | |- context [if ?c then _ else _] => destruct c
         end;
    repeat first [ apply initNeuralNodes_sane | apply initWatercolorBlobs_sane
                 | apply initNebulaStars_sane | apply initPaperShards_sane
                 | apply set_modeRef_sane ];
    exact Hsane.
Qed.

Lemma startEffect_sane (win : Window) (mode : VisualizerMode) (now : R) (s : State) :
  fieldsSane s -> fieldsSane (startEffect random win mode now s).
Proof.
  intros Hsane. unfold startEffect.
  assert (Hst : forall s0, fieldsSane s0 -> fieldsSane (set_startTime now s0))
    by (intros s0 H; exact H).
  apply Hst.
  repeat match goal with
         | |- context [if ?c then _ else _] => destruct c
         end;
    repeat first [ apply initNeuralNodes_sane | apply initWatercolorBlobs_sane
                 | apply initNebulaStars_sane | apply initPaperShards_sane ];
    exact Hsane.
Qed.

Lemma handleResize_sane (s : State) (t : Tick) :
  fieldsSane s -> fieldsSane (handleResize random s t).
Proof.
  intros Hsane. unfold handleResize.
  assert (Hsz : forall w h s0, fieldsSane s0 -> fieldsSane (set_canvasSize w h s0))
    by (intros w h s0 H; exact H).
  repeat match goal with
         | |- context [if ?c then _ else _] => destruct c
         end;
    repeat first [ apply initPaperShards_sane | apply Hsz ]; exact Hsane.
Qed.

Lemma render_sane (s : State) (t : Tick) :
  fieldsSane s -> fieldsSane (after (render random s t)).
Proof.
  intros Hsane.
  pose proof (handleResize_sane s t Hsane) as Hsane1.
  destruct Hsane as (Hn1 & Hn2 & Hb1 & Hb2 & Hs1 & Hs2 & Hp1 & Hp2).
  destruct Hsane1 as (_ & _ & _ & _ & _ & _ & Hq1 & Hq2).
  destruct (render_after s t) as (En & Ep & _ & Eb & Es & _).
  cbv zeta in En, Ep, Eb, Es.
  unfold fieldsSane. rewrite En, Ep, Eb, Es.
  split; [|split; [|split; [|split; [|split; [|split; [|split]]]]]];
    try assumption.
  - destruct (VisualizerMode_eqb (modeRef s) NEURAL); [|exact Hn1].
    destruct Hn1 as [-> | Hlen]; [left; reflexivity | right].
    rewrite length_map. exact Hlen.
  - destruct (VisualizerMode_eqb (modeRef s) NEURAL); [|exact Hn2].
    apply Forall_map. eapply Forall_impl; [|exact Hn2].
    intros node H. exact H.
  - destruct (VisualizerMode_eqb (modeRef s) WATERCOLOR); [|exact Hb1].
    match goal with |- context [blobsLoop ?W ?H ?g ?w ?b ?m ?hi 0 ?l] =>
      destruct (blobsLoop_sane W H g w b m hi l 0) as [Hlen _] end.
    cbv zeta in Hlen.
    destruct Hb1 as [Hnil | H7].
    + left. rewrite Hnil in *. apply length_zero_iff_nil. exact Hlen.
    + right. rewrite Hlen. exact H7.
  - destruct (VisualizerMode_eqb (modeRef s) WATERCOLOR); [|exact Hb2].
    match goal with |- context [blobsLoop ?W ?H ?g ?w ?b ?m ?hi 0 ?l] =>
      destruct (blobsLoop_sane W H g w b m hi l 0) as [_ Hall] end.
    apply Hall. exact Hb2.
  - destruct (VisualizerMode_eqb (modeRef s) NEURAL
              || VisualizerMode_eqb (modeRef s) WATER_CIRCLE); [|exact Hp1].
    destruct Hq1 as [-> | Hlen]; [left; reflexivity | right].
    rewrite length_map. exact Hlen.
  - destruct (VisualizerMode_eqb (modeRef s) NEURAL
              || VisualizerMode_eqb (modeRef s) WATER_CIRCLE); [|exact Hp2].
    apply Forall_map. eapply Forall_impl; [|exact Hq2].
    intros shard H. exact H.
Qed.


(** *** The active mode always has its fields *)

Lemma length_of_nonempty {A : Type} (l : list A) (n : nat) :
  isEmpty l = false -> l = [] \/ length l = n -> length l = n.
Proof.
  intros Hne [-> | H]; [discriminate | exact H].
Qed.

Lemma modeChange_ready (win : Window) (mode : VisualizerMode) (s : State) :
  fieldsSane s -> modeReady (onModeChange random win mode s).
Proof.
  intros Hsane.
  pose proof (onModeChange_sane win mode s Hsane)
    as (Hn & _ & Hb & _ & Hs & _ & Hp & _).
  destruct (onModeChange_fields random win mode s) as (Hm & Fn & Fb & Fs & Fp).
  cbv zeta in *. unfold modeReady. rewrite Hm.
  destruct mode; try exact I.
  - destruct (Fn eq_refl) as [En Ep].
    split; eapply length_of_nonempty; eassumption.
  - eapply length_of_nonempty; [apply Fb; reflexivity | exact Hb].
  - eapply length_of_nonempty; [apply Fs; reflexivity | exact Hs].
  - eapply length_of_nonempty; [apply Fp; reflexivity | exact Hp].
Qed.

Lemma startEffect_mode (win : Window) (mode : VisualizerMode) (now : R) (s : State) :
  modeRef (startEffect random win mode now s) = modeRef s.
Proof.
  unfold startEffect.
  repeat match goal with
         | |- context [if ?c then _ else _] => destruct c
         end; reflexivity.
Qed.

Lemma startEffect_ready (win : Window) (now : R) (s : State) :
  modeReady s -> modeReady (startEffect random win (modeRef s) now s).
Proof.
  unfold modeReady. rewrite startEffect_mode.
  destruct (modeRef s) eqn:Hmode; try (intros _; exact I);
    unfold startEffect; cbn [VisualizerMode_eqb orb andb].
  - intros [Hn Hp].
    cbn [paperShardsRef initNeuralNodes set_neuralNodes].
    destruct (paperShardsRef s) as [| shard rest] eqn:Hshards; [discriminate Hp|].
    cbn [isEmpty neuralNodesRef paperShardsRef set_startTime set_neuralNodes
         initNeuralNodes].
    rewrite Hshards. split; [reflexivity | exact Hp].
  - intros _. reflexivity.
  - intros _. reflexivity.
  - intros Hp.
    destruct (paperShardsRef s) as [| shard rest] eqn:Hshards; [discriminate Hp|].
    cbn [isEmpty paperShardsRef set_startTime]. rewrite Hshards. exact Hp.
Qed.

Lemma handleResize_shard_count (s : State) (t : Tick) :
  length (paperShardsRef s) = 150%nat ->
  length (paperShardsRef (handleResize random s t)) = 150%nat.
Proof.
  intros Hlen. unfold handleResize.
  repeat match goal with
         | |- context [if ?c then _ else _] => destruct c
         end; try exact Hlen; reflexivity.
Qed.

Lemma render_ready (s : State) (t : Tick) :
  modeReady s -> modeReady (after (render random s t)).
Proof.
  destruct (render_refs random s t) as (Hm & _).
  destruct (render_after s t) as (En & Ep & _ & Eb & Es & _).
  cbv zeta in Hm, En, Ep, Eb, Es.
  unfold modeReady. rewrite Hm, En, Ep, Eb, Es.
  destruct (modeRef s); cbn [VisualizerMode_eqb orb]; try (intros _; exact I).
  - intros [Hn Hp]. rewrite !length_map.
    split; [exact Hn | apply handleResize_shard_count; exact Hp].
  - intros Hb.
    match goal with |- context [blobsLoop ?W ?H ?g ?w ?b ?m ?hi 0 ?l] =>
      destruct (blobsLoop_sane W H g w b m hi l 0) as [Hlen _] end.
    cbv zeta in Hlen. rewrite Hlen. exact Hb.
  - intros Hs. exact Hs.
  - intros Hp. rewrite length_map. apply handleResize_shard_count. exact Hp.
Qed.

Lemma mounted_sane (mode : VisualizerMode) (colorShift : R) :
  fieldsSane (mounted mode colorShift).
Proof.
  unfold fieldsSane, mounted. cbn.
  repeat split; try (left; reflexivity); apply Forall_nil.
Qed.

(** Every event keeps both invariants. *)
Lemma events_keep_invariants (events : list Event) : forall s,
  fieldsSane s -> modeReady s ->
  fieldsSane (fold_left (applyEvent random) events s)
  /\ modeReady (fold_left (applyEvent random) events s).
Proof.
  induction events as [| e rest IH]; intros s Hsane Hready.
  - split; assumption.
  - cbn [fold_left]. apply IH; destruct e as [win mode | c | win now | t];
      cbn [applyEvent].
    + apply onModeChange_sane; exact Hsane.
    + exact Hsane.
    + apply startEffect_sane; exact Hsane.
    + apply render_sane; exact Hsane.
    + apply modeChange_ready; exact Hsane.
    + exact Hready.
    + apply startEffect_ready; exact Hready.
    + apply render_ready; exact Hready.
Qed.

Lemma reachable_invariants (s : State) :
  reachable random s -> fieldsSane s /\ modeReady s.
Proof.
  intros (win & mode & colorShift & events & ->).
  apply events_keep_invariants.
  - apply onModeChange_sane, mounted_sane.
  - apply modeChange_ready, mounted_sane.
Qed.

(** X2: in every state the component can reach, the fields the active mode
    draws exist with the size their initialiser gives them: 50 nodes and 150
    shards in NEURAL, 7 blobs in WATERCOLOR, 150 stars in NEBULA, 150 shards
    in WATER_CIRCLE.  No event (mode change, loop restart, frame, resize)
    leaves the active mode without its particles or changes their number. *)
Theorem X2_active_mode_has_its_fields (s : State) :
  reachable random s ->
  match modeRef s with
  | NEURAL => length (neuralNodesRef s) = 50%nat /\ length (paperShardsRef s) = 150%nat
  | WATERCOLOR => length (watercolorBlobsRef s) = 7%nat
  | NEBULA => length (nebulaStarsRef s) = 150%nat
  | WATER_CIRCLE => length (paperShardsRef s) = 150%nat
  | CIRCULAR | BARS | WAVE => True
  end.
Proof.
  intros Hreach. apply (reachable_invariants s Hreach).
Qed.

(** X3: in every state the component can reach, every particle still has the
    parameters in the ranges of its creation: nodes and blobs no faster than
    0.25 per axis, shards no faster than 0.1, node radius in [1, 3), blob
    radius in [180, 380) and base hue in [200, 260), star size in [1, 4) and
    base alpha in [0.1, 0.9), shard size in [100, 400) with both vertex
    offsets within half the size and opacity below 0.1 (light) or 0.05
    (dark). *)
Theorem X3_particle_parameters_stay_in_range (s : State) :
  reachable random s ->
  Forall nodeSane (neuralNodesRef s)
  /\ Forall blobSane (watercolorBlobsRef s)
  /\ Forall starSane (nebulaStarsRef s)
  /\ Forall shardSane (paperShardsRef s).
Proof.
  intros Hreach.
  destruct (reachable_invariants s Hreach)
    as ((_ & Hn & _ & Hb & _ & Hs & _ & Hp) & _).
  repeat split; assumption.
Qed.

(** X4: in every reachable state a frame of WATERCOLOR moves each blob by at
    most [0.25 * (1 + 5 * 1.445) = 2.05625] pixels along each axis, whatever
    the spectrum (of a length other than 100). *)
Theorem X4_blob_step_is_bounded (s : State) (t : Tick) :
  reachable random s ->
  modeRef s = WATERCOLOR ->
  length (frequencyData t) <> 100%nat ->
  Forall2 (fun blob blob' =>
             Rabs (blob_x blob' - blob_x blob) <= 2.05625
             /\ Rabs (blob_y blob' - blob_y blob) <= 2.05625)
          (watercolorBlobsRef s)
          (watercolorBlobsRef (after (render random s t))).
Proof.
  intros Hreach Hmode Hlen.
  destruct (reachable_invariants s Hreach) as ((_ & _ & _ & Hb & _) & _).
  destruct (render_blobs random s t Hmode Hlen) as [-> _].
  pose proof (bassLevel_nonneg (frequencyData t)) as Hb0.
  pose proof (bassLevel_le (frequencyData t)) as Hb1.
  set (bass := bassLevel (frequencyData t)) in *.
  induction Hb as [| blob rest (Hvx & Hvy & _) _ IH]; cbn [map].
  - constructor.
  - constructor; [|exact IH].
    unfold moveBlob. cbn [blob_x blob_y].
    replace (blob_x blob + blob_vx blob * (1 + bass * 5) - blob_x blob)
      with (blob_vx blob * (1 + bass * 5)) by lra.
    replace (blob_y blob + blob_vy blob * (1 + bass * 5) - blob_y blob)
      with (blob_vy blob * (1 + bass * 5)) by lra.
    rewrite !Rabs_mult, (Rabs_right (1 + bass * 5)) by nra.
    pose proof (Rabs_pos (blob_vx blob)). pose proof (Rabs_pos (blob_vy blob)).
    split; nra.
Qed.

End Ranges.

End Lifecycle.

(** ** The state of the context across a frame *)

Lemma ctxAfter_app (a b : list Call) (p : CtxState * list CtxState) :
  ctxAfter (a ++ b) p = ctxAfter b (ctxAfter a p).
Proof. unfold ctxAfter. apply fold_left_app. Qed.

Lemma ctxAfter_keeps (calls : list Call) : forall p,
  Forall keepsCtx calls -> ctxAfter calls p = p.
Proof.
  induction calls as [| c rest IH]; intros p Hall.
  - reflexivity.
  - inversion Hall as [| ? ? Hc Hrest]; subst.
    unfold ctxAfter in *. cbn [fold_left].
    rewrite IH by exact Hrest.
    destruct c; try contradiction; reflexivity.
Qed.

(** Calls between [save] and [restore] that only turn the context leave no
    trace. *)
Lemma ctxAfter_slot (a : R) (body : list Call) (p : CtxState * list CtxState) :
  Forall keepsCtx body ->
  ctxAfter ([save; rotate a] ++ body ++ [restore]) p = p.
Proof.
  intros Hbody. rewrite !ctxAfter_app, (ctxAfter_keeps body) by exact Hbody.
  destruct p as [cur stack]. reflexivity.
Qed.

Lemma ctxAfter_flat_map {A : Type} (f : A -> list Call) (l : list A) :
  (forall x p, ctxAfter (f x) p = p) ->
  forall p, ctxAfter (flat_map f l) p = p.
Proof.
  intros Hf. induction l as [| x rest IH]; intros p.
  - reflexivity.
  - cbn [flat_map]. rewrite ctxAfter_app, Hf. apply IH.
Qed.

(** Walk a list that is written out: its heads, its ends, its appends. *)
Ltac walk_calls :=
  repeat match goal with
         | |- Forall _ (_ :: _) => apply Forall_cons; [exact I|]
         | |- Forall _ [] => apply Forall_nil
         | |- Forall _ (_ ++ _) => apply Forall_app; split
         end.

Ltac keeps_ctx := walk_calls.

Lemma shardPath_keeps (shard : PaperShard) (from to : Color) :
  Forall keepsCtx (shardPath shard from to).
Proof. unfold shardPath. keeps_ctx. Qed.

Lemma neuralShard_keeps (baseHue : R) (shard : PaperShard) :
  Forall keepsCtx (neuralShard baseHue shard).
Proof. unfold neuralShard. destruct (isLight shard); apply shardPath_keeps. Qed.

Lemma paperShard_keeps (shard : PaperShard) : Forall keepsCtx (paperShard shard).
Proof. unfold paperShard. destruct (isLight shard); apply shardPath_keeps. Qed.

Lemma connection_keeps (baseHue bass distance : R) (node other : NeuralNode) :
  Forall keepsCtx (connection baseHue bass distance node other).
Proof. unfold connection. destruct (ltb _ _); keeps_ctx. Qed.

Lemma nodesLoop_keeps (WIDTH HEIGHT baseHue bass mid : R) (nodes : list NeuralNode) :
  Forall keepsCtx (snd (nodesLoop WIDTH HEIGHT baseHue bass mid nodes)).
Proof.
  induction nodes as [| node rest IH]; cbn [nodesLoop snd].
  - apply Forall_nil.
  - walk_calls; [|exact IH].
    apply Forall_flat_map, Forall_forall. intros other _. apply connection_keeps.
Qed.

Lemma blobsLoop_keeps (WIDTH HEIGHT globalHueShift wobble bass mid : R)
    (high : option R) (blobs : list WatercolorBlob) : forall i,
  Forall keepsCtx
    (blobs_calls (blobsLoop WIDTH HEIGHT globalHueShift wobble bass mid high i blobs)).
Proof.
  induction blobs as [| blob rest IH]; intros i; cbn [blobsLoop].
  - apply Forall_nil.
  - destruct (react i bass mid high); cbn [blobs_calls]; [|apply Forall_nil].
    unfold blobCalls. walk_calls. apply IH.
Qed.

Lemma glowLoop_keeps (bass mid : R) (shards : list PaperShard) : forall i,
  Forall keepsCtx (glowLoop bass mid i shards).
Proof.
  induction shards as [| shard rest IH]; intros i; cbn [glowLoop].
  - apply Forall_nil.
  - apply Forall_app. split; [|apply IH].
    destruct (isHighlight shard); [|apply Forall_nil].
    destruct (gtb _ 0.1); keeps_ctx.
Qed.

Lemma inkBar_ctx (dataArray : list byte)
    (WIDTH HEIGHT globalHueShift wobble bass : R) (i : nat)
    (p : CtxState * list CtxState) :
  ctxAfter (inkBar dataArray WIDTH HEIGHT globalHueShift wobble bass i) p = p.
Proof.
  unfold inkBar. apply ctxAfter_slot.
  destruct (inkLength dataArray HEIGHT bass i) as [len |]; [|apply Forall_nil].
  apply Forall_app. split.
  - destruct (gtb len 0); keeps_ctx.
  - destruct (gtb _ 0); keeps_ctx.
Qed.

Lemma circularBar_keeps (dataArray : list byte) (WIDTH HEIGHT hue bass : R) (i : nat) :
  Forall keepsCtx (circularBar dataArray WIDTH HEIGHT hue bass i).
Proof.
  unfold circularBar. walk_calls.
  destruct (circularBarHeight dataArray WIDTH HEIGHT i); walk_calls.
Qed.

Lemma barsLoop_keeps (WIDTH HEIGHT hue barWidth : R) (n : nat) (data : list byte) :
  forall i x, Forall keepsCtx (barsLoop WIDTH HEIGHT hue barWidth n i x data).
Proof.
  induction data as [| b rest IH]; intros i x; cbn [barsLoop].
  - apply Forall_nil.
  - walk_calls.
    destruct (gtb _ WIDTH); [apply Forall_nil | apply IH].
Qed.

Lemma waveLoop_keeps (HEIGHT sliceWidth : R) (data : list byte) :
  forall i x, Forall keepsCtx (waveLoop HEIGHT sliceWidth i x data).
Proof.
  induction data as [| b rest IH]; intros i x; cbn [waveLoop].
  - apply Forall_nil.
  - apply Forall_cons; [destruct (i =? 0)%nat; exact I | apply IH].
Qed.

Lemma renderClassic_keeps (mode : VisualizerMode) (dataArray timeDomain : list byte)
    (WIDTH HEIGHT globalHueShift wobble bass : R) :
  Forall keepsCtx
    (renderClassic mode dataArray timeDomain WIDTH HEIGHT globalHueShift wobble bass).
Proof.
  unfold renderClassic. walk_calls.
  destruct (VisualizerMode_eqb mode CIRCULAR).
  { unfold renderCircular. walk_calls.
    apply Forall_flat_map, Forall_forall. intros i _. apply circularBar_keeps. }
  destruct (VisualizerMode_eqb mode BARS).
  { unfold renderBars. apply barsLoop_keeps. }
  destruct (VisualizerMode_eqb mode WAVE); [|apply Forall_nil].
  unfold renderWave. walk_calls. apply waveLoop_keeps.
Qed.

Lemma watermark_ctx (mode : VisualizerMode) (WIDTH HEIGHT : R)
    (p : CtxState * list CtxState) :
  ctxAfter (watermark mode WIDTH HEIGHT) p = p.
Proof. destruct p as [cur stack]. reflexivity. Qed.

Lemma drawCloud_keeps (x y r h s l a : R) : Forall keepsCtx (drawCloud x y r h s l a).
Proof. unfold drawCloud. keeps_ctx. Qed.

Lemma starCalls_keeps (nowMs high : R) (star : NebulaStar) :
  Forall keepsCtx (starCalls nowMs high star).
Proof. unfold starCalls. keeps_ctx. Qed.

Lemma defaultCtx_source_over (a : R) (t : bool) :
  a = 1 -> t = false ->
  {| composite := "source-over"; alpha := a; transformed := t |} = defaultCtx.
Proof. intros -> ->. reflexivity. Qed.

Ltac keeps_solver :=
  solve [ walk_calls
        | apply nodesLoop_keeps | apply blobsLoop_keeps | apply glowLoop_keeps
        | apply renderClassic_keeps | apply drawCloud_keeps
        | apply Forall_flat_map, Forall_forall; intros ? _;
          first [ apply neuralShard_keeps | apply paperShard_keeps
                | apply starCalls_keeps ]
        | unfold inkPool; walk_calls ].

(** Drop from a frame the parts that leave the state alone. *)
Ltac ctx_simpl :=
  repeat match goal with
         | |- context [ctxAfter (?a ++ ?b) ?p] => rewrite (ctxAfter_app a b p)
         end;
  repeat match goal with
         | |- context [ctxAfter ?a ?p] =>
             rewrite (ctxAfter_keeps a p) by keeps_solver
         | |- context [ctxAfter (flat_map ?f ?l) ?p] =>
             rewrite (ctxAfter_flat_map f l ltac:(intros; apply inkBar_ctx) p)
         | |- context [ctxAfter (watermark ?m ?w ?h) ?p] =>
             rewrite (watermark_ctx m w h p)
         end.

Section ContextState.

Variable random : nat -> R.

Lemma renderNeural_ctx (WIDTH HEIGHT globalHueShift wobble bass mid : R) (s : State)
    (p : CtxState * list CtxState) :
  ctxAfter (frame (renderNeural random WIDTH HEIGHT globalHueShift wobble bass mid s)) p
  = p.
Proof.
  destruct p as [cur stack]. unfold renderNeural. cbn [frame].
  ctx_simpl. reflexivity.
Qed.

Lemma renderWaterCircle_ctx (dataArray : list byte)
    (WIDTH HEIGHT globalHueShift wobble bass mid : R) (s : State) :
  ctxAfter (frame (renderWaterCircle dataArray WIDTH HEIGHT globalHueShift wobble
                                     bass mid s))
           (defaultCtx, [])
  = (defaultCtx, []).
Proof.
  unfold renderWaterCircle. cbn [frame].
  destruct (gtb (Rmin 1 (bass * 0.8)) 0.05);
    destruct (noiseCanvasRef s) as [img |]; cbn [noiseOverlay];
    ctx_simpl; cbn [ctxAfter fold_left ctxStep fst snd composite alpha transformed
                    defaultCtx];
    f_equal; apply defaultCtx_source_over; try reflexivity; lra.
Qed.

Lemma renderWatercolor_ctx (WIDTH HEIGHT globalHueShift wobble bass mid : R)
    (high : option R) (s : State) :
  completed (renderWatercolor WIDTH HEIGHT globalHueShift wobble bass mid high s) = true ->
  ctxAfter (frame (renderWatercolor WIDTH HEIGHT globalHueShift wobble bass mid high s))
           (defaultCtx, [])
  = (defaultCtx, []).
Proof.
  unfold renderWatercolor. cbn [frame completed]. intros ->.
  ctx_simpl. reflexivity.
Qed.

Lemma renderNebula_ctx (WIDTH HEIGHT globalHueShift wobble bass mid : R)
    (high : option R) (nowMs : R) (s : State) :
  completed (renderNebula WIDTH HEIGHT globalHueShift wobble bass mid high nowMs s)
  = true ->
  ctxAfter (frame (renderNebula WIDTH HEIGHT globalHueShift wobble bass mid high nowMs s))
           (defaultCtx, [])
  = (defaultCtx, []).
Proof.
  unfold renderNebula. destruct high as [hi |]; cbn [frame completed];
    [intros _ | discriminate].
  ctx_simpl. cbn [ctxAfter fold_left ctxStep fst snd composite alpha transformed
                  defaultCtx].
  f_equal. apply defaultCtx_source_over; [lra | reflexivity].
Qed.

(** X5: a frame that completes leaves the context as a fresh context is:
    blend mode [source-over], global alpha 1, the transform untouched and no
    saved state left on the stack.  So every frame of the loop starts from
    that state, whatever mode drew the frame before. *)
Theorem X5_frame_restores_the_context (s : State) (t : Tick) :
  completed (render random s t) = true ->
  ctxAfter (frame (render random s t)) (defaultCtx, []) = (defaultCtx, []).
Proof.
  unfold render. cbn [frame completed].
  match goal with
  | |- context [match ?m with CIRCULAR => _ | _ => _ end] => destruct m
  end; intros Hdone; rewrite Hdone;
    match goal with
    | |- context [ctxAfter (?a ++ ?b) ?p] => rewrite (ctxAfter_app a b p)
    end; rewrite watermark_ctx.
  - cbn [frame]. apply ctxAfter_keeps, renderClassic_keeps.
  - cbn [frame]. apply ctxAfter_keeps, renderClassic_keeps.
  - cbn [frame]. apply ctxAfter_keeps, renderClassic_keeps.
  - apply renderNeural_ctx.
  - apply renderWatercolor_ctx. exact Hdone.
  - apply renderNebula_ctx. exact Hdone.
  - apply renderWaterCircle_ctx.
Qed.

End ContextState.

(** ** The shape of a frame *)

Section FrameShape.

Variable random : nat -> R.

(** [render] with the resize check resolved: the drawing of the mode at the
    size of the canvas box, then the watermark if the drawing completed. *)
Lemma render_unfold (s : State) (t : Tick) :
  let WIDTH := IZR (clientWidth t) in
  let HEIGHT := IZR (clientHeight t) in
  let globalHueShift := colorShiftRef s in
  let wobble := hueWobble (elapsed s t) in
  let bass := bassLevel (frequencyData t) in
  let mid := midLevel (frequencyData t) in
  let high := highLevel (frequencyData t) in
  let s2 := set_rotationRef (rotationRef s + (0.002 + bass * 0.005))
                            (handleResize random s t) in
  let drawing :=
    match modeRef s with
    | NEURAL => renderNeural random WIDTH HEIGHT globalHueShift wobble bass mid s2
    | WATERCOLOR => renderWatercolor WIDTH HEIGHT globalHueShift wobble bass mid high s2
    | WATER_CIRCLE =>
        renderWaterCircle (frequencyData t) WIDTH HEIGHT globalHueShift wobble bass mid s2
    | NEBULA => renderNebula WIDTH HEIGHT globalHueShift wobble bass mid high (now t) s2
    | CIRCULAR | BARS | WAVE =>
        {| after := s2;
           frame := renderClassic (modeRef s) (frequencyData t) (timeDomainData t)
                                  WIDTH HEIGHT globalHueShift wobble bass;
           completed := true |}
    end in
  render random s t
  = {| after := after drawing;
       frame := frame drawing
                ++ (if completed drawing then watermark (modeRef s) WIDTH HEIGHT else []);
       completed := completed drawing |}.
Proof.
  destruct (handleResize_refs random s t) as (Hm & Hc & Hr & _).
  destruct (handleResize_size random s t) as (Hw & Hh).
  pose proof (elapsed_handleResize random s t) as He.
  cbv zeta. unfold render. cbn [modeRef set_rotationRef].
  rewrite Hm, Hc, Hr, Hw, Hh, He.
  destruct (modeRef s); reflexivity.
Qed.

Lemma highLevel_defined (data : list byte) :
  length data <> 100%nat -> exists high, highLevel data = Some high.
Proof.
  intros Hlen. unfold highLevel. rewrite (highAvg_defined data Hlen).
  eexists. reflexivity.
Qed.

Lemma render_completes (s : State) (t : Tick) :
  length (frequencyData t) <> 100%nat
  \/ (modeRef s <> WATERCOLOR /\ modeRef s <> NEBULA) ->
  completed (render random s t) = true.
Proof.
  intros Hok. rewrite render_unfold. cbn [completed].
  destruct (modeRef s) eqn:Hmode; try reflexivity.
  - destruct Hok as [Hlen | [Hw _]]; [|contradiction].
    destruct (highLevel_defined _ Hlen) as [high ->].
    unfold renderWatercolor. cbn [completed]. apply blobsLoop_blobs.
  - destruct Hok as [Hlen | [_ Hn]]; [|contradiction].
    destruct (highLevel_defined _ Hlen) as [high ->]. reflexivity.
Qed.


End FrameShape.

(** ** The remainder behind every hue *)

Lemma trunc_bounds (x : R) :
  (0 <= x -> IZR (JS.trunc x) <= x < IZR (JS.trunc x) + 1)
  /\ (x <= 0 -> IZR (JS.trunc x) - 1 < x <= IZR (JS.trunc x)).
Proof.
  unfold JS.trunc. split; intros Hx.
  - destruct (Rle_dec 0 x) as [_ | Hn]; [|contradiction].
    destruct (base_Int_part x). lra.
  - destruct (Rle_dec 0 x) as [Hp | Hn].
    + assert (x = 0) by lra. subst x. rewrite (Int_part_small 0) by lra. simpl. lra.
    + destruct (base_Int_part (- x)). rewrite opp_IZR. lra.
Qed.

Lemma rem_range (a b : R) :
  0 < b ->
  - b < JS.rem a b < b
  /\ (0 <= a -> 0 <= JS.rem a b)
  /\ (a <= 0 -> JS.rem a b <= 0).
Proof.
  intros Hb.
  destruct (Req_dec a 0) as [-> | Hnz].
  { rewrite rem_small by lra. repeat split; intros; lra. }
  unfold JS.rem.
  destruct (trunc_bounds (a / b)) as [Hpos Hneg].
  assert (Hab : a = b * (a / b)) by (field; lra).
  set (q := a / b) in *. set (k := IZR (JS.trunc q)) in *.
  destruct (Rle_or_lt 0 a) as [Ha | Ha].
  - assert (Hq : 0 <= q).
    { unfold q, Rdiv. apply Rmult_le_pos; [exact Ha|].
      left. apply Rinv_0_lt_compat. exact Hb. }
    specialize (Hpos Hq).
    assert (b * k <= b * q) by (apply Rmult_le_compat_l; lra).
    assert (b * q < b * (k + 1)) by (apply Rmult_lt_compat_l; lra).
    repeat split; intros; lra.
  - assert (Hq : q <= 0).
    { assert (q < 0); [|lra].
      unfold q, Rdiv. replace 0 with (0 * / b) by lra.
      apply Rmult_lt_compat_r; [apply Rinv_0_lt_compat; exact Hb | exact Ha]. }
    specialize (Hneg Hq).
    assert (b * (k - 1) < b * q) by (apply Rmult_lt_compat_l; lra).
    assert (b * q <= b * k) by (apply Rmult_le_compat_l; lra).
    repeat split; intros; lra.
Qed.

(** X7: the base hue [(globalHueShift + hueWobble) % 360] always lies
    strictly between -360 and 360, has the sign of the sum, and differs from
    the sum by a whole number of turns: what reaches the context is the
    intended colour, normalised or not. *)
Theorem X7_hue_is_the_sum_up_to_whole_turns (globalHueShift wobble : R) :
  -360 < dynamicHue globalHueShift wobble < 360
  /\ (0 <= globalHueShift + wobble -> hueInRange (dynamicHue globalHueShift wobble))
  /\ (globalHueShift + wobble <= 0 -> dynamicHue globalHueShift wobble <= 0)
  /\ exists turns : Z,
       dynamicHue globalHueShift wobble = globalHueShift + wobble - 360 * IZR turns.
Proof.
  unfold dynamicHue, hueInRange.
  destruct (rem_range (globalHueShift + wobble) 360) as (Hr & Hp & Hn); [lra|].
  split; [exact Hr|]. split; [intros H; specialize (Hp H); lra|].
  split; [exact Hn|].
  exists (JS.trunc ((globalHueShift + wobble) / 360)). reflexivity.
Qed.

(** ** Hues of the modes with an offset *)

Ltac hue_call :=
  unfold callHuesInRange;
  cbn [callHues styleHues colorHue flat_map app snd inkBarGradient];
  repeat (apply Forall_cons; [assumption|]); apply Forall_nil.

Ltac hue_calls :=
  repeat match goal with
         | |- Forall _ (_ :: _) => apply Forall_cons; [hue_call|]
         | |- Forall _ [] => apply Forall_nil
         | |- Forall _ (_ ++ _) => apply Forall_app; split
         end.

Lemma wobble_bound (time : R) : -54 <= hueWobble time <= 54.
Proof. unfold hueWobble. pose proof (SIN_bound (time * 0.5)). lra. Qed.

Lemma hue_of_nonneg (a : R) : 0 <= a -> hueInRange (JS.rem a 360).
Proof. intros Ha. apply rem_nonneg; lra. Qed.

Lemma frameHues_in_range (calls : list Call) :
  Forall callHuesInRange calls -> Forall hueInRange (frameHues calls).
Proof.
  intros H. unfold frameHues. apply Forall_flat_map. exact H.
Qed.

Lemma shardPath_hues (shard : PaperShard) (from to : Color) :
  Forall hueInRange (colorHue from) -> Forall hueInRange (colorHue to) ->
  Forall callHuesInRange (shardPath shard from to).
Proof.
  intros Hf Ht. unfold shardPath.
  repeat match goal with
         | |- Forall _ (_ :: _) => apply Forall_cons
         | |- Forall _ [] => apply Forall_nil
         end; try (unfold callHuesInRange; cbn; apply Forall_nil).
  unfold callHuesInRange. cbn [callHues styleHues flat_map snd].
  apply Forall_app. split; [exact Hf|]. rewrite app_nil_r. exact Ht.
Qed.

Lemma watermark_hues (mode : VisualizerMode) (WIDTH HEIGHT : R) :
  Forall callHuesInRange (watermark mode WIDTH HEIGHT).
Proof.
  unfold watermark.
  destruct (VisualizerMode_eqb mode WATERCOLOR || VisualizerMode_eqb mode WATER_CIRCLE);
    hue_calls.
Qed.

Section Hues.

Variable random : nat -> R.

Variables globalHueShift time bass : R.
Hypothesis shift_nonneg : 0 <= globalHueShift.
Hypothesis bass_range : 0 <= bass <= 1.445.

Let wobble := hueWobble time.

Lemma nodesLoop_hues (WIDTH HEIGHT baseHue mid : R) (nodes : list NeuralNode) :
  hueInRange baseHue ->
  Forall callHuesInRange (snd (nodesLoop WIDTH HEIGHT baseHue bass mid nodes)).
Proof.
  intros Hbase. induction nodes as [| node rest IH]; cbn [nodesLoop snd].
  - apply Forall_nil.
  - hue_calls; [|exact IH].
    apply Forall_flat_map, Forall_forall. intros other _.
    unfold connection. destruct (ltb _ _); hue_calls.
Qed.

Lemma renderNeural_hues (WIDTH HEIGHT mid : R) (s : State) :
  Forall callHuesInRange
    (frame (renderNeural random WIDTH HEIGHT globalHueShift wobble bass mid s)).
Proof.
  pose proof (wobble_bound time) as Hw. fold wobble in Hw.
  assert (Hbase : hueInRange (JS.rem (220 + globalHueShift + wobble) 360))
    by (apply hue_of_nonneg; lra).
  unfold renderNeural. cbn [frame]. hue_calls.
  - apply Forall_flat_map, Forall_forall. intros shard _.
    unfold neuralShard.
    destruct (isLight shard); apply shardPath_hues; cbn [colorHue];
      (apply Forall_cons; [assumption | apply Forall_nil]).
  - apply nodesLoop_hues. exact Hbase.
Qed.

Lemma blobsLoop_hues (WIDTH HEIGHT mid : R) (high : option R)
    (blobs : list WatercolorBlob) : forall i,
  Forall (fun blob => 54 <= colorH blob) blobs ->
  Forall callHuesInRange
    (blobs_calls (blobsLoop WIDTH HEIGHT globalHueShift wobble bass mid high i blobs)).
Proof.
  pose proof (wobble_bound time) as Hw. fold wobble in Hw.
  induction blobs as [| blob rest IH]; intros i Hall; cbn [blobsLoop].
  - apply Forall_nil.
  - inversion Hall as [| ? ? Hb Hrest]; subst.
    destruct (react i bass mid high); cbn [blobs_calls]; [|apply Forall_nil].
    assert (Hh : hueInRange
                   (JS.rem (colorH (moveBlob WIDTH HEIGHT bass blob)
                            + globalHueShift + wobble) 360)).
    { apply hue_of_nonneg. cbn [colorH moveBlob]. lra. }
    unfold blobCalls. hue_calls. apply IH. exact Hrest.
Qed.

Lemma renderWatercolor_hues (WIDTH HEIGHT mid : R) (high : option R) (s : State) :
  Forall (fun blob => 54 <= colorH blob) (watercolorBlobsRef s) ->
  Forall callHuesInRange
    (frame (renderWatercolor WIDTH HEIGHT globalHueShift wobble bass mid high s)).
Proof.
  intros Hall. unfold renderWatercolor. cbn [frame]. hue_calls.
  - apply blobsLoop_hues. exact Hall.
  - destruct (blobs_done _); hue_calls.
Qed.

Lemma renderNebula_hues (WIDTH HEIGHT mid : R) (high : option R) (nowMs : R)
    (s : State) :
  Forall callHuesInRange
    (frame (renderNebula WIDTH HEIGHT globalHueShift wobble bass mid high nowMs s)).
Proof.
  pose proof (wobble_bound time) as Hw. fold wobble in Hw.
  assert (Hpurple : hueInRange (JS.rem (270 + globalHueShift + wobble) 360))
    by (apply hue_of_nonneg; lra).
  assert (Hpink : hueInRange (JS.rem (320 + globalHueShift + wobble) 360))
    by (apply hue_of_nonneg; lra).
  assert (Hblue : hueInRange (JS.rem (230 + globalHueShift + wobble) 360))
    by (apply hue_of_nonneg; lra).
  unfold renderNebula, drawCloud.
  destruct high as [hi |]; cbn [frame]; hue_calls.
  apply Forall_flat_map, Forall_forall. intros star _.
  unfold starCalls. hue_calls.
Qed.

Lemma renderWaterCircle_hues (dataArray : list byte) (WIDTH HEIGHT mid : R)
    (s : State) :
  Forall callHuesInRange
    (frame (renderWaterCircle dataArray WIDTH HEIGHT globalHueShift wobble bass mid s)).
Proof.
  pose proof (wobble_bound time) as Hw. fold wobble in Hw.
  assert (Hpool : hueInRange
                    (JS.rem (200 + globalHueShift + wobble - bass * 30) 360))
    by (apply hue_of_nonneg; lra).
  unfold renderWaterCircle. cbn [frame]. hue_calls.
  - apply Forall_flat_map, Forall_forall. intros shard _.
    unfold paperShard.
    destruct (isLight shard); apply shardPath_hues; cbn [colorHue]; apply Forall_nil.
  - unfold noiseOverlay. destruct (noiseCanvasRef s); hue_calls.
  - destruct (gtb _ 0.05); [|apply Forall_nil].
    generalize 0%nat.
    induction (map (moveShard WIDTH HEIGHT) (paperShardsRef s)) as [| shard rest IH];
      intros i; cbn [glowLoop]; [apply Forall_nil|].
    apply Forall_app. split; [|apply IH].
    destruct (isHighlight shard); [|apply Forall_nil].
    destruct (gtb _ 0.1); hue_calls.
  - unfold inkPool. hue_calls.
  - apply Forall_flat_map, Forall_forall. intros i _.
    assert (Hbar : hueInRange
                     (JS.rem (180 + INR i / INR bars * 60 + globalHueShift + wobble)
                             360)).
    { apply hue_of_nonneg. rewrite INR_bars. pose proof (pos_INR i). lra. }
    unfold inkBar. hue_calls.
    destruct (inkLength dataArray HEIGHT bass i) as [len |]; [|apply Forall_nil].
    hue_calls.
    + destruct (gtb len 0); hue_calls.
    + destruct (gtb _ 0); hue_calls.
Qed.

End Hues.

Section HuesOfFrames.

Variable random : nat -> R.

(** X8: in NEURAL, WATERCOLOR, NEBULA and WATER_CIRCLE every hue of a frame
    lies in [[0, 360)], for every hue shift from 0 up and every spectrum and
    time, the blobs having a base hue of at least 54 (they are created with
    one of 200 or more): the offsets of these modes keep the sum under [%]
    from ever being negative. *)
Theorem X8_offset_modes_normalise_their_hues (s : State) (t : Tick) :
  modeRef s <> CIRCULAR -> modeRef s <> BARS -> modeRef s <> WAVE ->
  0 <= colorShiftRef s ->
  Forall (fun blob => 54 <= colorH blob) (watercolorBlobsRef s) ->
  Forall hueInRange (frameHues (frame (render random s t))).
Proof.
  intros Hc Hb Hw Hshift Hblobs.
  assert (Hbass : 0 <= bassLevel (frequencyData t) <= 1.445)
    by (split; [apply bassLevel_nonneg | apply bassLevel_le]).
  apply frameHues_in_range. rewrite render_unfold. cbn [frame].
  destruct (handleResize_refs random s t) as (_ & _ & _ & _ & _ & Hsame & _).
  apply Forall_app. split.
  - destruct (modeRef s); try contradiction.
    + apply renderNeural_hues; assumption.
    + apply renderWatercolor_hues; try assumption.
      cbn [watercolorBlobsRef set_rotationRef]. rewrite Hsame. exact Hblobs.
    + apply renderNebula_hues; assumption.
    + apply renderWaterCircle_hues; assumption.
  - match goal with |- context [if ?c then _ else _] => destruct c end;
      [apply watermark_hues | apply Forall_nil].
Qed.

End HuesOfFrames.

(** ** NEURAL: connections and shake *)

Ltac walk_with tac :=
  repeat match goal with
         | |- Forall _ (_ :: _) => apply Forall_cons; [tac|]
         | |- Forall _ [] => apply Forall_nil
         | |- Forall _ (_ ++ _) => apply Forall_app; split
         end.

Lemma connection_alpha (baseHue bass distance : R) (node other : NeuralNode) :
  0 <= bass -> 0 < distance ->
  Forall (strokeAlphaWithin (0.3 + bass * 0.8))
         (connection baseHue bass distance node other).
Proof.
  intros Hbass Hdist. unfold connection, ltb.
  set (dx := node_x node - node_x other). set (dy := node_y node - node_y other).
  destruct (Rlt_dec (sqrt (dx * dx + dy * dy)) distance) as [Hnear |];
    [|apply Forall_nil].
  pose proof (sqrt_pos (dx * dx + dy * dy)) as Hpos.
  set (dist := sqrt (dx * dx + dy * dy)) in *.
  assert (Hq : 0 <= dist / distance < 1).
  { split.
    - apply Rmult_le_pos; [exact Hpos | left; apply Rinv_0_lt_compat; exact Hdist].
    - apply Rmult_lt_reg_r with distance; [exact Hdist|].
      unfold Rdiv. rewrite Rmult_assoc, Rinv_l by lra. lra. }
  walk_with ltac:(try exact I). cbn. nra.
Qed.

Lemma nodesLoop_alpha (WIDTH HEIGHT baseHue bass mid : R) (nodes : list NeuralNode) :
  0 <= bass ->
  Forall (strokeAlphaWithin (0.3 + bass * 0.8))
         (snd (nodesLoop WIDTH HEIGHT baseHue bass mid nodes)).
Proof.
  intros Hbass. induction nodes as [| node rest IH]; cbn [nodesLoop snd].
  - apply Forall_nil.
  - walk_with ltac:(exact I); [|exact IH].
    apply Forall_flat_map, Forall_forall. intros other _.
    apply connection_alpha; lra.
Qed.

Lemma shardPath_any (P : Call -> Prop) (shard : PaperShard) (from to : Color) :
  (forall x y, P (moveTo x y)) -> (forall x y, P (lineTo x y)) ->
  (forall st, P (fillStyle st)) -> P beginPath -> P fill ->
  Forall P (shardPath shard from to).
Proof.
  intros Hm Hl Hf Hb Hfill. unfold shardPath.
  walk_with ltac:(first [apply Hm | apply Hl | apply Hf | exact Hb | exact Hfill]).
Qed.

Section Neural.

Variable random : nat -> R.

(** X9: in a NEURAL frame every stroke is a connection line, and its alpha
    lies in [(0, 0.3 + 0.8 * bassLevel]]: a line is drawn only between nodes
    closer than [120 + 350 * bassLevel], fading to nothing at that
    distance. *)
Theorem X9_connection_lines_fade_with_distance (s : State) (t : Tick) (c : Call) :
  modeRef s = NEURAL ->
  In c (frame (render random s t)) ->
  strokeAlphaWithin (0.3 + bassLevel (frequencyData t) * 0.8) c.
Proof.
  intros Hmode Hin.
  pose proof (bassLevel_nonneg (frequencyData t)) as Hbass.
  revert c Hin. apply Forall_forall.
  rewrite render_unfold, Hmode. unfold renderNeural. cbn [frame completed].
  walk_with ltac:(exact I).
  - apply Forall_flat_map, Forall_forall. intros shard _.
    unfold neuralShard. destruct (isLight shard);
      apply shardPath_any; intros; exact I.
  - apply nodesLoop_alpha. exact Hbass.
  - unfold watermark. walk_with ltac:(exact I).
Qed.

(** X10: the camera shake of a NEURAL frame moves the picture by at most
    [bassLevel] pixels along each axis (half of [shake = 2 * bassLevel]), and
    it is the only translation of the frame. *)
Theorem X10_shake_is_bounded_by_the_bass (s : State) (t : Tick) (c : Call) :
  (forall k, 0 <= random k < 1) ->
  modeRef s = NEURAL ->
  In c (frame (render random s t)) ->
  translateWithin (bassLevel (frequencyData t)) c.
Proof.
  intros Hrange Hmode Hin.
  pose proof (bassLevel_nonneg (frequencyData t)) as Hbass.
  revert c Hin. apply Forall_forall.
  rewrite render_unfold, Hmode. unfold renderNeural. cbn [frame completed].
  walk_with ltac:(try exact I).
  - apply Forall_flat_map, Forall_forall. intros shard _.
    unfold neuralShard. destruct (isLight shard);
      apply shardPath_any; intros; exact I.
  - cbn [translateWithin].
    set (bass := bassLevel (frequencyData t)) in *.
    match goal with
    | |- Rabs ((random ?k1 - 0.5) * _) <= _ /\ Rabs ((random ?k2 - 0.5) * _) <= _ =>
        pose proof (Hrange k1); pose proof (Hrange k2)
    end.
    split; unfold Rabs; destruct (Rcase_abs _); nra.
  - induction (neuralNodesRef _) as [| node rest IH]; cbn [nodesLoop snd].
    + apply Forall_nil.
    + walk_with ltac:(exact I); [|exact IH].
      apply Forall_flat_map, Forall_forall. intros other _.
      unfold connection. destruct (ltb _ _); walk_with ltac:(exact I).
  - unfold watermark. walk_with ltac:(exact I).
Qed.

End Neural.

(** ** BARS and WAVE stay on the canvas *)


Lemma overwrite_length (src arr : list byte) :
  length (overwrite src arr) = length arr.
Proof.
  unfold overwrite. rewrite length_app, length_firstn, length_skipn. lia.
Qed.

Lemma waveY_range (HEIGHT : R) (sample : byte) :
  0 <= HEIGHT -> 0 <= waveY HEIGHT sample <= HEIGHT.
Proof.
  intros Hh. unfold waveY. pose proof (byteVal_range sample) as Hb.
  assert (0 <= JS.byteVal sample / 128.0 <= 2) by lra.
  nra.
Qed.

Lemma waveLoop_within (WIDTH HEIGHT : R) (n : nat) (data : list byte) :
  0 <= WIDTH -> 0 <= HEIGHT -> (0 < n)%nat ->
  forall i x,
    (i + length data = n)%nat -> x = INR i * (WIDTH * 1.0 / INR n) ->
    Forall (vertexWithin WIDTH HEIGHT)
           (waveLoop HEIGHT (WIDTH * 1.0 / INR n) i x data).
Proof.
  intros Hw Hh Hn. induction data as [| sample rest IH]; intros i x Hlen Hx;
    cbn [waveLoop].
  - apply Forall_nil.
  - cbn [length] in Hlen.
    assert (Hn0 : 0 < INR n) by (apply lt_0_INR; exact Hn).
    assert (Hi : 0 <= INR i <= INR n).
    { split; [apply pos_INR | apply le_INR; lia]. }
    assert (Hslice : 0 <= WIDTH * 1.0 / INR n).
    { apply Rmult_le_pos; [lra | left; apply Rinv_0_lt_compat; exact Hn0]. }
    assert (Hfull : INR n * (WIDTH * 1.0 / INR n) = WIDTH).
    { replace (WIDTH * 1.0) with WIDTH by lra. field. lra. }
    assert (Hxr : 0 <= x <= WIDTH).
    { subst x. split; [nra|]. rewrite <- Hfull at 2.
      apply Rmult_le_compat_r; lra. }
    apply Forall_cons.
    + destruct (i =? 0)%nat; cbn [vertexWithin];
        (split; [exact Hxr | apply waveY_range; exact Hh]).
    + apply IH; [lia|]. rewrite S_INR. lra.
Qed.

Section Classic.

Variable random : nat -> R.


(** X12: in WAVE every vertex of the polyline lies on the canvas: its [x]
    between 0 and the width, its [y] between 0 and the height (a sample of
    255 is drawn just under the bottom edge). *)
Theorem X12_waveform_stays_on_the_canvas (s : State) (t : Tick) (c : Call) :
  modeRef s = WAVE ->
  (0 <= clientWidth t)%Z -> (0 <= clientHeight t)%Z ->
  In c (frame (render random s t)) ->
  vertexWithin (IZR (clientWidth t)) (IZR (clientHeight t)) c.
Proof.
  intros Hmode Hw Hh Hin.
  apply IZR_le in Hw, Hh.
  revert c Hin. apply Forall_forall.
  rewrite render_unfold, Hmode. cbn [frame completed].
  unfold renderClassic, renderWave. cbn [VisualizerMode_eqb].
  walk_with ltac:(try exact I).
  - destruct (frequencyData t) as [| b rest] eqn:Hdata.
    { unfold overwrite. cbn [length firstn app skipn].
      destruct (timeDomainData t); apply Forall_nil. }
    apply waveLoop_within; try assumption.
    + simpl. lia.
    + rewrite overwrite_length. reflexivity.
    + simpl. lra.
  - cbn [vertexWithin]. split; lra.
  - unfold watermark. walk_with ltac:(exact I).
Qed.

End Classic.

(** ** The radial bars read inside the array *)

Lemma circularIndex_in_range (bufferLength i : nat) :
  (0 < bufferLength)%nat -> (i < bars)%nat ->
  (circularIndex bufferLength i < bufferLength)%nat.
Proof.
  intros Hn Hi. unfold circularIndex, bars in *.
  pose proof (Nat.Div0.mul_div_le bufferLength 120) as Hdiv.
  destruct (bufferLength / 120)%nat as [| step]; [lia | nia].
Qed.

Lemma get_in_range (arr : list byte) (i : nat) :
  (i < length arr)%nat -> exists v, JS.get arr i = Some v /\ 0 <= v <= 255.
Proof.
  intros Hi. unfold JS.get.
  destruct (nth_error arr i) as [b |] eqn:Hb.
  - exists (JS.byteVal b). split; [reflexivity | apply byteVal_range].
  - apply nth_error_None in Hb. lia.
Qed.

(** X13: with a non-empty frequency array, each of the 120 bars of CIRCULAR
    and each of the 120 slots of WATER_CIRCLE reads a bin of the array (never
    past its end), so that its length is a number: a CIRCULAR bar is between
    0 and three quarters of the smaller canvas side, an ink slot between 0
    and [HEIGHT / 5 * (1 + bass)]. *)
Theorem X13_bars_read_inside_the_array
    (dataArray : list byte) (WIDTH HEIGHT bass : R) (i : nat) :
  dataArray <> [] -> (i < bars)%nat ->
  0 <= WIDTH -> 0 <= HEIGHT -> 0 <= bass ->
  (circularIndex (length dataArray) i < length dataArray)%nat
  /\ (inkIndex (length dataArray) i < length dataArray)%nat
  /\ (exists barHeight,
        circularBarHeight dataArray WIDTH HEIGHT i = Some barHeight
        /\ 0 <= barHeight <= 0.75 * Rmin WIDTH HEIGHT)
  /\ (exists len,
        inkLength dataArray HEIGHT bass i = Some len
        /\ 0 <= len <= HEIGHT / 5 * (1 + bass)).
Proof.
  intros Hdata Hi Hw Hh Hbass.
  assert (Hn : (0 < length dataArray)%nat).
  { destruct dataArray; [contradiction | simpl; lia]. }
  pose proof (circularIndex_in_range _ _ Hn Hi) as Hc.
  pose proof (inkIndex_in_range _ _ Hn Hi) as Hk.
  split; [exact Hc|]. split; [exact Hk|]. split.
  - destruct (get_in_range _ _ Hc) as (v & Hv & Hr).
    unfold circularBarHeight. rewrite Hv. cbn [option_map].
    eexists. split; [reflexivity|].
    unfold maxBarHeight.
    assert (Hmin : 0 <= Rmin WIDTH HEIGHT) by (apply Rmin_glb; assumption).
    assert (Hval : 0 <= v / 255 <= 1) by lra.
    set (val := v / 255) in *.
    assert (Hsq : 0 <= val * val <= 1) by nra.
    nra.
  - destruct (get_in_range _ _ Hk) as (v & Hv & Hr).
    unfold inkLength. rewrite Hv. cbn [option_map].
    eexists. split; [reflexivity|].
    assert (Hval : 0 <= v / 255 <= 1) by lra.
    set (val := v / 255) in *.
    assert (Hsq : 0 <= val * val <= 1) by nra.
    rewrite Rmax_right by lra.
    assert (Hext : 0 <= HEIGHT * (1 / 5)) by lra.
    assert (Hprod : 0 <= val * val * (HEIGHT * (1 / 5)) <= HEIGHT * (1 / 5)) by nra.
    split; [nra|].
    replace (HEIGHT / 5 * (1 + bass)) with (HEIGHT * (1 / 5) * (1 + bass)) by lra.
    apply Rmult_le_compat_r; lra.
Qed.

(** ** A frame touches the fields of its own mode *)

Section Isolation.

Variable random : nat -> R.

(** X14: a frame changes the particle fields of the active mode only.  The
    neural nodes change in NEURAL only, the watercolor blobs in WATERCOLOR
    only, the paper shards, the noise layer and the count of random values
    in NEURAL and WATER_CIRCLE only; the nebula stars, the mode, the colour
    shift and the start time never change.  In particular CIRCULAR, BARS,
    WAVE and NEBULA animate from the audio data, the clock and the rotation
    alone. *)
Theorem X14_a_frame_touches_its_own_fields (s : State) (t : Tick) :
  let s' := after (render random s t) in
  (modeRef s <> NEURAL -> neuralNodesRef s' = neuralNodesRef s)
  /\ (modeRef s <> WATERCOLOR -> watercolorBlobsRef s' = watercolorBlobsRef s)
  /\ (modeRef s <> NEURAL -> modeRef s <> WATER_CIRCLE ->
        paperShardsRef s' = paperShardsRef s
        /\ noiseCanvasRef s' = noiseCanvasRef s
        /\ drawn s' = drawn s)
  /\ nebulaStarsRef s' = nebulaStarsRef s
  /\ modeRef s' = modeRef s
  /\ colorShiftRef s' = colorShiftRef s
  /\ startTime s' = startTime s.
Proof.
  intros s'.
  destruct (render_after random s t)
    as (Hnodes & Hshards & Hnoise & Hblobs & Hstars & Hdrawn & _).
  destruct (render_refs random s t) as (Hm & Hc & Hst & _).
  fold s' in Hnodes, Hshards, Hnoise, Hblobs, Hstars, Hdrawn, Hm, Hc, Hst.
  split; [|split; [|split; [|repeat split; assumption]]].
  - intros Hn. rewrite Hnodes. destruct (modeRef s); try reflexivity. contradiction.
  - intros Hn. rewrite Hblobs. destruct (modeRef s); try reflexivity. contradiction.
  - intros Hn Hw.
    destruct (handleResize_other_modes random s t Hn Hw) as (Hsh & Hno & Hd).
    split; [|split].
    + rewrite Hshards. destruct (modeRef s); try reflexivity; contradiction.
    + rewrite Hnoise. exact Hno.
    + rewrite Hdrawn.
      destruct (modeRef s); try contradiction; cbn [VisualizerMode_eqb]; exact Hd.
Qed.

End Isolation.

(** ** The audio service and the application shell *)

Lemma stopTracks_all_stopped (media : AudioService.MediaStream) :
  Forall (fun track => AudioService.stopped track = true)
         (AudioService.stopTracks media).
Proof.
  unfold AudioService.stopTracks. apply Forall_forall. intros track Hin.
  apply in_map_iff in Hin. destruct Hin as (t0 & <- & _). reflexivity.
Qed.

Lemma stopTracks_kinds (media : AudioService.MediaStream) :
  map AudioService.kind (AudioService.stopTracks media)
  = map AudioService.kind media.
Proof.
  unfold AudioService.stopTracks. rewrite map_map. reflexivity.
Qed.

Lemma shellInvariant_step (app : App.State) (e : App.Event) :
  shellInvariant app -> App.enabled app e -> shellInvariant (App.apply app e).
Proof.
  intros (Hon & Hoff & Hcolor) Hen.
  destruct e as [answer | | m | value]; cbn [App.apply App.enabled] in *.
  - destruct Hen as [Hidle Hvideo].
    destruct (Hoff Hidle) as [Hnode Hsvc].
    unfold App.startCapture, AudioService.startSystemCapture.
    destruct answer as [media | err]; cbn [AudioService.outcome].
    + destruct (length (AudioService.getAudioTracks media) =? 0)%nat eqn:Haudio;
        cbn [AudioService.outcome AudioService.service_after App.state_after
             App.isCapturing App.error App.analyser App.service App.colorShift].
      * rewrite Hidle, Hnode, Hsvc. split; [discriminate|]. split; [|exact Hcolor].
        intros _. split; reflexivity.
      * split; [|split; [discriminate | exact Hcolor]].
        intros _. split.
        -- destruct (AudioService.getVideoTracks media); [contradiction | reflexivity].
        -- eexists. exists media. cbn.
           repeat split.
           apply Nat.eqb_neq in Haudio. intros Hnil. rewrite Hnil in Haudio.
           apply Haudio. reflexivity.
    + cbn [AudioService.service_after App.state_after
           App.isCapturing App.error App.analyser App.service App.colorShift].
      rewrite Hidle, Hnode, Hsvc. split; [discriminate|]. split; [|exact Hcolor].
      intros _. split; reflexivity.
  - unfold App.stopCapture, AudioService.cleanup.
    cbn [App.state_after AudioService.service_after
         App.isCapturing App.error App.analyser App.service App.colorShift].
    split; [discriminate|]. split; [|exact Hcolor]. intros _. split; reflexivity.
  - split; [exact Hon | split; [exact Hoff | exact Hcolor]].
  - split; [exact Hon | split; [exact Hoff|]].
    cbn [App.setColorShift App.colorShift].
    destruct Hen as [Hlo Hhi]. apply IZR_le in Hlo, Hhi. lra.
Qed.

Lemma shellInvariant_reachable (app : App.State) :
  App.reachable app -> shellInvariant app.
Proof.
  induction 1 as [| app e _ IH Hen].
  - split; [discriminate|]. split; [intros _; split; reflexivity|].
    cbn. lra.
  - apply shellInvariant_step; assumption.
Qed.

(** X15: at every moment of the shell, it is capturing exactly when it holds
    an analyser, and then the canvas is shown, no error is displayed, the
    analyser is the service's own with 1024 bins, and the service holds a
    stream with an audio track; when it is not capturing the service holds
    nothing.  The colour shift stays between 0 and 360. *)
Theorem X15_shell_and_service_agree (app : App.State) :
  App.reachable app ->
  (App.isCapturing app = true <-> App.analyser app <> None)
  /\ App.showsCanvas app = App.isCapturing app
  /\ (App.isCapturing app = true ->
        App.error app = None
        /\ exists node media,
             App.analyser app = Some node
             /\ AudioService.frequencyBinCount node = 1024%nat
             /\ AudioService.analyser (App.service app) = Some node
             /\ AudioService.stream (App.service app) = Some media
             /\ AudioService.getAudioTracks media <> [])
  /\ (App.isCapturing app = false -> App.service app = AudioService.idle)
  /\ 0 <= App.colorShift app <= 360.
Proof.
  intros Hreach.
  destruct (shellInvariant_reachable app Hreach) as (Hon & Hoff & Hcolor).
  split; [|split; [|split; [|split]]].
  - split.
    + intros Hc. destruct (Hon Hc) as (_ & node & media & Hnode & _).
      rewrite Hnode. discriminate.
    + intros Hnode. destruct (App.isCapturing app); [reflexivity|].
      destruct (Hoff eq_refl) as [Hnone _]. contradiction.
  - unfold App.showsCanvas. destruct (App.isCapturing app) eqn:Hc; [|reflexivity].
    destruct (Hon eq_refl) as (_ & node & media & Hnode & _).
    rewrite Hnode. reflexivity.
  - intros Hc. destruct (Hon Hc) as (Herr & node & media & H1 & H2 & H3 & _ & H5 & H6).
    split; [exact Herr|]. exists node, media. repeat split; assumption.
  - intros Hc. apply (Hoff Hc).
  - exact Hcolor.
Qed.

(** X16: a stream is never dropped with a live track.  When the user shares
    without audio, [startCapture] stops every track of the stream, shows the
    share-audio message and changes nothing else; [stopCapture] stops every
    track of the stream the service holds and leaves the service empty.  In
    both cases the stream given up has the tracks of the original. *)
Theorem X16_streams_are_stopped_when_given_up
    (app : App.State) (media : AudioService.MediaStream) :
  (AudioService.getAudioTracks media = [] ->
     let step := App.startCapture (AudioService.returned media) app in
     App.released step = Some (AudioService.stopTracks media)
     /\ App.error (App.state_after step) = Some App.shareAudioHint
     /\ App.isCapturing (App.state_after step) = App.isCapturing app
     /\ App.analyser (App.state_after step) = App.analyser app
     /\ App.service (App.state_after step) = App.service app)
  /\ (AudioService.stream (App.service app) = Some media ->
        let step := App.stopCapture app in
        App.released step = Some (AudioService.stopTracks media)
        /\ App.isCapturing (App.state_after step) = false
        /\ App.analyser (App.state_after step) = None
        /\ App.service (App.state_after step) = AudioService.idle)
  /\ Forall (fun track => AudioService.stopped track = true)
            (AudioService.stopTracks media)
  /\ map AudioService.kind (AudioService.stopTracks media)
     = map AudioService.kind media.
Proof.
  split; [|split; [|split]].
  - intros Hnone step. unfold step, App.startCapture, AudioService.startSystemCapture.
    rewrite Hnone. cbn. repeat split; reflexivity.
  - intros Hheld step. unfold step, App.stopCapture, AudioService.cleanup.
    rewrite Hheld. cbn. repeat split; reflexivity.
  - apply stopTracks_all_stopped.
  - apply stopTracks_kinds.
Qed.

Section ShellAndCanvas.

Variable random : nat -> R.


End ShellAndCanvas.

(** X18: while capturing, the watermark of the page and the watermark drawn
    on the canvas use the same colour scheme in every mode but NEURAL, where
    the page takes the dark text of a light mode and the canvas the light
    text of a dark one. *)
Theorem X18_page_and_canvas_watermark (app : App.State) (WIDTH HEIGHT : R) :
  App.isCapturing app = true ->
  let darkOnPage := App.watermarkColorClass app = "text-black/40"%string in
  let darkOnCanvas :=
    In (fillStyle (Solid (rgba 0 0 0 0.4))) (watermark (App.mode app) WIDTH HEIGHT) in
  let lightOnCanvas :=
    In (fillStyle (Solid (rgba 255 255 255 0.4)))
       (watermark (App.mode app) WIDTH HEIGHT) in
  (App.mode app <> NEURAL -> (darkOnPage <-> darkOnCanvas))
  /\ (App.mode app = NEURAL -> darkOnPage /\ lightOnCanvas /\ ~ darkOnCanvas).
Proof.
  intros Hc darkOnPage darkOnCanvas lightOnCanvas.
  unfold darkOnPage, darkOnCanvas, lightOnCanvas,
    App.watermarkColorClass, App.isLightMode, watermark.
  rewrite Hc.
  assert (Hcanvas : ~ In (fillStyle (Solid (rgba 0 0 0 0.4)))
                 [ save; font "bold 14px sans-serif"; textAlign "right";
                   textBaseline "bottom";
                   fillStyle (Solid (rgba 255 255 255 0.4));
                   fillText "Idea by Geeksing" (WIDTH - 20) (HEIGHT - 20);
                   restore ]).
  { intros Hin. cbn [In] in Hin.
    repeat (destruct Hin as [Hin | Hin]; try discriminate Hin); try contradiction.
    injection Hin as H0 _ _. lra. }
  split.
  - intros Hmode.
    destruct (App.mode app); try contradiction;
      cbn [existsb VisualizerMode_eqb orb andb];
      (split; intros H;
       [ first [ discriminate H | cbn [In]; tauto ]
       | first [ reflexivity | exfalso; exact (Hcanvas H) ] ]).
  - intros ->. cbn [existsb VisualizerMode_eqb orb andb].
    split; [reflexivity|]. split; [cbn [In]; tauto | exact Hcanvas].
Qed.

(** X19: each of the seven modes has exactly one button, and for every
    current mode exactly one button of the bar is rendered as active: the
    one of that mode, in the colour of that button.  So after a mode button
    is pressed it is the one highlighted. *)
Theorem X19_one_button_is_active (app : App.State) (m : VisualizerMode) :
  let currentMode := App.mode (App.setMode m app) in
  length (filter (fun b => VisualizerMode_eqb (fst b) m) ControlPanel.modeButtons)
  = 1%nat
  /\ map fst (filter (fun b => ControlPanel.isActive currentMode (fst b))
                     ControlPanel.modeButtons) = [m]
  /\ map ControlPanel.marksActive (ControlPanel.buttonClasses currentMode)
     = map (fun b => ControlPanel.isActive currentMode (fst b))
           ControlPanel.modeButtons.
Proof.
  intros currentMode. unfold currentMode. cbn [App.setMode App.mode].
  destruct m; repeat split; vm_compute; reflexivity.
Qed.

(** ** No negative radius reaches the context *)

Lemma highLevel_nonneg (data : list byte) (high : R) :
  highLevel data = Some high -> 0 <= high.
Proof.
  intros Hhigh.
  destruct (Nat.eq_dec (length data) 100) as [Heq | Hne].
  { unfold highLevel in Hhigh. rewrite (highAvg_undefined data Heq) in Hhigh.
    discriminate Hhigh. }
  unfold highLevel in Hhigh. rewrite (highAvg_defined data Hne) in Hhigh.
  cbn [option_map] in Hhigh. injection Hhigh as <-.
  pose proof (weighted_nonneg highWeight highWeight_nonneg data 0) as Hpos.
  destruct (Nat.lt_ge_cases (length data) 100) as [Hlt | Hge].
  - rewrite weighted_zero_upto with (n := 100%nat).
    + unfold Rdiv. rewrite !Rmult_0_l. lra.
    + intros i Hi. unfold highWeight.
      destruct (Nat.ltb_spec i 100); [reflexivity | lia].
    + simpl. lia.
  - assert (Hgt : 100 < INR (length data)).
    { change 100 with (IZR (Z.of_nat 100)).
      rewrite <- (INR_IZR_INZ 100). apply lt_INR. lia. }
    apply Rmult_le_pos; [|lra].
    apply Rmult_le_pos; [assumption|].
    left. apply Rinv_0_lt_compat. lra.
Qed.

Ltac radii :=
  unfold radiiNonneg; cbn [callRadii styleRadii];
  repeat (apply Forall_cons; [try lra; try nra|]); try apply Forall_nil.

Lemma shardPath_radii (shard : PaperShard) (from to : Color) :
  Forall radiiNonneg (shardPath shard from to).
Proof. unfold shardPath. walk_with radii. Qed.

Lemma nodesLoop_radii (WIDTH HEIGHT baseHue bass mid : R) (nodes : list NeuralNode) :
  0 <= bass -> 0 <= mid -> Forall nodeSane nodes ->
  Forall radiiNonneg (snd (nodesLoop WIDTH HEIGHT baseHue bass mid nodes)).
Proof.
  intros Hbass Hmid. induction nodes as [| node rest IH]; intros Hall;
    cbn [nodesLoop snd].
  - apply Forall_nil.
  - inversion Hall as [| ? ? Hnode Hrest]; subst.
    destruct Hnode as (_ & _ & Hr). cbn [moveNode node_radius].
    walk_with radii.
    + apply Forall_flat_map, Forall_forall. intros other _.
      unfold connection. destruct (ltb _ _); walk_with radii.
    + apply IH. exact Hrest.
Qed.

Lemma blobsLoop_radii (WIDTH HEIGHT globalHueShift wobble bass mid : R)
    (high : option R) (blobs : list WatercolorBlob) :
  0 <= bass -> 0 <= mid -> (forall hi, high = Some hi -> 0 <= hi) ->
  forall i,
  Forall blobSane blobs ->
  Forall radiiNonneg
    (blobs_calls (blobsLoop WIDTH HEIGHT globalHueShift wobble bass mid high i blobs)).
Proof.
  intros Hbass Hmid Hhigh.
  induction blobs as [| blob rest IH]; intros i Hall; cbn [blobsLoop].
  - apply Forall_nil.
  - inversion Hall as [| ? ? Hblob Hrest]; subst.
    destruct Hblob as (_ & _ & Hr & _).
    destruct (react i bass mid high) as [re |] eqn:Hre; cbn [blobs_calls];
      [|apply Forall_nil].
    assert (Hre0 : 0 <= re).
    { unfold react in Hre.
      destruct (i mod 3 =? 0)%nat; [injection Hre as <-; exact Hbass|].
      destruct (i mod 3 =? 1)%nat; [injection Hre as <-; exact Hmid|].
      apply Hhigh. exact Hre. }
    unfold blobCalls. cbn [moveBlob blob_radius blob_x blob_y].
    walk_with radii. apply IH. exact Hrest.
Qed.

Lemma glowLoop_radii (bass mid : R) (shards : list PaperShard) :
  0 <= bass -> 0 <= mid -> Forall shardSane shards ->
  forall i, Forall radiiNonneg (glowLoop bass mid i shards).
Proof.
  intros Hbass Hmid. induction shards as [| shard rest IH]; intros Hall i;
    cbn [glowLoop].
  - apply Forall_nil.
  - inversion Hall as [| ? ? Hshard Hrest]; subst.
    destruct Hshard as (_ & _ & Hsize & _).
    apply Forall_app. split; [|apply IH; exact Hrest].
    destruct (isHighlight shard); [|apply Forall_nil].
    assert (Htrigger : 0 <= (if (i mod 2 =? 0)%nat then bass else mid))
      by (destruct (i mod 2 =? 0)%nat; assumption).
    set (trigger := if (i mod 2 =? 0)%nat then bass else mid) in *.
    destruct (gtb (trigger * 0.6) 0.1); walk_with radii.
Qed.

Lemma inkBar_radii (dataArray : list byte)
    (WIDTH HEIGHT globalHueShift wobble bass : R) (i : nat) :
  Forall radiiNonneg (inkBar dataArray WIDTH HEIGHT globalHueShift wobble bass i).
Proof.
  unfold inkBar, inkBarGradient.
  destruct (inkLength dataArray HEIGHT bass i) as [len |]; [|walk_with radii].
  destruct (gtb len 0); destruct (gtb (inwardLen WIDTH HEIGHT bass len) 0);
    walk_with radii.
Qed.

Lemma circularBar_radii (dataArray : list byte) (WIDTH HEIGHT hue bass : R) (i : nat) :
  Forall radiiNonneg (circularBar dataArray WIDTH HEIGHT hue bass i).
Proof.
  unfold circularBar.
  destruct (circularBarHeight dataArray WIDTH HEIGHT i); walk_with radii.
Qed.

Lemma barsLoop_radii (WIDTH HEIGHT hue barWidth : R) (n : nat) (data : list byte) :
  forall i x, Forall radiiNonneg (barsLoop WIDTH HEIGHT hue barWidth n i x data).
Proof.
  induction data as [| b rest IH]; intros i x; cbn [barsLoop].
  - apply Forall_nil.
  - walk_with radii. destruct (gtb _ _); [apply Forall_nil | apply IH].
Qed.

Lemma waveLoop_radii (HEIGHT sliceWidth : R) (data : list byte) :
  forall i x, Forall radiiNonneg (waveLoop HEIGHT sliceWidth i x data).
Proof.
  induction data as [| sample rest IH]; intros i x; cbn [waveLoop].
  - apply Forall_nil.
  - apply Forall_cons; [destruct (i =? 0)%nat; radii | apply IH].
Qed.

Section Radii.

Variable random : nat -> R.
Hypothesis random_range : forall k, 0 <= random k < 1.

(** X20: no arc and no radial gradient of a frame has a negative radius, so
    the context never throws on one.  The radii are products of particle
    sizes (at least 1), of the canvas sides and of factors [1 + level * c]
    with non-negative levels. *)
Theorem X20_no_negative_radius (s : State) (t : Tick) :
  reachable random s ->
  (0 <= clientWidth t)%Z -> (0 <= clientHeight t)%Z ->
  Forall radiiNonneg (frame (render random s t)).
Proof.
  intros Hreach Hw Hh.
  apply IZR_le in Hw, Hh.
  set (WIDTH := IZR (clientWidth t)) in *. set (HEIGHT := IZR (clientHeight t)) in *.
  assert (Hmin : 0 <= Rmin WIDTH HEIGHT) by (apply Rmin_glb; assumption).
  pose proof (bassLevel_nonneg (frequencyData t)) as Hbass.
  pose proof (midLevel_nonneg (frequencyData t)) as Hmid.
  pose proof (highLevel_nonneg (frequencyData t)) as Hhigh.
  destruct (reachable_invariants random random_range s Hreach) as [Hsane _].
  pose proof (handleResize_sane random random_range s t Hsane)
    as (_ & Hnodes & _ & Hblobs & _ & Hstars & _ & Hshards).
  rewrite render_unfold. cbn [frame]. fold WIDTH HEIGHT.
  set (bass := bassLevel (frequencyData t)) in *.
  set (mid := midLevel (frequencyData t)) in *.
  apply Forall_app. split.
  - destruct (modeRef s) eqn:Hmode; cbn [frame].
    + (* CIRCULAR *)
      unfold renderClassic, renderCircular, bassScale. cbn [VisualizerMode_eqb].
      walk_with radii.
      apply Forall_flat_map, Forall_forall. intros i _. apply circularBar_radii.
    + (* BARS *)
      unfold renderClassic, renderBars. cbn [VisualizerMode_eqb].
      walk_with radii. apply barsLoop_radii.
    + (* WAVE *)
      unfold renderClassic, renderWave. cbn [VisualizerMode_eqb].
      walk_with radii. apply waveLoop_radii.
    + (* NEURAL *)
      unfold renderNeural. cbn [frame neuralNodesRef paperShardsRef set_rotationRef].
      walk_with radii.
      * apply Forall_flat_map, Forall_forall. intros shard _.
        unfold neuralShard. destruct (isLight shard); apply shardPath_radii.
      * apply nodesLoop_radii; assumption.
    + (* WATERCOLOR *)
      unfold renderWatercolor. cbn [frame watercolorBlobsRef set_rotationRef].
      walk_with radii.
      * apply blobsLoop_radii; assumption.
      * destruct (blobs_done _); walk_with radii.
    + (* NEBULA *)
      unfold renderNebula.
      destruct (highLevel (frequencyData t)) as [hi |] eqn:Hhi; cbn [frame];
        unfold drawCloud.
      * pose proof (Hhigh hi eq_refl) as Hhi0.
        walk_with radii.
        apply Forall_flat_map, Forall_forall. intros star Hin.
        cbn [nebulaStarsRef set_rotationRef] in Hin.
        rewrite Forall_forall in Hstars. destruct (Hstars star Hin) as [Hsize _].
        unfold starCalls. walk_with radii.
      * walk_with radii.
    + (* WATER_CIRCLE *)
      unfold renderWaterCircle.
      cbn [frame paperShardsRef noiseCanvasRef rotationRef set_rotationRef].
      assert (Hpool : 0 <= poolSize WIDTH HEIGHT bass).
      { unfold poolSize, radiusBase. nra. }
      walk_with radii.
      * apply Forall_flat_map, Forall_forall. intros shard _.
        unfold paperShard. destruct (isLight shard); apply shardPath_radii.
      * unfold noiseOverlay. destruct (noiseCanvasRef _); walk_with radii.
      * destruct (gtb _ _); [|apply Forall_nil].
        apply glowLoop_radii; try assumption.
        apply Forall_forall. intros shard Hin. apply in_map_iff in Hin.
        destruct Hin as (shard0 & <- & Hin0). apply moveShard_sane.
        rewrite Forall_forall in Hshards. apply Hshards. exact Hin0.
      * unfold inkPool. walk_with radii.
      * apply Forall_flat_map, Forall_forall. intros i _. apply inkBar_radii.
  - match goal with |- context [if ?c then _ else _] => destruct c end;
      [unfold watermark; walk_with radii | apply Forall_nil].
Qed.

End Radii.

(** ** CIRCULAR: the bars form a ring around the disc *)

(** X21: a radial bar of CIRCULAR lies on a ray from the centre of the
    canvas: the ray at the angle [i / 120] of a full turn, of direction
    [(cos angle, sin angle)].  With a non-empty frequency array the bar is one
    segment whose two ends are on that same ray: the start at distance
    [radius * bassScale] from the centre, which is outside the disc (of
    radius 0.8 of that), and the end [barHeight >= 0] further out along the
    same direction. *)
Theorem X21_radial_bars_form_a_ring
    (dataArray : list byte) (WIDTH HEIGHT hue bass : R) (i : nat) :
  dataArray <> [] -> (i < bars)%nat ->
  0 <= WIDTH -> 0 <= HEIGHT -> 0 <= bass ->
  let ring := Rmin WIDTH HEIGHT / 4 * bassScale bass in
  let angle := INR i / INR bars * (2 * PI) in
  exists xStart yStart xEnd yEnd barHeight barHue,
    circularBar dataArray WIDTH HEIGHT hue bass i
    = [ beginPath; moveTo xStart yStart; lineTo xEnd yEnd;
        strokeStyle (Solid (hsl barHue 80 60)); lineWidth 3; lineCap "round"; stroke ]
    /\ circularBarHeight dataArray WIDTH HEIGHT i = Some barHeight
    /\ 0 <= barHeight
    /\ ring * 0.8 <= ring
    /\ xStart = WIDTH / 2 + ring * cos angle
    /\ yStart = HEIGHT / 2 + ring * sin angle
    /\ xEnd = WIDTH / 2 + (ring + barHeight) * cos angle
    /\ yEnd = HEIGHT / 2 + (ring + barHeight) * sin angle
    /\ cos angle * cos angle + sin angle * sin angle = 1
    /\ (xStart - WIDTH / 2) * (xStart - WIDTH / 2)
       + (yStart - HEIGHT / 2) * (yStart - HEIGHT / 2) = ring * ring
    /\ (xEnd - WIDTH / 2) * (xEnd - WIDTH / 2)
       + (yEnd - HEIGHT / 2) * (yEnd - HEIGHT / 2)
       = (ring + barHeight) * (ring + barHeight).
Proof.
  intros Hdata Hi Hw Hh Hbass ring angle.
  assert (Hn : (0 < length dataArray)%nat).
  { destruct dataArray; [contradiction | simpl; lia]. }
  destruct (get_in_range _ _ (circularIndex_in_range _ _ Hn Hi)) as (v & Hv & Hr).
  assert (Hbar : circularBarHeight dataArray WIDTH HEIGHT i
                 = Some (v / 255 * (v / 255) * maxBarHeight WIDTH HEIGHT * 1.5)).
  { unfold circularBarHeight. rewrite Hv. reflexivity. }
  assert (Hmin : 0 <= Rmin WIDTH HEIGHT) by (apply Rmin_glb; assumption).
  assert (Hangle : INR i / INR bars * PI * 2 = angle) by (unfold angle; lra).
  unfold circularBar. rewrite Hbar, Hangle. cbn [app].
  do 6 eexists. split; [reflexivity|].
  split; [reflexivity|].
  split.
  { unfold maxBarHeight.
    assert (0 <= v / 255 * (v / 255)) by nra. nra. }
  split.
  { unfold ring, bassScale. nra. }
  fold ring.
  pose proof (sin2_cos2 angle) as Hunit. unfold Rsqr in Hunit.
  set (h := v / 255 * (v / 255) * maxBarHeight WIDTH HEIGHT * 1.5).
  split; [lra|]. split; [lra|]. split; [lra|]. split; [lra|].
  split; [lra|].
  split.
  - replace (WIDTH / 2 + cos angle * ring - WIDTH / 2) with (cos angle * ring) by lra.
    replace (HEIGHT / 2 + sin angle * ring - HEIGHT / 2) with (sin angle * ring) by lra.
    replace (cos angle * ring * (cos angle * ring) + sin angle * ring * (sin angle * ring))
      with ((sin angle * sin angle + cos angle * cos angle) * (ring * ring)) by ring.
    rewrite Hunit. lra.
  - replace (WIDTH / 2 + cos angle * (ring + h) - WIDTH / 2)
      with (cos angle * (ring + h)) by lra.
    replace (HEIGHT / 2 + sin angle * (ring + h) - HEIGHT / 2)
      with (sin angle * (ring + h)) by lra.
    replace (cos angle * (ring + h) * (cos angle * (ring + h))
             + sin angle * (ring + h) * (sin angle * (ring + h)))
      with ((sin angle * sin angle + cos angle * cos angle)
            * ((ring + h) * (ring + h))) by ring.
    rewrite Hunit. lra.
Qed.

(** ** The rotation over a run of the loop *)

Section Runs.

Variable random : nat -> R.


End Runs.

(** * The further properties at concrete inputs *)

Lemma always09_range (k : nat) : 0 <= always09 k < 1.
Proof. unfold always09. lra. Qed.

Lemma watercolorStart_reachable : reachable always09 watercolorStart.
Proof.
  exists window1000, WATERCOLOR, 0, [LoopStarted window1000 0]. reflexivity.
Qed.

Lemma loudTick_bins : length (frequencyData loudTick) <> 100%nat.
Proof. unfold loudTick. cbn [frequencyData]. rewrite repeat_length. lia. Qed.

Lemma wrap_inside (lo hi v : R) : lo <= v <= hi -> wrap lo hi v = v.
Proof.
  intros Hv. unfold wrap.
  destruct (Rlt_dec v lo) as [Hlo | Hlo]; [lra|].
  destruct (Rlt_dec hi v); [lra | reflexivity].
Qed.

Lemma capturing_reachable : App.reachable capturing.
Proof.
  apply App.reach_step; [apply App.reach_initial|].
  split; [reflexivity | discriminate].
Qed.

(** WATERCOLOR, its loop started: seven blobs. *)
Lemma X2_active_mode_has_its_fields_witness :
  length (watercolorBlobsRef watercolorStart) = 7%nat.
Proof.
  exact (X2_active_mode_has_its_fields always09 always09_range watercolorStart
           watercolorStart_reachable).
Defined.

Lemma X3_particle_parameters_stay_in_range_witness :
  Forall blobSane (watercolorBlobsRef watercolorStart).
Proof.
  destruct (X3_particle_parameters_stay_in_range always09 always09_range
              watercolorStart watercolorStart_reachable) as (_ & Hblobs & _).
  exact Hblobs.
Defined.

(** The first loud frame of WATERCOLOR. *)
Lemma X4_blob_step_is_bounded_witness :
  Forall2 (fun blob blob' =>
             Rabs (blob_x blob' - blob_x blob) <= 2.05625
             /\ Rabs (blob_y blob' - blob_y blob) <= 2.05625)
          (watercolorBlobsRef watercolorStart)
          (watercolorBlobsRef (after (render always09 watercolorStart loudTick))).
Proof.
  apply (X4_blob_step_is_bounded always09 always09_range watercolorStart loudTick).
  - exact watercolorStart_reachable.
  - reflexivity.
  - exact loudTick_bins.
Defined.

(** A frame of WAVE. *)
Lemma X5_frame_restores_the_context_witness :
  ctxAfter (frame (render always09 (mounted WAVE 0) loudTick)) (defaultCtx, [])
  = (defaultCtx, []).
Proof.
  apply (X5_frame_restores_the_context always09 (mounted WAVE 0) loudTick).
  apply render_completes. left. exact loudTick_bins.
Defined.


Lemma X8_offset_modes_normalise_their_hues_witness :
  Forall hueInRange (frameHues (frame (render always09 watercolorStart loudTick))).
Proof.
  apply (X8_offset_modes_normalise_their_hues always09 watercolorStart loudTick).
  - discriminate.
  - discriminate.
  - discriminate.
  - change (0 <= 0). lra.
  - destruct (reachable_invariants always09 always09_range watercolorStart
                watercolorStart_reachable) as [(_ & _ & _ & Hblobs & _) _].
    eapply Forall_impl; [|exact Hblobs].
    intros blob (_ & _ & _ & Hc). lra.
Defined.

(** NEURAL at full scale: the line between two nodes at the same place has
    the full alpha [0.3 + 1.445 * 0.8]. *)
Lemma X9_connection_lines_fade_with_distance_witness :
  exists baseHue alpha,
    In (strokeStyle (Solid (hsla baseHue 80 75 alpha)))
       (frame (render always09 twoNodes loudTick))
    /\ 0 < alpha <= 0.3 + bassLevel (frequencyData loudTick) * 0.8.
Proof.
  assert (Hin : exists baseHue alpha,
            In (strokeStyle (Solid (hsla baseHue 80 75 alpha)))
               (frame (render always09 twoNodes loudTick))).
  { rewrite render_unfold. change (modeRef twoNodes) with NEURAL.
    unfold renderNeural. cbn [frame completed neuralNodesRef set_rotationRef].
    destruct (handleResize_refs always09 twoNodes loudTick)
      as (_ & _ & _ & _ & Hnodes & _).
    cbv zeta in Hnodes. rewrite Hnodes.
    cbn [neuralNodesRef twoNodes set_neuralNodes nodesLoop snd].
    do 2 eexists.
    apply in_or_app. left.
    apply in_or_app. right. apply in_or_app. right. apply in_or_app. right.
    apply in_or_app. left.
    apply in_or_app. right. apply in_or_app. left.
    apply in_flat_map. eexists. split; [left; reflexivity|].
    unfold connection, ltb.
    match goal with
    | |- context [Rlt_dec ?a ?b] => destruct (Rlt_dec a b) as [Hnear | Hfar]
    end.
    - left. reflexivity.
    - exfalso. apply Hfar.
      pose proof (bassLevel_nonneg (frequencyData loudTick)) as Hbass.
      cbn [moveNode node_x node_y node_vx node_vy].
      change (IZR (clientWidth loudTick)) with 1000.
      change (IZR (clientHeight loudTick)) with 1000.
      rewrite !wrap_inside by lra.
      match goal with
      | |- sqrt ?e < _ => replace e with 0 by lra
      end.
      rewrite sqrt_0. lra. }
  destruct Hin as (baseHue & alpha & Hin).
  exists baseHue, alpha. split; [exact Hin|].
  exact (X9_connection_lines_fade_with_distance always09 twoNodes loudTick _
           eq_refl Hin).
Defined.

(** The shake of the same frame. *)
Lemma X10_shake_is_bounded_by_the_bass_witness :
  exists x y,
    In (translate x y) (frame (render always09 twoNodes loudTick))
    /\ Rabs x <= bassLevel (frequencyData loudTick)
    /\ Rabs y <= bassLevel (frequencyData loudTick).
Proof.
  assert (Hin : exists x y,
            In (translate x y) (frame (render always09 twoNodes loudTick))).
  { rewrite render_unfold. change (modeRef twoNodes) with NEURAL.
    unfold renderNeural. cbn [frame completed].
    do 2 eexists.
    apply in_or_app. left.
    apply in_or_app. right. apply in_or_app. right. apply in_or_app. left.
    right. left. reflexivity. }
  destruct Hin as (x & y & Hin). exists x, y. split; [exact Hin|].
  exact (X10_shake_is_bounded_by_the_bass always09 twoNodes loudTick _
           always09_range eq_refl Hin).
Defined.


(** The closing vertex of a frame of WAVE: the middle of the right edge. *)
Lemma X12_waveform_stays_on_the_canvas_witness :
  In (lineTo 1000 (1000 / 2)) (frame (render always09 (mounted WAVE 0) loudTick))
  /\ vertexWithin 1000 1000 (lineTo 1000 (1000 / 2)).
Proof.
  assert (Hin : In (lineTo 1000 (1000 / 2))
                   (frame (render always09 (mounted WAVE 0) loudTick))).
  { rewrite render_unfold. change (modeRef (mounted WAVE 0)) with WAVE.
    cbn [frame completed]. unfold renderClassic, renderWave.
    cbn [VisualizerMode_eqb].
    apply in_or_app. left. apply in_or_app. right.
    apply in_or_app. right. apply in_or_app. right.
    left. reflexivity. }
  split; [exact Hin|].
  apply (X12_waveform_stays_on_the_canvas always09 (mounted WAVE 0) loudTick).
  - reflexivity.
  - simpl. lia.
  - simpl. lia.
  - exact Hin.
Defined.

(** The last slot of a full-scale array of 1024 bins. *)
Lemma X13_bars_read_inside_the_array_witness :
  (circularIndex (length (repeat Byte.xff 1024)) 119
   < length (repeat Byte.xff 1024))%nat
  /\ (inkIndex (length (repeat Byte.xff 1024)) 119
      < length (repeat Byte.xff 1024))%nat.
Proof.
  destruct (X13_bars_read_inside_the_array (repeat Byte.xff 1024) 1000 1000 1.445 119)
    as (Hc & Hk & _).
  - discriminate.
  - unfold bars. lia.
  - lra.
  - lra.
  - lra.
  - split; [exact Hc | exact Hk].
Defined.

(** The shell once the screen is shared. *)
Lemma X15_shell_and_service_agree_witness :
  App.showsCanvas capturing = App.isCapturing capturing
  /\ 0 <= App.colorShift capturing <= 360.
Proof.
  destruct (X15_shell_and_service_agree capturing capturing_reachable)
    as (_ & Hshown & _ & _ & Hcolor).
  split; [exact Hshown | exact Hcolor].
Defined.


(** The shell in its default mode, WATER_CIRCLE: dark text on both. *)
Lemma X18_page_and_canvas_watermark_witness :
  App.watermarkColorClass capturing = "text-black/40"%string
  <-> In (fillStyle (Solid (rgba 0 0 0 0.4))) (watermark (App.mode capturing) 1000 1000).
Proof.
  destruct (X18_page_and_canvas_watermark capturing 1000 1000 eq_refl) as [Hsame _].
  apply Hsame. discriminate.
Defined.

Lemma X20_no_negative_radius_witness :
  Forall radiiNonneg (frame (render always09 watercolorStart loudTick)).
Proof.
  apply (X20_no_negative_radius always09 always09_range watercolorStart loudTick).
  - exact watercolorStart_reachable.
  - simpl. lia.
  - simpl. lia.
Defined.

(** The bar of slot 30, a quarter turn, of a full-scale frame on a surface of
    1000 by 1000: both ends on the ray at the angle [30 / 120 * 2 PI]. *)
Lemma X21_radial_bars_form_a_ring_witness :
  exists xStart yStart xEnd yEnd barHeight barHue,
    circularBar (repeat Byte.xff 1024) 1000 1000 0 1.445 30
    = [ beginPath; moveTo xStart yStart; lineTo xEnd yEnd;
        strokeStyle (Solid (hsl barHue 80 60)); lineWidth 3; lineCap "round"; stroke ]
    /\ 0 <= barHeight
    /\ xStart = 1000 / 2 + Rmin 1000 1000 / 4 * bassScale 1.445
                           * cos (INR 30 / INR bars * (2 * PI))
    /\ xEnd = 1000 / 2 + (Rmin 1000 1000 / 4 * bassScale 1.445 + barHeight)
                         * cos (INR 30 / INR bars * (2 * PI))
    /\ yStart = 1000 / 2 + Rmin 1000 1000 / 4 * bassScale 1.445
                           * sin (INR 30 / INR bars * (2 * PI))
    /\ yEnd = 1000 / 2 + (Rmin 1000 1000 / 4 * bassScale 1.445 + barHeight)
                         * sin (INR 30 / INR bars * (2 * PI)).
Proof.
  destruct (X21_radial_bars_form_a_ring (repeat Byte.xff 1024) 1000 1000 0 1.445 30)
    as (xs & ys & xe & ye & h & hue & Hbar & _ & Hh & _ & Hxs & Hys & Hxe & Hye & _).
  - discriminate.
  - unfold bars. lia.
  - lra.
  - lra.
  - lra.
  - exists xs, ys, xe, ye, h, hue.
    split; [exact Hbar|]. split; [exact Hh|].
    split; [exact Hxs|]. split; [exact Hxe|]. split; [exact Hys | exact Hye].
Defined.

